(** * Manga reader / bookshelf generators: a shallow embedding

    The Python scripts of the repository are embedded as Rocq functions:

    - [htmlcmb_v3.py]: [ImageValidator], [FileSystemScanner],
      [MangaAnalyzer], [MangaHTMLGenerator], [MangaReaderGenerator];
    - [htmlcmb_v3_virtualscroll.py]: [VirtualScrollMangaGenerator],
      [create_virtual_scroll_reader];
    - [htmlcs_v4.py]: [ImageSearchEngine], [ReaderFileFinder],
      [BookshelfScanner], [BookshelfGenerator];
    - [create_progressive_reader.py]: [get_manga_images],
      [create_progressive_reader];
    - [htmlc.py]: [getAllFiles], [toLeftSlash], the scan loop and the
      emission loop.

    Conventions.  A Python [str] is a [string]: its characters are the
    code points below U+0100, with the case, digit and space classes that
    Python gives them.  A [pathlib.Path] is the
    list of its components ([Path.parts]).  Python integers are [Z].  A
    dictionary is a [gmap].  The file system is an explicit value that the
    effectful functions read and return.  A call that may raise returns a
    [result]: the exception or the value. *)

From Stdlib Require Import ZArith Ascii String DecimalString Sorted.
From stdpp Require Import base list strings gmap.

Local Open Scope Z_scope.

Set Warnings "-register-all".

(** ** Strings *)

Module Str.

(** The code point of [c] lies between [lo] and [hi]. *)
Definition between (lo hi : nat) (c : ascii) : bool :=
  (lo <=? nat_of_ascii c)%nat && (nat_of_ascii c <=? hi)%nat.

(** [c.isupper()]: the letters A to Z and the capital letters from
    U+00C0 to U+00DE, the multiplication sign U+00D7 apart. *)
Definition is_upper (c : ascii) : bool :=
  between 65 90 c || between 192 214 c || between 216 222 c.

(** [c.islower()]: the letters a to z, the two ordinal indicators, the
    micro sign and the small letters from U+00DF to U+00FF, the division
    sign U+00F7 apart. *)
Definition is_lower (c : ascii) : bool :=
  between 97 122 c || between 170 170 c || between 181 181 c || between 186 186 c
  || between 223 246 c || between 248 255 c.

(** The regular-expression class [\d], which is also what [int] reads:
    the decimal digits 0 to 9. *)
Definition is_decimal (c : ascii) : bool := between 48 57 c.

(** [c.isdigit()]: the decimal digits and the superscripts two, three and
    one (U+00B2, U+00B3, U+00B9), which are digits but not decimal. *)
Definition is_digit (c : ascii) : bool :=
  is_decimal c || between 178 179 c || between 185 185 c.

(** [c.lower()] *)
Definition lower_char (c : ascii) : ascii :=
  if is_upper c then ascii_of_nat (nat_of_ascii c + 32) else c.

(** [c.upper()].  The micro sign, the sharp s and the y with diaeresis,
    whose capitals lie beyond U+00FF, are left as they are. *)
Definition upper_char (c : ascii) : ascii :=
  if between 97 122 c || between 224 246 c || between 248 254 c
  then ascii_of_nat (nat_of_ascii c - 32) else c.

Fixpoint map (f : ascii → ascii) (s : string) : string :=
  match s with
  | EmptyString => EmptyString
  | String c s' => String (f c) (map f s')
  end.

(** [s.lower()] *)
Definition lower (s : string) : string := map lower_char s.

Fixpoint forallb (p : ascii → bool) (s : string) : bool :=
  match s with
  | EmptyString => true
  | String c s' => p c && forallb p s'
  end.

Fixpoint existsb (p : ascii → bool) (s : string) : bool :=
  match s with
  | EmptyString => false
  | String c s' => p c || existsb p s'
  end.

(** [s.isdigit()]: non-empty and only digits. *)
Definition isdigit (s : string) : bool :=
  match s with
  | EmptyString => false
  | _ => forallb is_digit s
  end.

(** [c in s] for a one-character [c]. *)
Definition contains_char (c : ascii) (s : string) : bool :=
  existsb (Ascii.eqb c) s.

(** [s.startswith(p)] *)
Definition startswith (p s : string) : bool := String.prefix p s.

(** [s.lstrip(chars)]: [chars] is the set of characters to strip. *)
Fixpoint lstrip (chars : string) (s : string) : string :=
  match s with
  | String d s' => if contains_char d chars then lstrip chars s' else s
  | EmptyString => EmptyString
  end.

(** [s.rstrip(chars)] *)
Fixpoint rstrip (chars : string) (s : string) : string :=
  match s with
  | EmptyString => EmptyString
  | String d s' =>
      match rstrip chars s' with
      | EmptyString =>
          if contains_char d chars then EmptyString else String d EmptyString
      | r => String d r
      end
  end.

(** [s.strip(chars)] *)
Definition strip (chars : string) (s : string) : string :=
  rstrip chars (lstrip chars s).

(** The characters that [s.strip()] removes: the white space below
    U+0100, which is the tab, the line feed, the vertical tab, the form
    feed, the carriage return, the four separators U+001C to U+001F, the
    space, the next line U+0085 and the no-break space U+00A0. *)
Definition whitespace : string :=
  string_of_list_ascii
    (ascii_of_nat <$> [9; 10; 11; 12; 13; 28; 29; 30; 31; 32; 133; 160]%nat).

(** [s.replace(old, new)] for a non-empty [old]: occurrences are found
    from the left and do not overlap.  [skip] counts the characters of
    the occurrence just replaced that are still to be dropped. *)
Fixpoint replace_from (old new : string) (skip : nat) (s : string) : string :=
  match s with
  | EmptyString => EmptyString
  | String c s' =>
      match skip with
      | S k => replace_from old new k s'
      | O =>
          if String.prefix old s
          then new +:+ replace_from old new (String.length old - 1) s'
          else String c (replace_from old new O s')
      end
  end.

Definition replace (old new s : string) : string := replace_from old new O s.

(** [s.split(c)] for a one-character separator: never the empty list. *)
Fixpoint split (c : ascii) (s : string) : list string :=
  match s with
  | EmptyString => [EmptyString]
  | String d s' =>
      if Ascii.eqb c d then EmptyString :: split c s'
      else match split c s' with
           | w :: ws => String d w :: ws
           | [] => [String d EmptyString]
           end
  end.

(** [sep.join(parts)] *)
Fixpoint join (sep : string) (parts : list string) : string :=
  match parts with
  | [] => EmptyString
  | [p] => p
  | p :: ps => p +:+ sep +:+ join sep ps
  end.

(** [s.rfind(c)] for a one-character [c]: the last index, if any. *)
Fixpoint rfind (c : ascii) (s : string) : option nat :=
  match s with
  | EmptyString => None
  | String d s' =>
      match rfind c s' with
      | Some i => Some (S i)
      | None => if Ascii.eqb c d then Some O else None
      end
  end.

(** [s[i:]] *)
Fixpoint drop (i : nat) (s : string) : string :=
  match i, s with
  | O, _ => s
  | S _, EmptyString => EmptyString
  | S k, String _ s' => drop k s'
  end.

(** Decimal rendering of an integer, as [str(n)] and f-strings do. *)
Definition of_Z (n : Z) : string := NilZero.string_of_int (Z.to_int n).

End Str.

(** ** Paths *)

(** A path is the list of its components; the anchor of an absolute path
    is one more component at the head. *)
Abbreviation path := (list string).

Module Path.

(** [p.name] *)
Definition name (p : path) : string := List.last p EmptyString.

(** [p.parent] *)
Definition parent (p : path) : path := List.removelast p.

(** [p / child] *)
Definition join (p : path) (child : string) : path := p ++ [child].

(** [p.suffix]: the last dot of the name and what follows it, unless
    that dot is the first or the last character of the name. *)
Definition suffix (p : path) : string :=
  let n := name p in
  match Str.rfind "." n with
  | Some i =>
      if (0 <? i)%nat && (i <? String.length n - 1)%nat
      then Str.drop i n else EmptyString
  | None => EmptyString
  end.

(** [p.relative_to(other)]: [None] stands for the [ValueError]. *)
Fixpoint relative_to (p other : path) : option path :=
  match other, p with
  | [], _ => Some p
  | o :: other', c :: p' =>
      if String.eqb o c then relative_to p' other' else None
  | _ :: _, [] => None
  end.

(** [str(p)] with the host separator [sep]. *)
Definition str (sep : ascii) (p : path) : string :=
  Str.join (String sep EmptyString) p.

End Path.

(** ** [ImageValidator] (htmlcmb_v3.py, htmlcmb_v3_virtualscroll.py, htmlcs_v4.py) *)

Module ImageValidator.

(** [SUPPORTED_EXTENSIONS] *)
Definition SUPPORTED_EXTENSIONS : gset string :=
  list_to_set ["png"; "jpg"; "jpeg"; "gif"; "bmp"; "webp"; "avif"; "svg"].

(** [BLOCKED_EXTENSIONS] *)
Definition BLOCKED_EXTENSIONS : gset string :=
  list_to_set ["html"; "json"; "js"; "py"; "ini"; "txt"; "rar"; "zip"; "7z";
               "gitignore"; "url"; "nomedia"; "exe"; "bat"; "cmd"; "sh"].

(** [file_path.suffix.lower().lstrip('.')] *)
Definition extension (file_path : path) : string :=
  Str.lstrip "." (Str.lower (Path.suffix file_path)).

(** [mime_type and mime_type.startswith('image/')] on the first
    component of the pair that [mimetypes.guess_type] returns. *)
Definition is_image_mime (mime_type : option string) : bool :=
  match mime_type with
  | Some m => negb (String.eqb m "") && Str.startswith "image/" m
  | None => false
  end.

(** [is_valid_image].  [guess_type] is [mimetypes.guess_type], a table of
    the Python run time, which is applied to [str(file_path)]; [sep] is
    the separator of the host.  The two copies of the method (in
    htmlcmb_v3.py and in htmlcmb_v3_virtualscroll.py) differ only in
    what they log. *)
Definition is_valid_image (guess_type : string → option string) (sep : ascii)
    (file_path : path) : bool :=
  let extension := extension file_path in
  if bool_decide (extension ∈ BLOCKED_EXTENSIONS) then false
  else if bool_decide (extension ∈ SUPPORTED_EXTENSIONS) then true
  else if is_image_mime (guess_type (Path.str sep file_path)) then true
  else false.

End ImageValidator.

(** ** The file system *)

(** A directory lists its entries in the order in which [os.listdir],
    [os.walk] and [Path.iterdir] report them. *)
Inductive node : Type :=
| File (content : string)
| Dir (entries : list (string * node)).

Module FS.

Definition is_dir_node (n : node) : bool :=
  match n with Dir _ => true | File _ => false end.

Definition is_file_node (n : node) : bool :=
  match n with File _ => true | Dir _ => false end.

(** The entry called [k] of a directory listing. *)
Fixpoint entry (k : string) (es : list (string * node)) : option node :=
  match es with
  | [] => None
  | (k', v) :: es' => if String.eqb k' k then Some v else entry k es'
  end.

(** The node that the path [p] names below [n]. *)
Fixpoint lookup (n : node) (p : path) : option node :=
  match p with
  | [] => Some n
  | k :: p' =>
      match n with
      | Dir es => match entry k es with
                  | Some v => lookup v p'
                  | None => None
                  end
      | File _ => None
      end
  end.

(** [p.exists()] *)
Definition exists_ (fs : node) (p : path) : bool :=
  bool_decide (is_Some (lookup fs p)).

(** [p.is_dir()] *)
Definition is_dir (fs : node) (p : path) : bool :=
  match lookup fs p with Some (Dir _) => true | _ => false end.

(** [p.is_file()] *)
Definition is_file (fs : node) (p : path) : bool :=
  match lookup fs p with Some (File _) => true | _ => false end.

(** The names of the entries of the directory [p], as [p.iterdir()] and
    [os.listdir(p)] report them; [None] when [p] is not a directory. *)
Definition listdir (fs : node) (p : path) : option (list string) :=
  match lookup fs p with
  | Some (Dir es) => Some (es.*1)
  | _ => None
  end.

(** Replace the entry [k] of a listing, or add it at the end. *)
Fixpoint set_entry (k : string) (v : node) (es : list (string * node))
    : list (string * node) :=
  match es with
  | [] => [(k, v)]
  | (k', v') :: es' =>
      if String.eqb k' k then (k, v) :: es' else (k', v') :: set_entry k v es'
  end.

(** [open(p, 'w').write(content)]: the file is created or truncated;
    [None] stands for the [OSError] raised when [p] is a directory or
    its parent is not one. *)
Fixpoint write (n : node) (p : path) (content : string) : option node :=
  match p with
  | [] =>
      match n with
      | File _ => Some (File content)
      | Dir _ => None
      end
  | k :: p' =>
      match n with
      | Dir es =>
          match entry k es, p' with
          | Some v, _ =>
              match write v p' content with
              | Some v' => Some (Dir (set_entry k v' es))
              | None => None
              end
          | None, [] => Some (Dir (set_entry k (File content) es))
          | None, _ :: _ => None
          end
      | File _ => None
      end
  end.

(** Names are unique in every directory of the tree. *)
Fixpoint wf (n : node) : bool :=
  match n with
  | File _ => true
  | Dir es =>
      bool_decide (NoDup (es.*1)) &&
      (fix all (es : list (string * node)) : bool :=
         match es with
         | [] => true
         | (_, v) :: es' => wf v && all es'
         end) es
  end.

(** A name that a directory entry can have on every host: not empty, not
    one of the two dot entries, and without a slash of either kind. *)
Definition proper_name (k : string) : bool :=
  negb (String.eqb k "") && negb (String.eqb k ".") && negb (String.eqb k "..")
  && negb (Str.contains_char "/" k) && negb (Str.contains_char "\" k).

(** A name that a directory entry can have on a host whose separator is
    the slash: there the backslash is a character like any other. *)
Definition posix_name (k : string) : bool :=
  negb (String.eqb k "") && negb (String.eqb k ".") && negb (String.eqb k "..")
  && negb (Str.contains_char "/" k).

(** All the names of the tree satisfy [ok]. *)
Fixpoint names_ok (ok : string → bool) (n : node) : bool :=
  match n with
  | File _ => true
  | Dir es =>
      (fix all (es : list (string * node)) : bool :=
         match es with
         | [] => true
         | (k, v) :: es' => ok k && names_ok ok v && all es'
         end) es
  end.

(** [os.walk(top)], top down and without following links: one triple
    (root, names of the sub-directories, names of the other entries) for
    [top] and then the triples of each sub-directory in turn. *)
Fixpoint walk (root : path) (n : node) : list (path * list string * list string) :=
  match n with
  | File _ => []
  | Dir es =>
      (root,
       (filter (λ e, is_dir_node e.2 = true) es).*1,
       (filter (λ e, is_file_node e.2 = true) es).*1)
      :: (fix below (es : list (string * node)) :=
            match es with
            | [] => []
            | (k, v) :: es' => walk (root ++ [k]) v ++ below es'
            end) es
  end.

End FS.

(** ** Errors *)

(** The exceptions that the scripts raise or catch by name, with the text
    that [str(e)] gives; [OtherError] is any other exception, and
    [IndexError] the one of a list index out of range. *)
Inductive error : Type :=
| FileNotFoundError (message : string)
| NotADirectoryError (message : string)
| RuntimeError (message : string)
| ValueError (message : string)
| TypeError (message : string)
| IndexError
| OtherError (message : string).

(** The result of a call that may raise. *)
Abbreviation result A := (error + A)%type.

(** A call that raises ends the computation that makes it. *)
#[global] Instance result_ret : MRet (sum error) := λ A, inr.

#[global] Instance result_bind : MBind (sum error) :=
  λ A B f x, match x with inl e => inl e | inr a => f a end.

#[global] Instance result_fmap : FMap (sum error) :=
  λ A B f x, match x with inl e => inl e | inr a => inr (f a) end.

(** ** Sorting *)

(** [list.sort()] is stable and only asks whether one element is less than
    another.  Any stable sort gives the same list; this one inserts each
    element in front of the first one that is not less than it. *)
Section Sort.
Context {A : Type} (lt : A → A → bool).

Fixpoint insert_sorted (x : A) (l : list A) : list A :=
  match l with
  | [] => [x]
  | y :: l' => if lt y x then y :: insert_sorted x l' else x :: y :: l'
  end.

Fixpoint sort (l : list A) : list A :=
  match l with
  | [] => []
  | x :: l' => insert_sorted x (sort l')
  end.

(** [list.sort(key=key)] *)
Definition sort_by_key {K : Type} (ltk : K → K → bool) (key : A → K)
    (l : list A) : list A :=
  (fix go (l : list A) : list A :=
     match l with
     | [] => []
     | x :: l' =>
         (fix ins (l : list A) : list A :=
            match l with
            | [] => [x]
            | y :: l'' => if ltk (key y) (key x) then y :: ins l'' else x :: y :: l''
            end) (go l')
     end) l.
End Sort.

Module Order.

(** [s < t] on strings: by character code, a proper prefix first. *)
Definition str_lt (s t : string) : bool := String.ltb s t.

(** [p < q] on paths: [pathlib] compares the lists of components. *)
Fixpoint path_lt (p q : path) : bool :=
  match p, q with
  | [], [] => false
  | [], _ :: _ => true
  | _ :: _, [] => false
  | a :: p', b :: q' =>
      if String.eqb a b then path_lt p' q' else str_lt a b
  end.

End Order.

(** ** [FileSystemScanner] (htmlcmb_v3.py) *)

Module FileSystemScanner.

(** [_batch_validate_images]: the files that pass [is_valid_image].  The
    pool returns them in completion order, which [scan_directory] then
    replaces by the sorted order. *)
Definition _batch_validate_images (guess_type : string → option string)
    (sep : ascii) (file_paths : list path) : list path :=
  List.filter (ImageValidator.is_valid_image guess_type sep) file_paths.

(** [scan_directory] on the directory [tree] found at [base_path]. *)
Definition scan_directory (guess_type : string → option string) (sep : ascii)
    (base_path : path) (tree : node) : list path * list path :=
  let visited := FS.walk base_path tree in
  let folders :=
    List.filter (λ root_path, negb (bool_decide (root_path = base_path)))
                (visited.*1.*1) in
  let image_files :=
    List.flat_map
      (λ '(root_path, _, files),
         _batch_validate_images guess_type sep
           (List.map (Path.join root_path) files))
      visited in
  (sort Order.path_lt folders, sort Order.path_lt image_files).

End FileSystemScanner.

(** ** [MangaAnalyzer] (htmlcmb_v3.py) *)

Record Chapter : Type := mkChapter {
  number : Z;
  name : string;
  folder_path : path;
  page_count : Z;
  start_page : Z;
  end_page : Z
}.

Record MangaMetadata : Type := mkMangaMetadata {
  title : string;
  chapters : list Chapter;
  total_pages : Z;
  base_path : path
}.

Module MangaAnalyzer.

(** [len(l)] *)
Definition len {A : Type} (l : list A) : Z := Z.of_nat (length l).

(** [s.title()]: a cased character that follows a cased character is
    lower-cased, any other cased character is upper-cased. *)
Fixpoint title_from (previous_is_cased : bool) (s : string) : string :=
  match s with
  | EmptyString => EmptyString
  | String c s' =>
      if Str.is_lower c || Str.is_upper c then
        String (if previous_is_cased then Str.lower_char c else Str.upper_char c)
               (title_from true s')
      else String c (title_from false s')
  end.

Definition title_case (s : string) : string := title_from false s.

(** [_format_chapter_name] *)
Definition _format_chapter_name (folder_name : string) (chapter_number : Z) : string :=
  let name := Str.replace "-" " " (Str.replace "_" " " folder_name) in
  if Str.isdigit name then "Chapter " +:+ name
  else match name with
       | String c _ =>
           if Str.is_digit c then "Chapter " +:+ name else title_case name
       | EmptyString => "Chapter " +:+ Str.of_Z chapter_number
       end.

(** The first folder of [folders] that [image] is relative to: the
    inner loop of [_group_images_by_chapter] up to its [break]. *)
Definition first_folder (folders : list path) (image : path) : option path :=
  List.find (λ folder, bool_decide (is_Some (Path.relative_to image folder))) folders.

(** [_group_images_by_chapter] *)
Definition _group_images_by_chapter (folders image_files : list path)
    : gmap path (list path) :=
  let chapter_images : gmap path (list path) :=
    list_to_map ((λ folder, (folder, [])) <$> folders) in
  foldl (λ chapter_images image,
           match first_folder folders image with
           | Some folder => alter (λ l, l ++ [image]) folder chapter_images
           | None => chapter_images
           end)
        chapter_images image_files.

(** The loop over [enumerate(folders)] of [analyze_manga], from index
    [i] on, with the loop state [(chapters, current_page)]. *)
Fixpoint subdirectory_chapters (chapter_images : gmap path (list path))
    (has_root_images : bool) (i : Z) (folders : list path)
    (chapters : list Chapter) (current_page : Z) : list Chapter * Z :=
  match folders with
  | [] => (chapters, current_page)
  | folder :: rest =>
      let images_in_folder := default [] (chapter_images !! folder) in
      match images_in_folder with
      | [] =>
          subdirectory_chapters chapter_images has_root_images (i + 1) rest
            chapters current_page
      | _ :: _ =>
          let folder_name := Path.name folder in
          let chapter_name :=
            _format_chapter_name folder_name
              (i + (if has_root_images then 2 else 1)) in
          let chapter :=
            {| number := i + (if has_root_images then 2 else 1);
               name := chapter_name;
               folder_path := folder;
               page_count := len images_in_folder;
               start_page := current_page;
               end_page := current_page + len images_in_folder - 1 |} in
          subdirectory_chapters chapter_images has_root_images (i + 1) rest
            (chapters ++ [chapter]) (current_page + len images_in_folder)
      end
  end.

(** [analyze_manga] *)
Definition analyze_manga (base_path : path) (folders image_files : list path)
    : MangaMetadata :=
  let title := Path.name base_path in
  let chapter_images := _group_images_by_chapter folders image_files in
  let current_page := 1 in
  let root_images :=
    List.filter (λ img, bool_decide (Path.parent img = base_path)) image_files in
  let has_root_images := match root_images with [] => false | _ => true end in
  let '(chapters, current_page) :=
    if has_root_images then
      ([ {| number := 1;
            name := if bool_decide (len folders = 0)
                    then "Main Chapter" else "Introduction";
            folder_path := base_path;
            page_count := len root_images;
            start_page := current_page;
            end_page := current_page + len root_images - 1 |} ],
       current_page + len root_images)
    else ([], current_page) in
  let '(chapters, _) :=
    subdirectory_chapters chapter_images has_root_images 0 folders
      chapters current_page in
  {| title := title;
     chapters := chapters;
     total_pages := len image_files;
     base_path := base_path |}.

(** Scanning and analysing, as [MangaReaderGenerator.generate] chains
    them. *)
Definition analyze_directory (guess_type : string → option string) (sep : ascii)
    (base_path : path) (tree : node) : MangaMetadata :=
  let '(folders, image_files) :=
    FileSystemScanner.scan_directory guess_type sep base_path tree in
  analyze_manga base_path folders image_files.

End MangaAnalyzer.


(** ** Natural sort (htmlcmb_v3.py, htmlcmb_v3_virtualscroll.py,
       create_progressive_reader.py) *)

(** An element of a sort key: a [str] or an [int]. *)
Inductive token : Type :=
| Text (s : string)
| Num (n : Z).

Module NaturalSort.

(** Put [c] in front of the first piece. *)
Definition extend (c : ascii) (pieces : list string) : list string :=
  match pieces with
  | [] => [String c EmptyString]
  | p :: ps => String c p :: ps
  end.

(** [re.split(r'(\d+)', s)], read from inside a run of digits
    ([in_digits]) or of other characters: the first piece is what is left
    of that run, the pieces alternate, and the last one is a text. *)
Fixpoint split_runs (in_digits : bool) (s : string) : list string :=
  match s with
  | EmptyString => if in_digits then [EmptyString; EmptyString] else [EmptyString]
  | String c s' =>
      if Str.is_decimal c then
        if in_digits then extend c (split_runs true s')
        else EmptyString :: extend c (split_runs true s')
      else
        if in_digits then EmptyString :: extend c (split_runs false s')
        else extend c (split_runs false s')
  end.

(** [re.split(r'(\d+)', s)]: text, digits, text, ..., text. *)
Definition re_split_digits (s : string) : list string := split_runs false s.

Definition digit_value (c : ascii) : Z := Z.of_nat (nat_of_ascii c) - 48.

Fixpoint int_from (acc : Z) (s : string) : Z :=
  match s with
  | EmptyString => acc
  | String c s' => int_from (10 * acc + digit_value c) s'
  end.

(** [int(part)] for a [part] that [part.isdigit()] accepts: the number
    that the decimal digits write, and a [ValueError] when one of the
    digits is not decimal. *)
Definition int (part : string) : result Z :=
  if Str.forallb Str.is_decimal part && negb (String.eqb part "")
  then inr (int_from 0 part)
  else inl (ValueError ("invalid literal for int() with base 10: '" +:+ part +:+ "'")).

(** [natural_sort_key] of htmlcmb_v3.py (and of the virtual-scroll copy),
    on the string of the path relative to the base directory. *)
Definition natural_sort_key (path_str : string) : result (list token) :=
  let parts := re_split_digits (Str.lower path_str) in
  mapM (λ part, if Str.isdigit part then Num <$> int part else mret (Text part)) parts.

(** The key of [get_manga_images] in create_progressive_reader.py:
    [[int(c) if c.isdigit() else c.lower() for c in re.split(r'(\d+)', x)]]. *)
Definition progressive_sort_key (x : string) : result (list token) :=
  mapM (λ c, if Str.isdigit c then Num <$> int c else mret (Text (Str.lower c)))
       (re_split_digits x).

(** [x == y] on key elements: an [int] never equals a [str]. *)
Definition token_eqb (x y : token) : bool :=
  match x, y with
  | Text s, Text t => String.eqb s t
  | Num m, Num n => Z.eqb m n
  | _, _ => false
  end.

(** [x < y] on key elements: comparing an [int] with a [str] raises. *)
Definition token_lt (x y : token) : result bool :=
  match x, y with
  | Text s, Text t => inr (String.ltb s t)
  | Num m, Num n => inr (Z.ltb m n)
  | Text _, Num _ =>
      inl (TypeError "'<' not supported between instances of 'str' and 'int'")
  | Num _, Text _ =>
      inl (TypeError "'<' not supported between instances of 'int' and 'str'")
  end.

(** [a < b] on keys, as lists compare: the first position with unequal
    elements decides, and a proper prefix is less. *)
Fixpoint key_lt (a b : list token) : result bool :=
  match a, b with
  | [], [] => inr false
  | [], _ :: _ => inr true
  | _ :: _, [] => inr false
  | x :: a', y :: b' => if token_eqb x y then key_lt a' b' else token_lt x y
  end.

(** Whether the name [a] sorts before the name [b]:
    [natural_sort_key(a) < natural_sort_key(b)]. *)
Definition sorts_before (a b : string) : result bool :=
  ka ← natural_sort_key a; kb ← natural_sort_key b; key_lt ka kb.

(** [l.sort(key=key)]: the keys of all the elements are computed first,
    in the order of the list; the elements are then put in the order of
    their keys, elements with equal keys staying as they were.  An error
    of a key or of a comparison is the error of the sort. *)
Fixpoint insert_keyed {A : Type} (x : list token * A) (l : list (list token * A))
    : result (list (list token * A)) :=
  match l with
  | [] => inr [x]
  | y :: l' =>
      before ← key_lt y.1 x.1;
      if before : bool then cons y <$> insert_keyed x l' else inr (x :: y :: l')
  end.

Fixpoint sort_keyed {A : Type} (l : list (list token * A))
    : result (list (list token * A)) :=
  match l with
  | [] => inr []
  | x :: l' => sorted ← sort_keyed l'; insert_keyed x sorted
  end.

Definition sort_with {A : Type} (key : A → result (list token)) (l : list A)
    : result (list A) :=
  keyed ← mapM (λ x, k ← key x; mret (k, x)) l;
  sorted ← sort_keyed keyed;
  mret (sorted.*2).

(** [l.sort(key=...)] where the key of [x] is [natural_sort_key] of the
    string [to_str x]. *)
Definition natural_sort_by {A : Type} (to_str : A → string) (l : list A)
    : result (list A) :=
  sort_with (λ x, natural_sort_key (to_str x)) l.


(** The elements of a key alternate, beginning with a text
    ([text_first]) or with a number. *)
Fixpoint alternates (text_first : bool) (k : list token) : Prop :=
  match k with
  | [] => True
  | Text _ :: k' => text_first = true ∧ alternates false k'
  | Num _ :: k' => text_first = false ∧ alternates true k'
  end.

End NaturalSort.

(** ** Markup *)

Module Html.

(** The double quote. *)
Definition dq : ascii := ascii_of_nat 34.

(** A fragment of markup.  The fragments are written with an apostrophe
    wherever the scripts have a double quote. *)
Definition markup (fragment : string) : string :=
  Str.map (λ c, if Ascii.eqb c "'" then dq else c) fragment.

(** The number of positions of [s] at which [sub] begins. *)
Fixpoint occurrences (sub s : string) : nat :=
  match s with
  | EmptyString => O
  | String _ s' =>
      ((if String.prefix sub s then 1 else 0) + occurrences sub s')%nat
  end.

(** The number of image elements in a piece of markup. *)
Definition image_references (s : string) : nat := occurrences "<img" s.

(** No occurrence of [sub] can begin in the last characters of [a] and
    end in what is appended to [a]: a position with fewer than
    [length sub] characters left does not hold the first character of
    [sub]. *)
Fixpoint closed_for (sub a : string) : bool :=
  match a with
  | EmptyString => true
  | String c a' =>
      ((String.length sub <=? String.length a)%nat ||
       match sub with
       | String d _ => negb (Ascii.eqb c d)
       | EmptyString => false
       end)
      && closed_for sub a'
  end.

End Html.

(** ** Emitted paths *)

Module Emitted.

(** [file.relative_to(base_path)].  The callers pass a file that lies
    below [base_path], so that the [ValueError] does not arise. *)
Definition relative_path (base_path image_path : path) : path :=
  default image_path (Path.relative_to image_path base_path).

(** [str(file.relative_to(base_path)).replace('\\', '/')]: the expression
    by which htmlcmb_v3.py, htmlcmb_v3_virtualscroll.py and htmlcs_v4.py
    turn a file into the reference that they emit. *)
Definition src_path (sep : ascii) (base_path image_path : path) : string :=
  Str.replace "\" "/" (Path.str sep (relative_path base_path image_path)).

(** The segments of an emitted reference. *)
Definition segments (reference : string) : list string := Str.split "/" reference.

End Emitted.

(** An element of the reading area. *)
Inductive element : Type :=
| ChapterMarker (chapter_num : Z) (chapter_name : string)
| PageImage (src : string) (page : Z) (chapter_num : Z).

(** The environment of the generators: [resolve] is
    [Path(s).resolve()], which reads the typed string against the working
    directory of the process; [guess_type] is the table of [mimetypes];
    [sep] is the separator of the host; [page_template] is the text that
    [MangaHTMLGenerator._build_html_content] puts around the reading
    area (the title, the styles, the panels and the script, all made from
    the metadata by string formatting). *)
Record environment : Type := mkEnvironment {
  resolve : string → path;
  guess_type : string → option string;
  sep : ascii;
  page_template : MangaMetadata → string → string
}.

(** ** [MangaHTMLGenerator] (htmlcmb_v3.py) *)

Module MangaHTMLGenerator.

(** The walk at the head of [_generate_reader_content]: every valid image
    below the base directory, in walk order. *)
Definition all_images (guess_type : string → option string) (sep : ascii)
    (base_path : path) (tree : node) : list path :=
  List.flat_map
    (λ '(root, _, files),
       List.filter (ImageValidator.is_valid_image guess_type sep)
                   (List.map (Path.join root) files))
    (FS.walk base_path tree).

(** [_determine_image_chapter] *)
Definition _determine_image_chapter (metadata : MangaMetadata) (image_path : path) : Z :=
  let image_parent := Path.parent image_path in
  match List.find (λ chapter, bool_decide (folder_path chapter = image_parent))
                  (chapters metadata) with
  | Some chapter => number chapter
  | None =>
      let best :=
        foldl (λ (best : option (Z * nat)) chapter,
                 match Path.relative_to image_path (folder_path chapter) with
                 | Some relative_path =>
                     let depth := length relative_path in
                     match best with
                     | Some (_, best_match_depth) =>
                         if (depth <? best_match_depth)%nat
                         then Some (number chapter, depth) else best
                     | None => Some (number chapter, depth)
                     end
                 | None => best
                 end)
              None (chapters metadata) in
      match best with
      | Some (best_match, _) => best_match
      | None => 1
      end
  end.

(** The grouping loop: [chapter_images[chapter_num].append(image_path)],
    with a new list for a new chapter number. *)
Definition group_by_chapter (determine : path → Z) (all_images : list path)
    : gmap Z (list path) :=
  foldl (λ chapter_images image_path,
           let chapter_num := determine image_path in
           <[chapter_num := default [] (chapter_images !! chapter_num) ++ [image_path]]>
             chapter_images)
        ∅ all_images.

(** The images of one chapter, numbered from [page_counter] on. *)
Fixpoint chapter_pages (sep : ascii) (base_path : path) (chapter_num : Z)
    (images : list path) (page_counter : Z) : list element * Z :=
  match images with
  | [] => ([], page_counter)
  | image_path :: rest =>
      let '(elements, next) :=
        chapter_pages sep base_path chapter_num rest (page_counter + 1) in
      (PageImage (Emitted.src_path sep base_path image_path) page_counter chapter_num
         :: elements, next)
  end.

(** The output loop over the chapters sorted by number. *)
Fixpoint output_chapters (sep : ascii) (base_path : path)
    (chapter_images : gmap Z (list path)) (sorted_chapters : list Chapter)
    (page_counter : Z) : list element :=
  match sorted_chapters with
  | [] => []
  | chapter :: rest =>
      let chapter_num := number chapter in
      match chapter_images !! chapter_num with
      | None => output_chapters sep base_path chapter_images rest page_counter
      | Some images =>
          let marker :=
            if bool_decide (chapter_num > 1)
            then [ChapterMarker chapter_num (name chapter)] else [] in
          let '(pages, next) :=
            chapter_pages sep base_path chapter_num images page_counter in
          marker ++ pages ++ output_chapters sep base_path chapter_images rest next
      end
  end.

(** The keys of the dictionary [chapter_images] in the order in which the
    grouping loop made them, which is the order in which
    [for chapter_num in chapter_images] visits them. *)
Definition chapter_order (determine : path → Z) (all_images : list path) : list Z :=
  foldl (λ seen image_path,
           let chapter_num := determine image_path in
           if bool_decide (chapter_num ∈ seen) then seen else seen ++ [chapter_num])
        [] all_images.

(** [chapter_images[chapter_num].sort(key=natural_sort_key)], the key
    being taken of [str(path.relative_to(base_path))]. *)
Definition sort_images (sep : ascii) (base_path : path) (images : list path)
    : result (list path) :=
  NaturalSort.natural_sort_by
    (λ p, Path.str sep (Emitted.relative_path base_path p)) images.

(** The loop [for chapter_num in chapter_images] that sorts the list of
    each chapter in place: the first sort that raises ends it. *)
Definition sort_chapters (sep : ascii) (base_path : path) (order : list Z)
    (chapter_images : gmap Z (list path)) : result (gmap Z (list path)) :=
  foldl (λ (state : result (gmap Z (list path))) chapter_num,
           chapter_images ← state;
           match chapter_images !! chapter_num with
           | Some images =>
               images ← sort_images sep base_path images;
               mret (<[chapter_num := images]> chapter_images)
           | None => mret chapter_images
           end)
        (mret chapter_images) order.

(** The elements that [_generate_reader_content] puts between the opening
    and the closing line of the reading area, or the exception of the
    sort. *)
Definition reader_elements (guess_type : string → option string) (sep : ascii)
    (metadata : MangaMetadata) (tree : node) : result (list element) :=
  let base := base_path metadata in
  let all_images := all_images guess_type sep base tree in
  let chapter_images :=
    group_by_chapter (_determine_image_chapter metadata) all_images in
  chapter_images ←
    sort_chapters sep base
      (chapter_order (_determine_image_chapter metadata) all_images) chapter_images;
  mret (output_chapters sep base chapter_images
          (sort_by_key Z.ltb number (chapters metadata)) 1).

(** One line of the reading area. *)
Definition render_element (e : element) : string :=
  match e with
  | ChapterMarker chapter_num chapter_name =>
      Html.markup "        <div class='chapter-marker' id='chp_"
      +:+ Str.of_Z chapter_num +:+ Html.markup "'>" +:+ chapter_name +:+ "</div>"
  | PageImage src page chapter_num =>
      Html.markup "        <img src='" +:+ src
      +:+ Html.markup "' id='page-" +:+ Str.of_Z page
      +:+ Html.markup "' class='page-image' alt='Page " +:+ Str.of_Z page
      +:+ Html.markup "' data-chapter='" +:+ Str.of_Z chapter_num
      +:+ Html.markup "' />"
  end.

(** [_generate_reader_content] *)
Definition _generate_reader_content (guess_type : string → option string)
    (sep : ascii) (metadata : MangaMetadata) (tree : node) : result string :=
  elements ← reader_elements guess_type sep metadata tree;
  mret (Str.join (String (ascii_of_nat 10) EmptyString)
          ([ "    <!-- Reading Area -->";
             Html.markup "    <main class='reader-container' id='readerContainer'>" ]
           ++ (render_element <$> elements)
           ++ [ "    </main>" ])).

(** [_build_html_content]: of the parts of the page only the reading area
    reads the file system, and only it can raise. *)
Definition _build_html_content (env : environment) (metadata : MangaMetadata)
    (tree : node) : result string :=
  reader_content ← _generate_reader_content (guess_type env) (sep env) metadata tree;
  mret (page_template env metadata reader_content).

(** [generate_html(output_path)] in the file system [fs], in which [tree]
    is the directory at [metadata.base_path]: the page is built and then
    written; an exception of either step is logged and raised again. *)
Definition generate_html (env : environment) (fs : node) (metadata : MangaMetadata)
    (tree : node) (output_path : path) : node * result path :=
  match _build_html_content env metadata tree with
  | inr html_content =>
      match FS.write fs output_path html_content with
      | Some fs' => (fs', inr output_path)
      | None => (fs, inl (OtherError "cannot write the output file"))
      end
  | inl e => (fs, inl e)
  end.

End MangaHTMLGenerator.

(** ** [VirtualScrollMangaGenerator] (htmlcmb_v3_virtualscroll.py) *)

Record ImageMetadata : Type := mkImageMetadata {
  im_page : Z;
  im_src : string;
  im_chapter : Z;
  im_name : string
}.

Record VirtualScrollMangaGenerator : Type := mkVirtualScrollMangaGenerator {
  metadata : MangaMetadata;
  use_virtual_scroll : bool
}.

Module VirtualScroll.

(** [__init__]: [None] is the default of the argument
    [use_virtual_scroll]. *)
Definition __init__ (metadata : MangaMetadata) (use_virtual_scroll : option bool)
    : VirtualScrollMangaGenerator :=
  let use_virtual_scroll :=
    match use_virtual_scroll with
    | None => bool_decide (total_pages metadata > 1000)
    | Some b => b
    end in
  {| metadata := metadata; use_virtual_scroll := use_virtual_scroll |}.

(** The name of the file that [generate_html] writes by default. *)
Definition output_name (self : VirtualScrollMangaGenerator) : string :=
  "index" +:+ (if use_virtual_scroll self then "-mb-virtualscroll" else "-mb")
  +:+ ".html".

Definition newline : string := String (ascii_of_nat 10) EmptyString.

(** [_generate_navigation], up to the closing tag of the page counter; the
    rest of the bar holds the progress bar and three buttons. *)
Definition _generate_navigation_head (self : VirtualScrollMangaGenerator) : string :=
  Str.join newline
    [ "    <!-- Top Navigation -->";
      Html.markup "    <nav class='top-nav' id='topNav'>";
      Html.markup "        <div class='page-counter' id='pageInfo'>1 / "
        +:+ Str.of_Z (total_pages (metadata self)) +:+ "</div>" ].

(** [_generate_virtual_scroll_content] *)
Definition _generate_virtual_scroll_content (self : VirtualScrollMangaGenerator)
    : string :=
  let estimated_total_height := total_pages (metadata self) * 800 in
  Str.join newline
    [ "    <!-- Virtual Scroll Reading Area -->";
      Html.markup "    <main class='reader-container' id='readerContainer'>";
      Html.markup "        <div class='virtual-viewport' id='virtualViewport'>";
      "            <!-- Dynamic content rendered here -->";
      "        </div>";
      Html.markup "        <div class='scroll-spacer' id='scrollSpacer' style='height: "
        +:+ Str.of_Z estimated_total_height +:+ Html.markup "px;'></div>";
      "    </main>" ].

(** [needle in haystack] on strings. *)
Fixpoint contains (needle haystack : string) : bool :=
  String.prefix needle haystack ||
  match haystack with
  | EmptyString => false
  | String _ rest => contains needle rest
  end.

(** [_determine_image_chapter]: the first chapter whose folder, as a
    string, occurs in the string of the image path. *)
Definition _determine_image_chapter (sep : ascii) (self : VirtualScrollMangaGenerator)
    (image_path : path) : Z :=
  match List.find
          (λ chapter, contains (Path.str sep (folder_path chapter))
                               (Path.str sep image_path))
          (chapters (metadata self)) with
  | Some chapter => number chapter
  | None => 1
  end.

(** The images of one chapter, numbered from [page_counter] on. *)
Fixpoint chapter_metadata (sep : ascii) (base_path : path) (chapter_num : Z)
    (images : list path) (page_counter : Z) : list ImageMetadata * Z :=
  match images with
  | [] => ([], page_counter)
  | image_path :: rest =>
      let '(items, next) :=
        chapter_metadata sep base_path chapter_num rest (page_counter + 1) in
      ({| im_page := page_counter;
          im_src := Emitted.src_path sep base_path image_path;
          im_chapter := chapter_num;
          im_name := "Page " +:+ Str.of_Z page_counter |} :: items, next)
  end.

Fixpoint collect_chapters (sep : ascii) (base_path : path)
    (chapter_images : gmap Z (list path)) (sorted_chapters : list Chapter)
    (page_counter : Z) : list ImageMetadata :=
  match sorted_chapters with
  | [] => []
  | chapter :: rest =>
      match chapter_images !! number chapter with
      | None => collect_chapters sep base_path chapter_images rest page_counter
      | Some images =>
          let '(items, next) :=
            chapter_metadata sep base_path (number chapter) images page_counter in
          items ++ collect_chapters sep base_path chapter_images rest next
      end
  end.

(** [_collect_image_metadata] *)
Definition _collect_image_metadata (guess_type : string → option string)
    (sep : ascii) (self : VirtualScrollMangaGenerator) (tree : node)
    : result (list ImageMetadata) :=
  let base := base_path (metadata self) in
  let all_images := MangaHTMLGenerator.all_images guess_type sep base tree in
  let chapter_images :=
    MangaHTMLGenerator.group_by_chapter (_determine_image_chapter sep self) all_images in
  chapter_images ←
    MangaHTMLGenerator.sort_chapters sep base
      (MangaHTMLGenerator.chapter_order (_determine_image_chapter sep self) all_images)
      chapter_images;
  mret (collect_chapters sep base chapter_images
          (sort_by_key Z.ltb number (chapters (metadata self))) 1).

(** [_generate_traditional_content] *)
Definition _generate_traditional_content (guess_type : string → option string)
    (sep : ascii) (self : VirtualScrollMangaGenerator) (tree : node)
    : result string :=
  images ← _collect_image_metadata guess_type sep self tree;
  mret (Str.join newline
          ([ "    <!-- Reading Area -->";
             Html.markup "    <main class='reader-container' id='readerContainer'>" ]
           ++ ((λ img_data,
                  Html.markup "        <img src='" +:+ im_src img_data
                  +:+ Html.markup "' id='page-" +:+ Str.of_Z (im_page img_data)
                  +:+ Html.markup "' class='page-image' alt='" +:+ im_name img_data
                  +:+ Html.markup "' data-chapter='" +:+ Str.of_Z (im_chapter img_data)
                  +:+ Html.markup "' loading='lazy' />")
               <$> images)
           ++ [ "    </main>" ])).

(** [_generate_reader_content] *)
Definition _generate_reader_content (guess_type : string → option string)
    (sep : ascii) (self : VirtualScrollMangaGenerator) (tree : node)
    : result string :=
  if use_virtual_scroll self then mret (_generate_virtual_scroll_content self)
  else _generate_traditional_content guess_type sep self tree.

(** The pages that the script of the page renders first: the range of
    [updateVisiblePages] for the scroll position [scroll_top] and a window
    [viewport_height] pixels high, with [pageHeight = 800] and
    [renderBuffer = 3]. *)
Definition visible_range (total_pages scroll_top viewport_height : Z) : Z * Z :=
  let page_height := 800 in
  let render_buffer := 3 in
  let start_page := Z.max 1 (scroll_top / page_height - render_buffer) in
  let end_page :=
    Z.min total_pages
          (- ((- (scroll_top + viewport_height)) / page_height) + render_buffer) in
  (start_page, end_page).

End VirtualScroll.

(** ** [ImageSearchEngine] and [ReaderFileFinder] (htmlcs_v4.py) *)

Module ImageSearchEngine.

(** [SUPPORTED_EXTENSIONS] *)
Definition SUPPORTED_EXTENSIONS : gset string :=
  list_to_set ["png"; "jpg"; "jpeg"; "gif"; "bmp"; "webp"; "avif"].

(** [_is_image] *)
Definition _is_image (file_path : path) : bool :=
  bool_decide (ImageValidator.extension file_path ∈ SUPPORTED_EXTENSIONS).

(** [sorted(files)] on the entries of one directory: by name. *)
Definition sorted_entries {A : Type} (es : list (string * A)) : list (string * A) :=
  sort (λ a b, Order.str_lt a.1 b.1) es.

(** [find_first_image(folder_path, base_path)] on the directory [n] found
    at [folder_path]: the first image among the files of the folder, by
    name; failing that, the first image that the search finds in a
    sub-folder, by name.  The searches of the sub-folders are written
    before the choice between them, which changes nothing in a function
    without effects. *)
Fixpoint find_first_image (sep : ascii) (base_path folder_path : path) (n : node)
    : option string :=
  match n with
  | File _ => None
  | Dir es =>
      let searched :=
        (fix each (es : list (string * node)) : list (string * (node * option string)) :=
           match es with
           | [] => []
           | (k, v) :: es' =>
               (k, (v, find_first_image sep base_path (folder_path ++ [k]) v))
               :: each es'
           end) es in
      let files := sorted_entries searched in
      match List.find
              (λ file, FS.is_file_node file.2.1 &&
                       _is_image (folder_path ++ [file.1])) files with
      | Some file => Some (Emitted.src_path sep base_path (folder_path ++ [file.1]))
      | None =>
          let subfolders :=
            List.filter (λ f, FS.is_dir_node f.2.1) searched in
          match List.find
                  (λ subfolder,
                     match subfolder.2.2 with
                     | Some image => negb (String.eqb image "")
                     | None => false
                     end)
                  (sorted_entries subfolders) with
          | Some subfolder => subfolder.2.2
          | None => None
          end
      end
  end.

End ImageSearchEngine.

Module ReaderFileFinder.

(** [READER_PRIORITIES] *)
Definition READER_PRIORITIES : list string :=
  ["index-mb-virtualscroll.html"; "index-mb.html"; "index.html"; "index-mobile.html"].

(** [find_reader_file(folder, base_path)] in the file system [fs]. *)
Definition find_reader_file (sep : ascii) (fs : node) (folder base_path : path)
    : option string :=
  match List.find (λ priority_file, FS.exists_ fs (folder ++ [priority_file]))
                  READER_PRIORITIES with
  | Some priority_file =>
      Some (Emitted.src_path sep base_path (folder ++ [priority_file]))
  | None =>
      match FS.listdir fs folder with
      | Some names =>
          match List.find
                  (λ file, String.eqb (Str.lower (Path.suffix (folder ++ [file])))
                                      ".html") names with
          | Some file => Some (Emitted.src_path sep base_path (folder ++ [file]))
          | None => None
          end
      | None => None
      end
  end.

End ReaderFileFinder.

(** ** [create_progressive_reader] (create_progressive_reader.py) and
       [create_virtual_scroll_reader] (htmlcmb_v3_virtualscroll.py) *)

(** One entry of the list that [get_manga_images] returns: the values
    of the keys page, src, name and chapter. *)
Record PageRecord : Type := mkPageRecord {
  pr_page : Z;
  pr_src : string;
  pr_name : string;
  pr_chapter : Z
}.

Module ProgressiveReader.

(** [image_extensions] of [get_manga_images] *)
Definition image_extensions : gset string :=
  list_to_set [".png"; ".jpg"; ".jpeg"; ".gif"; ".bmp"; ".webp"; ".avif"].

(** [image_files.sort(key=...)] of [get_manga_images], on file names. *)
Definition sort_names (l : list string) : result (list string) :=
  NaturalSort.sort_with NaturalSort.progressive_sort_key l.

(** The body of the loop over [os.walk(folder_path)] in
    [get_manga_images], for one directory [root] and its [files], on the
    state [(images, total_pages)]; [None] is an exception. *)
Definition scan_root (sep : ascii) (folder_path : path)
    (state : list PageRecord * Z) (root : path) (files : list string)
    : option (list PageRecord * Z) :=
  let image_files :=
    List.filter (λ file, bool_decide (Str.lower (Path.suffix [file]) ∈ image_extensions))
                files in
  match sort_names image_files with
  | inl _ => None
  | inr image_files =>
      foldl (λ (state : option (list PageRecord * Z)) file,
               match state with
               | Some (images, total_pages) =>
                   match Path.relative_to (root ++ [file]) folder_path with
                   | Some relative_path =>
                       Some (images ++
                               [ {| pr_page := total_pages + 1;
                                    pr_src := Str.replace "\" "/"
                                                (Path.str sep relative_path);
                                    pr_name := file;
                                    pr_chapter := MangaAnalyzer.len images / 100 + 1 |} ],
                             total_pages + 1)
                   | None => None
                   end
               | None => None
               end)
            (Some state) image_files
  end.

(** [get_manga_images(folder_path)] on the directory [tree] found at
    [folder_path]: any exception gives the empty result. *)
Definition get_manga_images (sep : ascii) (folder_path : path) (tree : node)
    : list PageRecord * Z :=
  default ([], 0)
    (foldl (λ (state : option (list PageRecord * Z)) '(root, _, files),
              match state with
              | Some state => scan_root sep folder_path state root files
              | None => None
              end)
           (Some ([], 0)) (FS.walk folder_path tree)).

(** [shutil.copy2(src, dst)]: the content of the file [src] is written to
    [dst], or into [dst] under the name of [src] when [dst] is a
    directory; [None] is the error raised when [src] is not a file or
    [dst] cannot be written. *)
Definition copy2 (fs : node) (src dst : path) : option node :=
  match FS.lookup fs src with
  | Some (File content) =>
      if FS.is_dir fs dst then FS.write fs (dst ++ [Path.name src]) content
      else FS.write fs dst content
  | _ => None
  end.

(** [create_progressive_reader(folder_path)]: the file system afterwards,
    the value returned and what was printed. *)
Definition create_progressive_reader (fs : node) (folder : path)
    : node * bool :=
  if negb (FS.exists_ fs folder) then (fs, false)
  else
    let working_reader := folder ++ ["manga-reader-fix.html"] in
    let fallback := folder ++ ["index-mb.html"] in
    let found :=
      if FS.exists_ fs working_reader then Some working_reader
      else if FS.exists_ fs fallback then Some fallback
      else None in
    match found with
    | None => (fs, false)
    | Some working_reader =>
        let output_path := folder ++ ["index-mb-virtualscroll.html"] in
        match copy2 fs working_reader output_path with
        | Some fs' => (fs', true)
        | None => (fs, false)
        end
    end.

(** The exit status of the script run on one argument:
    [sys.exit(0 if success else 1)]. *)
Definition run_script (fs : node) (folder : path) : node * Z :=
  let '(fs', success) := create_progressive_reader fs folder in
  (fs', if success then 0 else 1).

(** [create_virtual_scroll_reader(folder_path)]: the helper script is run
    as a sub-process; its exit status decides between the path returned
    and the [RuntimeError], whose message ends with what the helper wrote
    to its error stream, which is nothing: it only prints. *)
Definition create_virtual_scroll_reader (fs : node) (folder : path)
    : node * result path :=
  let '(fs', returncode) := run_script fs folder in
  if bool_decide (returncode = 0)
  then (fs', inr (folder ++ ["index-mb-virtualscroll.html"]))
  else (fs', inl (RuntimeError "Progressive loading creation failed: ")).

End ProgressiveReader.

(** [BookItem] *)
Module BookItem.
Record t : Type := mk {
  title : string;
  folder_path : path;
  cover_image : option string;
  reader_link : string;
  page_count : Z;
  subfolders : Z
}.
End BookItem.

(** The counters of [PerformanceMetrics]; its other fields are readings
    of the clock. *)
Record PerformanceMetrics : Type := mkPerformanceMetrics {
  total_books : Z;
  books_with_images : Z;
  books_without_images : Z;
  total_images_found : Z
}.

Module BookshelfScanner.

(** [_count_content]: the number of image files below the folder. *)
Fixpoint count_images (folder : path) (n : node) : Z :=
  match n with
  | File _ => if ImageSearchEngine._is_image folder then 1 else 0
  | Dir es =>
      (fix each (es : list (string * node)) : Z :=
         match es with
         | [] => 0
         | (k, v) :: es' => count_images (folder ++ [k]) v + each es'
         end) es
  end.

(** [_ensure_optimal_reader(folder, page_count)]; [script_present] tells
    whether htmlcmb_v3_virtualscroll.py lies next to the running script. *)
Definition _ensure_optimal_reader (sep : ascii) (script_present : bool)
    (fs : node) (base_path folder : path) (page_count : Z)
    : node * option string :=
  let existing_reader := ReaderFileFinder.find_reader_file sep fs folder base_path in
  let needs_virtual_scroll := bool_decide (page_count > 5000) in
  let virtual_file := folder ++ ["index-mb-virtualscroll.html"] in
  let virtual_scroll_exists := FS.exists_ fs virtual_file in
  let fall_back (fs : node) :=
    if needs_virtual_scroll && virtual_scroll_exists
    then (fs, Some (Emitted.src_path sep base_path virtual_file))
    else (fs, existing_reader) in
  if needs_virtual_scroll && negb virtual_scroll_exists then
    if script_present then
      match ProgressiveReader.create_virtual_scroll_reader fs folder with
      | (fs', inr _) => (fs', Some (Emitted.src_path sep base_path virtual_file))
      | (fs', inl _) => fall_back fs'
      end
    else fall_back fs
  else fall_back fs.

(** [_extract_title(folder_name)] *)
Definition _extract_title (folder_name : string) : string :=
  let title := List.last (Str.split "." folder_name) EmptyString in
  let title := Str.strip Str.whitespace (Str.replace "_" " " title) in
  if String.eqb title "" then folder_name else title.

(** [_count_content(folder)] on the node [n] found at [folder]: the image
    files at any depth and the sub-directories of the folder itself. *)
Definition _count_content (folder : path) (n : node) : Z * Z :=
  match n with
  | Dir es =>
      (count_images folder n,
       MangaAnalyzer.len (List.filter (λ e, FS.is_dir_node e.2) es))
  | File _ => (0, 0)
  end.

(** The truth value of an optional string: neither [None] nor empty. *)
Definition truthy (s : option string) : bool :=
  match s with
  | Some s => negb (String.eqb s "")
  | None => false
  end.

(** [_analyze_book_folder(folder)]: the file system afterwards and the
    book, if the folder has a reader. *)
Definition _analyze_book_folder (sep : ascii) (script_present : bool)
    (fs : node) (base_path folder : path) : node * option BookItem.t :=
  let '(page_count, subfolder_count) :=
    match FS.lookup fs folder with
    | Some n => _count_content folder n
    | None => (0, 0)
    end in
  let '(fs, reader_link) :=
    _ensure_optimal_reader sep script_present fs base_path folder page_count in
  match reader_link with
  | Some link =>
      if String.eqb link "" then (fs, None)
      else
        let cover_image :=
          match FS.lookup fs folder with
          | Some n => ImageSearchEngine.find_first_image sep base_path folder n
          | None => None
          end in
        (fs, Some {| BookItem.title := _extract_title (Path.name folder);
                     BookItem.folder_path := folder;
                     BookItem.cover_image := cover_image;
                     BookItem.reader_link := link;
                     BookItem.page_count := page_count;
                     BookItem.subfolders := subfolder_count |})
  | None => (fs, None)
  end.

(** The counters after one more book. *)
Definition count_book (book : BookItem.t) (metrics : PerformanceMetrics)
    : PerformanceMetrics :=
  {| total_books := total_books metrics;
     books_with_images :=
       if truthy (BookItem.cover_image book)
       then books_with_images metrics + 1 else books_with_images metrics;
     books_without_images :=
       if truthy (BookItem.cover_image book)
       then books_without_images metrics else books_without_images metrics + 1;
     total_images_found := total_images_found metrics + BookItem.page_count book |}.

(** [_scan_sequential(subdirs)]: the state is the file system, the books
    found so far and the counters, if they are kept. *)
Definition _scan_sequential (sep : ascii) (script_present : bool) (base_path : path)
    (subdirs : list path) (fs : node) (metrics : option PerformanceMetrics)
    : node * list BookItem.t * option PerformanceMetrics :=
  foldl (λ '(fs, books, metrics) folder,
           match _analyze_book_folder sep script_present fs base_path folder with
           | (fs, Some book) => (fs, books ++ [book], count_book book <$> metrics)
           | (fs, None) => (fs, books, metrics)
           end)
        (fs, [], metrics) subdirs.

(** The sub-directories of the base directory, in the order of
    [os.listdir]. *)
Definition subdirs (fs : node) (base_path : path) (folder_names : list string)
    : list path :=
  List.filter (FS.is_dir fs) (List.map (Path.join base_path) folder_names).

End BookshelfScanner.

(** ** [MangaReaderGenerator] (htmlcmb_v3.py) *)

Module MangaReaderGenerator.

(** [__init__(base_path)]: the generator, which holds the resolved path,
    or the exception raised. *)
Definition __init__ (env : environment) (fs : node) (base_path : string)
    : result path :=
  let base_path := resolve env base_path in
  if negb (FS.exists_ fs base_path) then
    inl (FileNotFoundError ("Directory not found: " +:+ Path.str (sep env) base_path))
  else if negb (FS.is_dir fs base_path) then
    inl (NotADirectoryError
           ("Path is not a directory: " +:+ Path.str (sep env) base_path))
  else inr base_path.

(** [generate(output_filename)]: scan, analyse, generate; an exception is
    logged and raised again. *)
Definition generate (env : environment) (fs : node) (self : path)
    (output_filename : string) : node * result path :=
  match FS.lookup fs self with
  | Some tree =>
      let '(folders, image_files) :=
        FileSystemScanner.scan_directory (guess_type env) (sep env) self tree in
      let metadata := MangaAnalyzer.analyze_manga self folders image_files in
      let output_path := self ++ [output_filename] in
      MangaHTMLGenerator.generate_html env fs metadata tree output_path
  | None => (fs, inl (OtherError "cannot scan the directory"))
  end.

(** The characters that [main] strips from the typed path: the apostrophe
    and the double quote. *)
Definition quotes : string := String "'" (String Html.dq EmptyString).

Definition rule : string := "==================================================".

(** What the handlers of [main] print for an exception. *)
Definition report (e : error) : string :=
  match e with
  | FileNotFoundError message | NotADirectoryError message => "Error: " +:+ message
  | _ => "Unexpected error occurred. Check the log for details."
  end.

(** [main]: one turn of the loop for each line typed, until an empty
    line; the file system and the lines printed so far are the state.  The
    model ends when the typed lines run out. *)
Fixpoint main (env : environment) (inputs : list string) (fs : node)
    (printed : list string) : node * list string :=
  match inputs with
  | [] => (fs, printed)
  | line :: rest =>
      let path_input := Str.strip Str.whitespace line in
      if String.eqb path_input "" then (fs, printed ++ ["Goodbye!"])
      else
        let path_input := Str.strip quotes path_input in
        match __init__ env fs path_input with
        | inl e => main env rest fs (printed ++ [report e; rule])
        | inr generator =>
            match generate env fs generator "index-mb.html" with
            | (fs', inr output_path) =>
                main env rest fs'
                  (printed ++ ["Success! Generated: " +:+ Path.name output_path; rule])
            | (fs', inl e) => main env rest fs' (printed ++ [report e; rule])
            end
        end
  end.

End MangaReaderGenerator.

(** ** [BookshelfGenerator] (htmlcs_v4.py) *)

Record GenerationConfig : Type := mkGenerationConfig {
  config_base_path : path;
  generate_readers : bool;
  output_filename : string;
  max_workers : Z;
  enable_metrics : bool
}.

Module BookshelfGenerator.

(** [__init__(base_path, **kwargs)]: the configuration, or the exception
    raised by the validation. *)
Definition __init__ (env : environment) (fs : node) (base_path : string)
    (generate_readers : bool) (output_filename : string) (enable_metrics : bool)
    : result GenerationConfig :=
  let config :=
    {| config_base_path := resolve env base_path;
       generate_readers := generate_readers;
       output_filename := output_filename;
       max_workers := 4;
       enable_metrics := enable_metrics |} in
  if negb (FS.exists_ fs (config_base_path config)) then
    inl (FileNotFoundError
           ("Directory not found: " +:+ Path.str (sep env) (config_base_path config)))
  else if negb (FS.is_dir fs (config_base_path config)) then
    inl (NotADirectoryError
           ("Path is not a directory: "
            +:+ Path.str (sep env) (config_base_path config)))
  else inr config.

(** The path that [main] takes for an empty line. *)
Definition default_path : string :=
  "./" +:+ string_of_list_ascii (ascii_of_nat <$> [202; 250; 168]%nat).

(** What the handlers of [main] print for an exception. *)
Definition report (e : error) : string :=
  match e with
  | FileNotFoundError message | NotADirectoryError message => "Error: " +:+ message
  | RuntimeError message | ValueError message | TypeError message
  | OtherError message =>
      "Unexpected error occurred: " +:+ message
  | IndexError => "Unexpected error occurred: list index out of range"
  end.

(** One turn of the loop of [main]: the typed path and the answers to the
    two questions, for which the end of the input gives the defaults.
    [generate] is [BookshelfGenerator.generate]: the scan of the books,
    the readers and the shelf page; it returns the path of the page, or
    nothing when there is no book.  The first component of the result
    tells whether the loop goes on. *)
Definition turn (env : environment)
    (generate : GenerationConfig → node → node * result (option path))
    (line : string) (answer1 answer2 : option string) (fs : node)
    (printed : list string) : bool * node * list string :=
  let path_input := Str.strip Str.whitespace line in
  let '(path_input, printed) :=
    if String.eqb path_input ""
    then (default_path, printed ++ ["Using default path: " +:+ default_path])
    else (path_input, printed) in
  let path_input := Str.strip MangaReaderGenerator.quotes path_input in
  let '(generate_readers, printed) :=
    match answer1 with
    | Some answer =>
        (negb (String.eqb (Str.lower (Str.strip Str.whitespace answer)) "n"), printed)
    | None => (true, printed ++ ["Using default: Yes"])
    end in
  let '(output_name, printed) :=
    match answer2 with
    | Some answer =>
        (match Str.strip Str.whitespace answer with
         | EmptyString => "index.html"
         | name => name
         end, printed)
    | None => ("index.html", printed ++ ["Using default: index.html"])
    end in
  match __init__ env fs path_input generate_readers output_name true with
  | inl e => (true, fs, printed ++ [report e])
  | inr config =>
      match generate config fs with
      | (fs', inr (Some output_path)) =>
          (false, fs', printed ++ ["Success! Generated: "
                                   +:+ Path.str (sep env) output_path])
      | (fs', inr None) =>
          (true, fs', printed ++ ["No books found in the specified directory."])
      | (fs', inl e) => (true, fs', printed ++ [report e])
      end
  end.

(** [main]: a turn for every three lines typed, until a shelf is written.
    The model ends when the typed lines run out. *)
Fixpoint main (env : environment)
    (generate : GenerationConfig → node → node * result (option path))
    (inputs : list string) (fs : node) (printed : list string)
    : node * list string :=
  match inputs with
  | [] => (fs, printed)
  | line :: rest =>
      match rest with
      | [] => ((turn env generate line None None fs printed).1.2,
               (turn env generate line None None fs printed).2)
      | answer1 :: rest =>
          match rest with
          | [] => ((turn env generate line (Some answer1) None fs printed).1.2,
                   (turn env generate line (Some answer1) None fs printed).2)
          | answer2 :: rest =>
              let '(continue, fs', printed') :=
                turn env generate line (Some answer1) (Some answer2) fs printed in
              if continue then main env generate rest fs' printed'
              else (fs', printed')
          end
      end
  end.

End BookshelfGenerator.

(** ** The scan of the shelf (htmlcs_v4.py) *)

Module Bookshelf.

(** [BookshelfScanner.scan_books()] *)
Definition scan_books (sep : ascii) (script_present : bool) (config : GenerationConfig)
    (fs : node) : node * list BookItem.t * option PerformanceMetrics :=
  let metrics :=
    if enable_metrics config then Some (mkPerformanceMetrics 0 0 0 0) else None in
  match FS.listdir fs (config_base_path config) with
  | Some folder_names =>
      let subdirs :=
        BookshelfScanner.subdirs fs (config_base_path config) folder_names in
      let metrics :=
        (λ metrics,
           {| total_books := MangaAnalyzer.len subdirs;
              books_with_images := books_with_images metrics;
              books_without_images := books_without_images metrics;
              total_images_found := total_images_found metrics |}) <$> metrics in
      BookshelfScanner._scan_sequential sep script_present (config_base_path config)
        subdirs fs metrics
  | None => (fs, [], metrics)
  end.

End Bookshelf.

(** ** htmlc.py *)

Module Htmlc.

(** [toLeftSlash] *)
Definition toLeftSlash (str : string) : string :=
  let rv := Str.replace "\\" "/" str in
  let rv := Str.replace "\" "/" rv in
  let rv := Str.replace "//" "/" rv in
  rv.

(** The host of the script.  On Windows both slashes separate the names
    of a path, and the system removes the dot names from a path before it
    looks anything up; elsewhere only the slash separates, the backslash
    is a character of a name like any other, and [..] is looked up in the
    directory reached so far, which must exist. *)
Inductive host : Type := Windows | Posix.

(** The names between the separators of a path name. *)
Definition parts (h : host) (path_name : string) : list string :=
  match h with
  | Windows => List.flat_map (Str.split "/") (Str.split "\" path_name)
  | Posix => Str.split "/" path_name
  end.

(** One name further along a path. *)
Definition step (h : host) (fs : node) (reached : option path) (part : string)
    : option path :=
  match reached with
  | Some p =>
      if String.eqb part "" || String.eqb part "." then Some p
      else if String.eqb part ".." then
        match h with
        | Windows => Some (Path.parent p)
        | Posix => if FS.is_dir fs p then Some (Path.parent p) else None
        end
      else Some (p ++ [part])
  | None => None
  end.

(** The place that the host gives a path name, read from the root of
    [fs], which is its own parent; nothing is said yet about whether the
    place exists. *)
Definition locate (h : host) (fs : node) (path_name : string) : option path :=
  foldl (step h fs) (Some []) (parts h path_name).

(** [os.listdir(path_name)]; [None] is its error. *)
Definition listdir (h : host) (fs : node) (path_name : string) : option (list string) :=
  match locate h fs path_name with
  | Some p => FS.listdir fs p
  | None => None
  end.

(** [os.path.isdir(path_name)] *)
Definition isdir (h : host) (fs : node) (path_name : string) : bool :=
  match locate h fs path_name with
  | Some p => FS.is_dir fs p
  | None => false
  end.

(** [getAllFiles(fpath)] on the two global lists; [None] is the error of
    [os.listdir]. *)
Definition getAllFiles (h : host) (fs : node) (fpath : string)
    (foldersArray filesArray : list string) : option (list string * list string) :=
  let foldersArray := List.tl foldersArray in
  match listdir h fs fpath with
  | None => None
  | Some files =>
      Some (foldl (λ '(foldersArray, filesArray) file,
                     let pathName := fpath +:+ "\" +:+ file in
                     if isdir h fs pathName
                     then (foldersArray ++ [pathName], filesArray)
                     else (foldersArray, filesArray ++ [pathName]))
                  (foldersArray, filesArray) files)
  end.

(** [while len(foldersArray): getAllFiles(foldersArray[0])], for at most
    [turns] turns of the loop: the files found, when the loop has ended. *)
Fixpoint all_files (h : host) (turns : nat) (fs : node)
    (foldersArray filesArray : list string) : option (list string) :=
  match foldersArray with
  | [] => Some filesArray
  | fpath :: _ =>
      match turns with
      | O => None
      | S turns =>
          match getAllFiles h fs fpath foldersArray filesArray with
          | Some (foldersArray, filesArray) =>
              all_files h turns fs foldersArray filesArray
          | None => None
          end
      end
  end.

(** [l[1]]: [None] is the [IndexError]. *)
Definition second (l : list string) : option string := l !! 1%nat.

(** The reference written for [img]:
    [toLeftSlash(img).replace(slpath+'/','')]. *)
Definition reference (slpath img : string) : string :=
  Str.replace (slpath +:+ "/") "" (toLeftSlash img).

(** The loop [for img in filesArray] at the end of the script: the lines
    written to the page and the lines printed, or the exception that ends
    the run. *)
Fixpoint emission_loop (slpath : string) (filesArray : list string)
    (written printed : list string) : result (list string * list string) :=
  match filesArray with
  | [] => inr (written, printed)
  | img :: rest =>
      let extchk := Str.split "." img in
      match second extchk with
      | None => inl IndexError
      | Some ext =>
          if negb (String.eqb ext "html") && negb (String.eqb ext "json") then
            let written :=
              written ++ [Html.markup "<img src='" +:+ reference slpath img
                          +:+ Html.markup "' class='image-item'/>"] in
            if negb (String.eqb ext "png") && negb (String.eqb ext "jpg")
            then emission_loop slpath rest written
                   (printed ++ ["not sure file type : " +:+ img])
            else emission_loop slpath rest written printed
          else emission_loop slpath rest written printed
      end
  end.

(** One turn of the script for the folder typed as [path]: scan, then
    emit. *)
Definition run (h : host) (turns : nat) (fs : node) (path : string)
    : option (result (list string * list string)) :=
  match all_files h turns fs [path] [] with
  | Some filesArray => Some (emission_loop (toLeftSlash path) filesArray [] [])
  | None => None
  end.

End Htmlc.

(** ** Vocabulary of the sort properties *)


(** The name [s] has a sort key: [natural_sort_key] does not raise. *)
Definition has_key (s : string) : bool :=
  match NaturalSort.natural_sort_key s with
  | inr _ => true
  | inl _ => false
  end.

(** The image [p] below [base_path] has a sort key. *)
Definition sortable (sep : ascii) (base_path p : path) : bool :=
  has_key (Path.str sep (Emitted.relative_path base_path p)).

(** The file name [file] has a sort key in create_progressive_reader.py. *)
Definition has_progressive_key (file : string) : bool :=
  match NaturalSort.progressive_sort_key file with
  | inr _ => true
  | inl _ => false
  end.

(** ** Vocabulary of the chapter properties *)

(** [tiles s chs e]: the chapters of [chs], in order, cover the pages
    [s], ..., [e - 1] one after the other, and none is empty. *)
Inductive tiles : Z → list Chapter → Z → Prop :=
| tiles_nil (s : Z) : tiles s [] s
| tiles_cons (s e : Z) (ch : Chapter) (chs : list Chapter) :
    start_page ch = s →
    0 < page_count ch →
    end_page ch = s + page_count ch - 1 →
    tiles (s + page_count ch) chs e →
    tiles s (ch :: chs) e.

(** The four page-range properties of a chapter list with [total] pages. *)
Definition contiguous_pages (chs : list Chapter) (total : Z) : Prop :=
  Forall (λ ch, end_page ch - start_page ch + 1 = page_count ch) chs ∧
  (∀ ch, head chs = Some ch → start_page ch = 1) ∧
  (∀ (i : nat) a b, chs !! i = Some a → chs !! S i = Some b →
     end_page a + 1 = start_page b) ∧
  (∀ ch, last chs = Some ch → end_page ch = total).

(** Sum of a measure over a list. *)
Definition sum_over {A : Type} (f : A → Z) (l : list A) : Z :=
  foldr (λ x acc, f x + acc) 0 l.

(** What [analyze_manga] relies on in the lists that [scan_directory]
    hands over: no folder twice, and every image either directly in the
    base directory and below no listed folder, or below a listed folder. *)
Definition scan_shape (base_path : path) (folders image_files : list path) : Prop :=
  NoDup folders ∧
  Forall (λ img,
            (Path.parent img = base_path ∧
             ∀ f, f ∈ folders → Path.relative_to img f = None) ∨
            (Path.parent img ≠ base_path ∧
             ∃ f, f ∈ folders ∧ is_Some (Path.relative_to img f)))
         image_files.

(** The base directory holds an image of its own: the condition under
    which [analyze_manga] makes the root chapter. *)
Definition has_root_images (base_path : path) (image_files : list path) : bool :=
  List.existsb (λ img, bool_decide (Path.parent img = base_path)) image_files.

(** [folder] is, for some image, the first listed folder the image lies
    below: the condition under which it is given a chapter. *)
Definition receives_images (folders image_files : list path) (folder : path) : bool :=
  List.existsb
    (λ img, bool_decide (MangaAnalyzer.first_folder folders img = Some folder))
    image_files.

(** [i + (2 if root_images else 1)] for the folder at position [i]. *)
Definition folder_number (has_root : bool) (i : nat) : Z :=
  Z.of_nat i + (if has_root then 2 else 1).

(** The tree of the end-to-end scenario: two chapter folders and one image
    in the base directory. *)
Definition scenario_tree : node :=
  Dir [("ch1", Dir [("a.png", File ""); ("b.png", File "")]);
       ("ch2", Dir [("1.png", File ""); ("2.png", File "")]);
       ("root.jpg", File "")].

(** A tree whose first sub-directory holds no image. *)
Definition extras_tree : node :=
  Dir [("extras", Dir [("notes.txt", File "")]);
       ("vol1", Dir [("1.png", File "")])].

(** A [guess_type] that knows no type. *)
Definition no_guess : string → option string := λ _, None.

(** A base directory on a host whose separator is the slash, holding one
    file whose name has a backslash in it. *)
Definition backslash_tree : node := Dir [("..\cover.png", File "")].

(** A shelf of three books. *)
Definition shelf_tree : node :=
  Dir [("lib",
        Dir [("b1", Dir [("x.txt", File "");
                         ("v2", Dir [("2.png", File "")]);
                         ("v1", Dir [("10.jpg", File "")]);
                         ("index.html", File "R");
                         ("index-mb.html", File "MB")]);
             ("b2", Dir [("Read.HTML", File "")]);
             ("b3", Dir [("cover.PNG", File ""); ("a", Dir [])])])].

(** An environment for the examples: typed paths are read from the root
    of the file system, no type is guessed, the separator is the slash,
    and the page is one line followed by the reading area. *)
Definition example_env : environment :=
  {| resolve := λ typed, List.filter (λ part, negb (String.eqb part ""))
                                     (Str.split "/" typed);
     guess_type := no_guess;
     sep := "/";
     page_template := λ _ reader_content, "<!DOCTYPE html>" +:+ reader_content |}.

(** A directory with two images, one of which has a name that begins
    with the superscript two, a digit that is not decimal. *)
Definition superscript_tree : node :=
  Dir [(String (ascii_of_nat 178) "1.jpg", File ""); ("a.png", File "")].

(** A tree with a chapter folder inside a volume folder. *)
Definition nested_tree : node :=
  Dir [("vol1", Dir [("ch1", Dir [("1.png", File "")])]);
       ("vol2", Dir [("1.png", File "")])].

(** ** Vocabulary of the further properties *)

(** The page numbers of the image elements of a reading area, in order. *)
Definition page_numbers (elements : list element) : list Z :=
  omap (λ e, match e with
             | PageImage _ page _ => Some page
             | ChapterMarker _ _ => None
             end) elements.

(** The numbers [first], [first + 1], ..., [first + count - 1]. *)
Definition counting (first : Z) (count : nat) : list Z :=
  (λ i, first + Z.of_nat i) <$> seq 0 count.

(** The books of a list that have a cover. *)
Definition with_cover (books : list BookItem.t) : list BookItem.t :=
  List.filter (λ book, BookshelfScanner.truthy (BookItem.cover_image book)) books.

(** The records of a list are numbered by their position, with a new
    chapter every hundred pages. *)
Definition numbered (images : list PageRecord) : Prop :=
  ∀ (i : nat) r, images !! i = Some r →
    pr_page r = Z.of_nat i + 1 ∧ pr_chapter r = Z.of_nat i / 100 + 1.

(** The file names that [get_manga_images] takes for images in the
    directories of a walk. *)
Definition image_names (visited : list (path * list string * list string))
    : list string :=
  List.flat_map
    (λ t, List.filter
            (λ file, bool_decide (Str.lower (Path.suffix [file])
                                  ∈ ProgressiveReader.image_extensions)) t.2)
    visited.

(** The references of the image elements of a reading area, in order. *)
Definition sources (elements : list element) : list string :=
  omap (λ e, match e with
             | PageImage src _ _ => Some src
             | ChapterMarker _ _ => None
             end) elements.

(** The number of directories of a tree, the tree itself included. *)
Fixpoint dirs (n : node) : nat :=
  match n with
  | File _ => O
  | Dir es =>
      S ((fix each (es : list (string * node)) : nat :=
            match es with
            | [] => O
            | (_, v) :: es' => (dirs v + each es')%nat
            end) es)
  end.

(** The files at any depth below the directory [n] found at [p], in the
    order of the walk. *)
Definition files_below (p : path) (n : node) : list path :=
  List.flat_map (λ '(root, _, files), List.map (Path.join root) files) (FS.walk p n).

(** The place and the node that a path name has on a host of the
    backslash. *)
Definition place_at (fs : node) (typed : string) : path :=
  default [] (Htmlc.locate Htmlc.Windows fs typed).

Definition node_at (fs : node) (typed : string) : node :=
  default (File "") (FS.lookup fs (place_at fs typed)).


(** * Properties *)

(** ** Sorting *)

Section SortFacts.
Context {A : Type} (lt : A → A → bool).

Lemma insert_sorted_perm (x : A) (l : list A) :
  insert_sorted lt x l ≡ₚ x :: l.
Proof.
  induction l as [|y l IH]; simpl; [done|].
  destruct (lt y x); [|done].
  rewrite IH. apply Permutation_swap.
Qed.

Lemma sort_perm (l : list A) : sort lt l ≡ₚ l.
Proof.
  induction l as [|x l IH]; simpl; [done|].
  by rewrite insert_sorted_perm, IH.
Qed.

Lemma sort_by_key_unfold {K : Type} (ltk : K → K → bool) (key : A → K) (l : list A) :
  sort_by_key ltk key l = sort (λ y x, ltk (key y) (key x)) l.
Proof.
  unfold sort_by_key. induction l as [|x l IH]; simpl; [done|].
  rewrite IH. generalize (sort (λ y x0, ltk (key y) (key x0)) l).
  intros s. induction s as [|y s IHs]; simpl; [done|]. by rewrite IHs.
Qed.

End SortFacts.

(** ** Paths *)

Lemma relative_to_app (base p q : path) :
  Path.relative_to (base ++ p) (base ++ q) = Path.relative_to p q.
Proof.
  induction base as [|b base IH]; simpl; [done|].
  by rewrite String.eqb_refl.
Qed.

Lemma relative_to_self_child (p : path) (child : string) :
  Path.relative_to (p ++ [child]) p = Some [child].
Proof.
  rewrite <- (app_nil_r p) at 2. by rewrite relative_to_app.
Qed.

Lemma parent_join (p : path) (child : string) :
  Path.parent (Path.join p child) = p.
Proof. unfold Path.parent, Path.join. apply removelast_last. Qed.

(** ** Grouping the images by folder *)

Section Group.
Import MangaAnalyzer.

Lemma group_loop_lookup (folders : list path) (f : path) (images : list path)
    (m : gmap path (list path)) :
  foldl (λ chapter_images image,
           match first_folder folders image with
           | Some folder => alter (λ l, l ++ [image]) folder chapter_images
           | None => chapter_images
           end) m images !! f
  = (λ l, l ++ List.filter (λ img, bool_decide (first_folder folders img = Some f)) images)
      <$> m !! f.
Proof.
  revert m. induction images as [|img images IH]; intros m; simpl.
  - destruct (m !! f); simpl; [by rewrite app_nil_r|done].
  - rewrite IH. destruct (first_folder folders img) as [g|] eqn:Hg.
    + destruct (decide (g = f)) as [->|Hne].
      * rewrite lookup_alter_eq. rewrite bool_decide_eq_true_2 by done.
        destruct (m !! f); simpl; [|done]. by rewrite <- app_assoc.
      * rewrite lookup_alter_ne by done.
        rewrite bool_decide_eq_false_2 by congruence. done.
    + rewrite bool_decide_eq_false_2 by congruence. done.
Qed.

Lemma group_init_lookup (folders : list path) (f : path) :
  (list_to_map ((λ folder, (folder, [])) <$> folders) : gmap path (list path)) !! f
  = if bool_decide (f ∈ folders) then Some [] else None.
Proof.
  destruct (_ !! f) as [l|] eqn:E.
  - apply elem_of_list_to_map_2 in E.
    apply list_elem_of_fmap in E as (g & [= -> ->] & Hg).
    by rewrite bool_decide_eq_true_2.
  - apply not_elem_of_list_to_map_2 in E.
    rewrite bool_decide_eq_false_2; [done|]. intros Hf. apply E.
    rewrite <- list_fmap_compose. apply list_elem_of_fmap. by exists f.
Qed.

Lemma group_lookup (folders images : list path) (f : path) :
  f ∈ folders →
  default [] (_group_images_by_chapter folders images !! f)
  = List.filter (λ img, bool_decide (first_folder folders img = Some f)) images.
Proof.
  intros Hf. unfold _group_images_by_chapter.
  rewrite group_loop_lookup, group_init_lookup.
  by rewrite bool_decide_eq_true_2.
Qed.

End Group.

(** ** Page ranges *)

Lemma tiles_app (s m e : Z) (a b : list Chapter) :
  tiles s a m → tiles m b e → tiles s (a ++ b) e.
Proof.
  intros Ha. revert b e. induction Ha; intros b e' Hb; simpl; [done|].
  constructor; auto.
Qed.

Lemma tiles_le (s e : Z) (chs : list Chapter) : tiles s chs e → s ≤ e.
Proof. induction 1; lia. Qed.

Lemma tiles_last (s e : Z) (chs : list Chapter) (ch : Chapter) :
  tiles s chs e → last chs = Some ch → end_page ch = e - 1.
Proof.
  induction 1 as [|s e c chs Hs Hc He Ht IH]; simpl; [done|].
  destruct chs as [|c' chs'].
  - intros [= <-]. inversion Ht; subst. lia.
  - intros Hl. apply IH. exact Hl.
Qed.

Lemma tiles_Forall (s e : Z) (chs : list Chapter) :
  tiles s chs e →
  Forall (λ ch, end_page ch - start_page ch + 1 = page_count ch) chs.
Proof. induction 1; constructor; [lia|done]. Qed.

Lemma tiles_consecutive (s e : Z) (chs : list Chapter) (i : nat) (a b : Chapter) :
  tiles s chs e → chs !! i = Some a → chs !! S i = Some b →
  end_page a + 1 = start_page b.
Proof.
  intros Ht. revert i. induction Ht as [|s e c chs Hs Hc He Ht IH]; intros i Ha Hb.
  - done.
  - destruct i as [|i]; simpl in *.
    + injection Ha as <-. inversion Ht; subst; simpl in Hb; [done|].
      injection Hb as <-. lia.
    + eapply IH; eauto.
Qed.

Lemma tiles_contiguous (chs : list Chapter) (e : Z) :
  tiles 1 chs e → contiguous_pages chs (e - 1).
Proof.
  intros Ht. repeat split.
  - eapply tiles_Forall; eauto.
  - intros ch Hh. inversion Ht; subst; simpl in Hh; [done|]. by injection Hh as <-.
  - intros i a b. eapply tiles_consecutive; eauto.
  - intros ch Hl. eapply tiles_last; eauto.
Qed.

Section Analyzer.
Import MangaAnalyzer.

Lemma subdirectory_chapters_tiles (m : gmap path (list path)) (r : bool)
    (folders : list path) (i s : Z) (chs : list Chapter) (cur : Z) :
  tiles s chs cur →
  tiles s (subdirectory_chapters m r i folders chs cur).1
          (subdirectory_chapters m r i folders chs cur).2 ∧
  (subdirectory_chapters m r i folders chs cur).2
  = cur + sum_over (λ f, len (default [] (m !! f))) folders.
Proof.
  revert i chs cur. induction folders as [|f folders IH]; intros i chs cur Ht; simpl.
  - split; [done|lia].
  - destruct (default [] (m !! f)) as [|img imgs] eqn:E.
    + destruct (IH (i + 1) chs cur Ht) as [H1 H2]. split; [done|].
      rewrite H2. unfold len. simpl. lia.
    + set (n := len (img :: imgs)).
      assert (0 < n) by (unfold n, len; simpl; lia).
      edestruct (IH (i + 1)) as [H1 H2]; [|split; [exact H1|rewrite H2; lia]].
      eapply tiles_app; [exact Ht|].
      constructor; simpl; try done. constructor.
Qed.

Lemma sum_over_ext {A : Type} (f g : A → Z) (l : list A) :
  (∀ x, x ∈ l → f x = g x) → sum_over f l = sum_over g l.
Proof.
  induction l as [|x l IH]; intros H; simpl; [done|].
  rewrite (H x) by left. rewrite IH; [done|]. intros y Hy. apply H. by right.
Qed.

Lemma sum_over_plus {A : Type} (f g : A → Z) (l : list A) :
  sum_over (λ x, f x + g x) l = sum_over f l + sum_over g l.
Proof. induction l as [|x l IH]; simpl; lia. Qed.

Lemma sum_over_zero {A : Type} (f : A → Z) (l : list A) :
  (∀ x, x ∈ l → f x = 0) → sum_over f l = 0.
Proof.
  induction l as [|x l IH]; intros H; simpl; [done|].
  rewrite (H x) by left. rewrite IH; [done|]. intros y Hy. apply H. by right.
Qed.

Lemma sum_over_indicator (o : option path) (l : list path) :
  NoDup l →
  sum_over (λ f, if bool_decide (o = Some f) then 1 else 0) l
  = match o with
    | Some f => if bool_decide (f ∈ l) then 1 else 0
    | None => 0
    end.
Proof.
  destruct o as [g|]; [|intros _; apply sum_over_zero; done].
  induction 1 as [|x l Hx Hnd IH]; simpl; [done|].
  rewrite IH. destruct (decide (g = x)) as [->|Hne].
  - rewrite bool_decide_eq_true_2 by done.
    rewrite bool_decide_eq_false_2 by done.
    rewrite bool_decide_eq_true_2; [done|left].
  - rewrite bool_decide_eq_false_2 by congruence.
    rewrite (bool_decide_ext (g ∈ x :: l) (g ∈ l)); [done|].
    rewrite elem_of_cons. intuition congruence.
Qed.

Lemma first_folder_Some (folders : list path) (img f : path) :
  first_folder folders img = Some f →
  f ∈ folders ∧ is_Some (Path.relative_to img f).
Proof.
  unfold first_folder. intros H. apply find_some in H as [Hin Hb].
  apply list_elem_of_In in Hin. by apply bool_decide_eq_true in Hb.
Qed.

Lemma first_folder_None (folders : list path) (img : path) :
  first_folder folders img = None ↔
  ∀ f, f ∈ folders → Path.relative_to img f = None.
Proof.
  unfold first_folder. split.
  - intros H f Hin. apply list_elem_of_In in Hin.
    pose proof (find_none _ _ H f Hin) as Hb. simpl in Hb.
    apply bool_decide_eq_false in Hb.
    destruct (Path.relative_to img f); [|done]. destruct Hb. by eexists.
  - intros H. destruct (find _ _) as [f|] eqn:E; [|done].
    apply find_some in E as [Hin Hb]. apply list_elem_of_In in Hin.
    apply bool_decide_eq_true in Hb. rewrite (H f Hin) in Hb. by destruct Hb.
Qed.

Lemma len_filter_cons {A : Type} (p : A → bool) (x : A) (l : list A) :
  len (List.filter p (x :: l)) = (if p x then 1 else 0) + len (List.filter p l).
Proof. unfold len. simpl. destruct (p x); simpl; lia. Qed.

(** The images that the folders receive are those below some folder. *)
Lemma grouped_total (folders images : list path) :
  NoDup folders →
  sum_over (λ f, len (default [] (_group_images_by_chapter folders images !! f))) folders
  = len (List.filter (λ img, bool_decide (is_Some (first_folder folders img))) images).
Proof.
  intros Hnd.
  rewrite (sum_over_ext _
    (λ f, len (List.filter (λ img, bool_decide (first_folder folders img = Some f)) images)))
    by (intros f Hf; by rewrite group_lookup).
  induction images as [|img images IH].
  - simpl. apply sum_over_zero. done.
  - rewrite len_filter_cons, <- IH.
    rewrite (sum_over_ext _ (λ f,
      (if bool_decide (first_folder folders img = Some f) then 1 else 0) +
      len (List.filter (λ img, bool_decide (first_folder folders img = Some f)) images)))
      by (intros f _;
          apply (len_filter_cons (λ i, bool_decide (first_folder folders i = Some f)))).
    rewrite sum_over_plus. f_equal.
    rewrite sum_over_indicator by done.
    destruct (first_folder folders img) as [f|] eqn:E.
    + apply first_folder_Some in E as [Hin _].
      rewrite !bool_decide_eq_true_2; [done|by eexists|done].
    + rewrite bool_decide_eq_false_2; [done|]. by intros [? ?].
Qed.

Lemma shape_total (base : path) (folders images : list path) :
  scan_shape base folders images →
  len images
  = len (List.filter (λ img, bool_decide (Path.parent img = base)) images)
    + len (List.filter (λ img, bool_decide (is_Some (first_folder folders img))) images).
Proof.
  intros [_ H]. induction H as [|img images Himg _ IH]; [done|].
  rewrite (len_filter_cons (λ i, bool_decide (Path.parent i = base))).
  rewrite (len_filter_cons (λ i, bool_decide (is_Some (first_folder folders i)))).
  assert (len (img :: images) = 1 + len images) as -> by (unfold len; simpl; lia).
  rewrite IH.
  destruct Himg as [[Hp Hf]|[Hp (f & Hin & Hf)]].
  - rewrite bool_decide_eq_true_2 by done.
    apply first_folder_None in Hf. rewrite Hf.
    rewrite bool_decide_eq_false_2 by (by intros [? ?]). lia.
  - rewrite bool_decide_eq_false_2 by done.
    rewrite bool_decide_eq_true_2; [lia|].
    destruct (first_folder folders img) eqn:E; [by eexists|].
    rewrite first_folder_None in E. rewrite (E f Hin) in Hf. by destruct Hf.
Qed.

(** [analyze_manga] tiles the pages 1, ..., [len image_files]. *)
Lemma analyze_manga_tiles (base : path) (folders images : list path) :
  scan_shape base folders images →
  tiles 1 (chapters (analyze_manga base folders images)) (1 + len images).
Proof.
  intros Hs. pose proof (shape_total _ _ _ Hs) as Htot.
  pose proof (grouped_total folders images (proj1 Hs)) as Hgrp.
  unfold analyze_manga.
  set (m := _group_images_by_chapter folders images) in *.
  set (root := List.filter _ images) in *.
  destruct root as [|r0 root'] eqn:Er.
  - destruct (subdirectory_chapters_tiles m false folders 0 1 [] 1) as [H1 H2];
      [constructor|].
    destruct (subdirectory_chapters m false 0 folders [] 1) as [chs cur].
    simpl in *. rewrite H2, Hgrp in H1. rewrite Htot.
    replace (len []) with 0 by done. exact H1.
  - set (n := len (r0 :: root')) in *.
    assert (0 < n) by (unfold n, len; simpl; lia).
    match goal with |- context [subdirectory_chapters m true 0 folders ?c ?p] =>
      destruct (subdirectory_chapters_tiles m true folders 0 1 c p) as [H1 H2];
        [constructor; simpl; try done; constructor|];
      destruct (subdirectory_chapters m true 0 folders c p) as [chs cur] end.
    simpl in *. rewrite H2, Hgrp in H1. rewrite Htot.
    replace (1 + (n + _)) with (1 + n + len
      (List.filter (λ img, bool_decide (is_Some (first_folder folders img))) images)) by lia.
    exact H1.
Qed.

End Analyzer.

(** ** Walking a directory tree *)

Lemma node_induction (P : node → Prop) :
  (∀ c, P (File c)) →
  (∀ es, Forall (λ e, P e.2) es → P (Dir es)) →
  ∀ n, P n.
Proof.
  intros HF HD. fix IH 1. intros [c|es]; [apply HF|apply HD].
  induction es as [|[k v] es IHes]; constructor; [apply IH|apply IHes].
Qed.

Lemma walk_Dir (root : path) (es : list (string * node)) :
  FS.walk root (Dir es)
  = (root,
     (filter (λ e, FS.is_dir_node e.2 = true) es).*1,
     (filter (λ e, FS.is_file_node e.2 = true) es).*1)
    :: List.flat_map (λ e, FS.walk (root ++ [e.1]) e.2) es.
Proof.
  simpl. f_equal. induction es as [|[k v] es IH]; simpl; [done|]. by rewrite IH.
Qed.

Lemma wf_Dir (es : list (string * node)) :
  FS.wf (Dir es) = bool_decide (NoDup (es.*1)) && List.forallb (λ e, FS.wf e.2) es.
Proof.
  simpl. f_equal. induction es as [|[k v] es IH]; simpl; [done|]. by rewrite IH.
Qed.

(** Every directory that the walk visits lies at or below its start. *)
Lemma walk_below (n : node) (root r : path) :
  r ∈ (FS.walk root n).*1.*1 → ∃ rel, r = root ++ rel.
Proof.
  revert root r. induction n as [c|es IH] using node_induction; intros root r.
  - simpl. intros H. by apply elem_of_nil in H.
  - rewrite walk_Dir. rewrite !fmap_cons. simpl. intros H.
    apply elem_of_cons in H as [->|H]; [exists []; by rewrite app_nil_r|].
    induction IH as [|[k v] es Hv _ IHes]; simpl in H; [by apply elem_of_nil in H|].
    rewrite !fmap_app in H. apply elem_of_app in H as [H|H]; [|by apply IHes].
    apply Hv in H as [rel ->]. exists (k :: rel). by rewrite <- app_assoc.
Qed.

(** Below the start, the walk visits only what lies in a sub-directory. *)
Lemma walk_children (es : list (string * node)) (root r : path) :
  r ∈ (List.flat_map (λ e, FS.walk (root ++ [e.1]) e.2) es).*1.*1 →
  ∃ k es' rel, (k, Dir es') ∈ es ∧ r = root ++ k :: rel.
Proof.
  induction es as [|[k v] es IH]; simpl; intros H; [by apply elem_of_nil in H|].
  rewrite !fmap_app in H. apply elem_of_app in H as [H|H].
  - destruct v as [c|es']; [by apply elem_of_nil in H|].
    apply walk_below in H as [rel ->]. exists k, es', rel.
    split; [left|by rewrite <- app_assoc].
  - destruct (IH H) as (k' & es' & rel & Hin & ->). exists k', es', rel.
    split; [by right|done].
Qed.

Lemma app_cons_ne_self (root : path) (k : string) (rel : path) :
  root ++ k :: rel ≠ root.
Proof.
  intros H. apply (f_equal length) in H. rewrite length_app in H. simpl in H. lia.
Qed.

(** No directory is visited twice. *)
Lemma walk_NoDup (n : node) (root : path) :
  FS.wf n = true → NoDup ((FS.walk root n).*1.*1).
Proof.
  revert root. induction n as [c|es IH] using node_induction; intros root Hwf.
  - simpl. constructor.
  - rewrite wf_Dir in Hwf. apply andb_true_iff in Hwf as [Hnd Hall].
    apply bool_decide_eq_true in Hnd.
    rewrite walk_Dir, !fmap_cons. simpl. constructor.
    + intros H. apply walk_children in H as (k & es' & rel & _ & H).
      symmetry in H. by apply app_cons_ne_self in H.
    + clear -IH Hnd Hall. induction IH as [|[k v] es Hv _ IHes]; simpl; [constructor|].
      simpl in Hall. apply andb_true_iff in Hall as [Hk Hall].
      rewrite fmap_cons in Hnd. simpl in Hnd. apply NoDup_cons in Hnd as [Hk' Hnd].
      rewrite !fmap_app. apply NoDup_app. split; [by apply Hv|].
      split; [|by apply IHes].
      intros r Hr Hr'. apply walk_below in Hr as [rel ->].
      apply walk_children in Hr' as (k' & es' & rel' & Hin & Heq).
      rewrite <- app_assoc in Heq. apply app_inv_head in Heq. simpl in Heq.
      injection Heq as -> _. apply Hk'.
      apply list_elem_of_fmap. by exists (k', Dir es').
Qed.

(** ** What the scanner hands to the analyzer *)

Lemma scan_shape_perm (base : path) (folders folders' images images' : list path) :
  folders ≡ₚ folders' → images ≡ₚ images' →
  scan_shape base folders images → scan_shape base folders' images'.
Proof.
  intros Hf Hi [Hnd Hall]. split; [by rewrite <- Hf|].
  rewrite <- Hi. eapply Forall_impl; [exact Hall|]. intros img [[Hp H]|[Hp H]].
  - left. split; [done|]. intros f Hin. apply H. by rewrite Hf.
  - right. split; [done|]. destruct H as (f & Hin & H). exists f. by rewrite <- Hf.
Qed.

Lemma unique_entry (es : list (string * node)) (k : string) (a b : node) :
  NoDup (es.*1) → (k, a) ∈ es → (k, b) ∈ es → a = b.
Proof.
  induction es as [|[k' v] es IH]; intros Hnd Ha Hb; [by apply elem_of_nil in Ha|].
  rewrite fmap_cons in Hnd. simpl in Hnd. apply NoDup_cons in Hnd as [Hk Hnd].
  assert (∀ x, (k', x) ∈ es → False) as Hno.
  { intros x Hx. apply Hk. apply list_elem_of_fmap. by exists (k', x). }
  apply elem_of_cons in Ha as [[= -> ->]|Ha]; apply elem_of_cons in Hb as [[= <-]|Hb];
    subst; try done; try (exfalso; eauto; fail).
  by apply IH.
Qed.

Lemma scan_directory_shape (guess_type : string → option string) (sep : ascii)
    (base : path) (tree : node) :
  FS.wf tree = true →
  scan_shape base
    (FileSystemScanner.scan_directory guess_type sep base tree).1
    (FileSystemScanner.scan_directory guess_type sep base tree).2.
Proof.
  intros Hwf. unfold FileSystemScanner.scan_directory. simpl.
  eapply scan_shape_perm; [symmetry; apply sort_perm|symmetry; apply sort_perm|].
  pose proof (walk_NoDup tree base Hwf) as Hnd.
  destruct tree as [c|es]; [split; simpl; constructor|].
  rewrite wf_Dir in Hwf. apply andb_true_iff in Hwf as [Hnames _].
  apply bool_decide_eq_true in Hnames.
  rewrite walk_Dir in *. set (rest := List.flat_map _ es) in *.
  assert (∀ f, f ∈ List.filter (λ r, negb (bool_decide (r = base)))
                    (((base, (filter (λ e, FS.is_dir_node e.2 = true) es).*1,
                       (filter (λ e, FS.is_file_node e.2 = true) es).*1) :: rest).*1.*1)
               ↔ f ∈ rest.*1.*1) as Hfolders.
  { intros f. rewrite list_elem_of_In, filter_In, <- list_elem_of_In.
    rewrite !fmap_cons. simpl. rewrite elem_of_cons, negb_true_iff, bool_decide_eq_false.
    split; [intros [[->|H] Hne]; done|]. intros H. split; [by right|].
    apply walk_children in H as (k & es' & rel & _ & ->). apply app_cons_ne_self. }
  split; [apply NoDup_ListNoDup, List.NoDup_filter, NoDup_ListNoDup, Hnd|].
  apply Forall_forall. intros img Himg. apply list_elem_of_In in Himg.
  apply in_flat_map in Himg as ([[r ds] files] & Hr & Himg).
  unfold FileSystemScanner._batch_validate_images in Himg.
  apply filter_In in Himg as [Himg _]. apply in_map_iff in Himg as (file & <- & Hfile).
  rewrite parent_join. apply list_elem_of_In in Hr.
  apply elem_of_cons in Hr as [[= -> -> ->]|Hr].
  - left. split; [done|]. intros f Hf. apply Hfolders in Hf.
    apply walk_children in Hf as (k & es' & rel & Hk & ->).
    unfold Path.join. rewrite <- (app_nil_r base) at 1.
    rewrite <- app_assoc, relative_to_app. simpl.
    destruct (String.eqb k file) eqn:E; [|done]. apply String.eqb_eq in E as ->.
    apply list_elem_of_In, list_elem_of_fmap in Hfile as ([k c] & -> & Hc).
    apply list_elem_of_filter in Hc as [Hc Hin]. simpl in *.
    destruct c as [c|?]; [|done].
    by pose proof (unique_entry es k _ _ Hnames Hk Hin).
  - assert (r ∈ rest.*1.*1) as Hr'.
    { apply list_elem_of_fmap. exists (r, ds). split; [done|].
      apply list_elem_of_fmap. by exists (r, ds, files). }
    right. split.
    + apply walk_children in Hr' as (k & es' & rel & _ & ->). apply app_cons_ne_self.
    + exists r. split; [by apply Hfolders|].
      unfold Path.join. rewrite relative_to_self_child. by eexists.
Qed.

(** C1.  For every directory tree (with unique names in each directory),
    the chapters that [analyze_manga] builds from the scan satisfy: every
    chapter has [end_page - start_page + 1 = page_count]; the first
    chapter, if any, starts at page 1; each chapter starts on the page
    after the one on which its predecessor ends; the last chapter ends on
    [total_pages]; and [total_pages] is the number of scanned images.
    The chapters are not empty and cover the pages from 1 to
    [total_pages] one after the other, so that a tree with an image has a
    last chapter, which ends on [total_pages]. *)
Theorem analyze_manga_pages_contiguous
    (guess_type : string → option string) (sep : ascii) (base : path) (tree : node) :
  FS.wf tree = true →
  let md := MangaAnalyzer.analyze_directory guess_type sep base tree in
  contiguous_pages (chapters md) (total_pages md) ∧
  total_pages md
  = MangaAnalyzer.len (FileSystemScanner.scan_directory guess_type sep base tree).2 ∧
  tiles 1 (chapters md) (total_pages md + 1) ∧
  (0 < total_pages md →
   ∃ ch, last (chapters md) = Some ch ∧ end_page ch = total_pages md).
Proof.
  intros Hwf md. subst md. unfold MangaAnalyzer.analyze_directory.
  pose proof (scan_directory_shape guess_type sep base tree Hwf) as Hs.
  destruct (FileSystemScanner.scan_directory guess_type sep base tree)
    as [folders images]. simpl in Hs.
  pose proof (analyze_manga_tiles base folders images Hs) as Ht.
  assert (total_pages (MangaAnalyzer.analyze_manga base folders images)
          = MangaAnalyzer.len images) as Htotal.
  { unfold MangaAnalyzer.analyze_manga.
    by repeat match goal with |- context [let '(_, _) := ?x in _] => destruct x end. }
  rewrite Htotal. cbn [snd].
  assert (contiguous_pages
            (chapters (MangaAnalyzer.analyze_manga base folders images))
            (MangaAnalyzer.len images)) as Hc.
  { apply tiles_contiguous in Ht.
    by replace (1 + MangaAnalyzer.len images - 1) with (MangaAnalyzer.len images)
      in Ht by lia. }
  split; [done|]. split; [done|].
  split; [by rewrite Z.add_comm|].
  intros Hpos. destruct Hc as (_ & _ & _ & Hlast).
  destruct (last (chapters (MangaAnalyzer.analyze_manga base folders images)))
    as [ch|] eqn:El; [exists ch; split; [done|by apply Hlast]|].
  apply last_None in El. rewrite El in Ht. inversion Ht. lia.
Qed.

Lemma analyze_manga_pages_contiguous_witness :
  FS.wf scenario_tree = true ∧
  let md := MangaAnalyzer.analyze_directory no_guess "/" ["m"] scenario_tree in
  contiguous_pages (chapters md) (total_pages md) ∧
  total_pages md
  = MangaAnalyzer.len (FileSystemScanner.scan_directory no_guess "/" ["m"] scenario_tree).2 ∧
  tiles 1 (chapters md) (total_pages md + 1) ∧
  (0 < total_pages md →
   ∃ ch, last (chapters md) = Some ch ∧ end_page ch = total_pages md).
Proof.
  split; [reflexivity|].
  apply (analyze_manga_pages_contiguous no_guess "/" ["m"] scenario_tree).
  reflexivity.
Defined.

(** The end-to-end scenario: three chapters on the pages 1-1, 2-3, 4-5. *)
Example scenario_chapters :
  let md := MangaAnalyzer.analyze_directory no_guess "/" ["m"] scenario_tree in
  (λ ch, (number ch, name ch, start_page ch, end_page ch)) <$> chapters md
  = [(1, "Introduction", 1, 1); (2, "Ch1", 2, 3); (3, "Ch2", 4, 5)] ∧
  total_pages md = 5.
Proof. vm_compute. done. Qed.

(** ** Chapter numbers *)

Section Numbers.
Import MangaAnalyzer.

Lemma subdirectory_chapters_numbers (m : gmap path (list path)) (r : bool)
    (folders : list path) (i : Z) (chs : list Chapter) (cur : Z) :
  ∃ new,
    (subdirectory_chapters m r i folders chs cur).1 = chs ++ new ∧
    StronglySorted Z.lt (number <$> new) ∧
    Forall (λ ch, ∃ j : nat,
              folders !! j = Some (folder_path ch) ∧
              number ch = i + folder_number r j ∧
              default [] (m !! folder_path ch) ≠ []) new ∧
    (∀ (j : nat) f, folders !! j = Some f → default [] (m !! f) ≠ [] →
       ∃ ch, ch ∈ new ∧ folder_path ch = f ∧ number ch = i + folder_number r j).
Proof.
  revert i chs cur. induction folders as [|f folders IH]; intros i chs cur.
  - exists []. simpl. rewrite app_nil_r. repeat split; try constructor.
    intros j f Hj. by rewrite lookup_nil in Hj.
  - simpl. destruct (default [] (m !! f)) as [|img imgs] eqn:E.
    + destruct (IH (i + 1) chs cur) as (new & Hres & Hsort & Hall & Hconv).
      exists new. repeat split; [done|done| |].
      * eapply Forall_impl; [exact Hall|]. intros ch (j & Hj & Hn & Hne).
        exists (S j). unfold folder_number in *. split; [done|]. split; [lia|done].
      * intros [|j] g Hj Hne; simpl in Hj.
        -- injection Hj as <-. by rewrite E in Hne.
        -- destruct (Hconv j g Hj Hne) as (ch & Hin & Hf & Hn).
           exists ch. unfold folder_number in *. repeat split; [done|done|lia].
    + match goal with |- context [subdirectory_chapters m r (i + 1) folders (chs ++ [?c]) ?p] =>
        destruct (IH (i + 1) (chs ++ [c]) p) as (new & Hres & Hsort & Hall & Hconv);
        exists (c :: new) end.
      split; [by rewrite Hres, <- app_assoc|].
      split; [|split].
      * rewrite fmap_cons. constructor; [done|]. simpl.
        apply Forall_fmap. eapply Forall_impl; [exact Hall|].
        intros ch (j & _ & Hn & _). simpl. unfold folder_number in Hn.
        destruct r; lia.
      * constructor.
        -- exists 0%nat. simpl. unfold folder_number. rewrite E.
           split; [done|]. split; [destruct r; lia|done].
        -- eapply Forall_impl; [exact Hall|]. intros ch (j & Hj & Hn & Hne).
           exists (S j). unfold folder_number in *. split; [done|]. split; [lia|done].
      * intros [|j] g Hj Hne; simpl in Hj.
        -- injection Hj as <-. eexists. split; [left|]. simpl.
           unfold folder_number. split; [done|destruct r; lia].
        -- destruct (Hconv j g Hj Hne) as (ch & Hin & Hf & Hn).
           exists ch. unfold folder_number in *. repeat split; [by right|done|lia].
Qed.

Lemma receives_images_spec (folders images : list path) (f : path) :
  f ∈ folders →
  default [] (_group_images_by_chapter folders images !! f) ≠ [] ↔
  receives_images folders images f = true.
Proof.
  intros Hf. rewrite group_lookup by done. unfold receives_images.
  induction images as [|img images IH]; simpl; [done|].
  destruct (bool_decide _); simpl; [done|exact IH].
Qed.

Lemma has_root_images_spec (base : path) (images : list path) :
  has_root_images base images
  = match List.filter (λ img, bool_decide (Path.parent img = base)) images with
    | [] => false
    | _ :: _ => true
    end.
Proof.
  unfold has_root_images. induction images as [|img images IH]; simpl; [done|].
  destruct (bool_decide _); simpl; [done|exact IH].
Qed.

Lemma analyze_manga_numbers (base : path) (folders images : list path) :
  let md := analyze_manga base folders images in
  let has_root := has_root_images base images in
  StronglySorted Z.lt (number <$> chapters md) ∧
  (∀ ch, ch ∈ chapters md →
     (has_root = true ∧ number ch = 1 ∧ folder_path ch = base) ∨
     (∃ i : nat, folders !! i = Some (folder_path ch) ∧
                 number ch = folder_number has_root i ∧
                 receives_images folders images (folder_path ch) = true)) ∧
  (has_root = true →
     ∃ ch, head (chapters md) = Some ch ∧ number ch = 1 ∧ folder_path ch = base) ∧
  (∀ (i : nat) f, folders !! i = Some f → receives_images folders images f = true →
     ∃ ch, ch ∈ chapters md ∧ folder_path ch = f ∧
           number ch = folder_number has_root i).
Proof.
  intros md has_root. subst md has_root. rewrite has_root_images_spec.
  unfold analyze_manga.
  set (m := _group_images_by_chapter folders images).
  set (root := List.filter _ images).
  assert (∀ f, f ∈ folders →
            default [] (m !! f) ≠ [] ↔ receives_images folders images f = true) as Hrec
    by (intros f Hf; by apply receives_images_spec).
  destruct root as [|r0 root'].
  - destruct (subdirectory_chapters_numbers m false folders 0 [] 1)
      as (new & Hres & Hsort & Hall & Hconv).
    destruct (subdirectory_chapters m false 0 folders [] 1) as [chs cur].
    simpl in *. subst chs. repeat split; [done| |done|].
    + intros ch Hin. right. rewrite Forall_forall in Hall.
      destruct (Hall ch Hin) as (j & Hj & Hn & Hne). exists j.
      split; [done|]. split; [lia|]. apply Hrec; [|done].
      eapply list_elem_of_lookup_2; eauto.
    + intros i f Hi Hr. destruct (Hconv i f Hi) as (ch & Hin & Hf & Hn).
      * apply Hrec; [|done]. eapply list_elem_of_lookup_2; eauto.
      * exists ch. repeat split; [done|done|lia].
  - match goal with |- context [subdirectory_chapters m true 0 folders [?c] ?p] =>
      destruct (subdirectory_chapters_numbers m true folders 0 [c] p)
        as (new & Hres & Hsort & Hall & Hconv);
      destruct (subdirectory_chapters m true 0 folders [c] p) as [chs cur] end.
    simpl in *. subst chs. rewrite Forall_forall in Hall. repeat split.
    + rewrite fmap_cons. constructor; [done|]. simpl.
      apply Forall_fmap, Forall_forall. intros ch Hin.
      destruct (Hall ch Hin) as (j & _ & Hn & _). simpl.
      unfold folder_number in Hn. lia.
    + intros ch Hin. apply elem_of_cons in Hin as [->|Hin]; [by left|]. right.
      destruct (Hall ch Hin) as (j & Hj & Hn & Hne). exists j.
      split; [done|]. split; [lia|]. apply Hrec; [|done].
      eapply list_elem_of_lookup_2; eauto.
    + intros _. eexists. by split.
    + intros i f Hi Hr. destruct (Hconv i f Hi) as (ch & Hin & Hf & Hn).
      * apply Hrec; [|done]. eapply list_elem_of_lookup_2; eauto.
      * exists ch. repeat split; [by right|done|lia].
Qed.

End Numbers.

(** C2, at two failing inputs.  In a tree whose first sub-directory holds
    no image the only chapter has number 2, and in a tree with a folder
    inside a folder, which takes up a number without getting a chapter,
    the chapters have the numbers 1 and 3: the numbers are not 1, ...,
    [len chapters].  In the first tree the reading area opens with a
    chapter marker, which the script means to leave out for the first
    chapter. *)
Theorem chapter_numbers_skip_empty_folders :
  FS.wf extras_tree = true ∧ FS.wf nested_tree = true ∧
  let md := MangaAnalyzer.analyze_directory no_guess "/" ["m"] extras_tree in
  let md' := MangaAnalyzer.analyze_directory no_guess "/" ["m"] nested_tree in
  (λ ch, (number ch, folder_path ch)) <$> chapters md = [(2, ["m"; "vol1"])] ∧
  number <$> chapters md ≠ Z.of_nat <$> seq 1 (length (chapters md)) ∧
  MangaHTMLGenerator.reader_elements no_guess "/" md extras_tree
  = inr [ChapterMarker 2 "Vol1"; PageImage "vol1/1.png" 1 2] ∧
  (λ ch, (number ch, folder_path ch)) <$> chapters md'
  = [(1, ["m"; "vol1"]); (3, ["m"; "vol2"])] ∧
  number <$> chapters md' ≠ Z.of_nat <$> seq 1 (length (chapters md')).
Proof.
  split; [reflexivity|]. split; [reflexivity|]. vm_compute.
  split; [reflexivity|]. split; [discriminate|]. split; [reflexivity|].
  split; [reflexivity|discriminate].
Qed.

(** What the numbers are.  For every directory tree, the chapter numbers increase
    strictly in list order; the root chapter, made when the base directory
    holds an image, comes first and has number 1; the chapter of a
    sub-directory has number [i + 1] ([i + 2] when the root chapter
    exists), [i] being the position of the folder in the sorted list of
    all scanned sub-directories; and a sub-directory has a chapter exactly
    when it is the first listed folder above some image.  A sub-directory
    without a chapter still takes up a number. *)
Theorem chapter_numbers_follow_folder_positions
    (guess_type : string → option string) (sep : ascii) (base : path) (tree : node) :
  let scan := FileSystemScanner.scan_directory guess_type sep base tree in
  let md := MangaAnalyzer.analyze_directory guess_type sep base tree in
  let has_root := has_root_images base scan.2 in
  StronglySorted Z.lt (number <$> chapters md) ∧
  (∀ ch, ch ∈ chapters md →
     (has_root = true ∧ number ch = 1 ∧ folder_path ch = base) ∨
     (∃ i : nat, scan.1 !! i = Some (folder_path ch) ∧
                 number ch = folder_number has_root i ∧
                 receives_images scan.1 scan.2 (folder_path ch) = true)) ∧
  (has_root = true →
     ∃ ch, head (chapters md) = Some ch ∧ number ch = 1 ∧ folder_path ch = base) ∧
  (∀ (i : nat) f, scan.1 !! i = Some f → receives_images scan.1 scan.2 f = true →
     ∃ ch, ch ∈ chapters md ∧ folder_path ch = f ∧
           number ch = folder_number has_root i).
Proof.
  intros scan md has_root. subst scan md has_root.
  unfold MangaAnalyzer.analyze_directory.
  destruct (FileSystemScanner.scan_directory guess_type sep base tree)
    as [folders images].
  apply analyze_manga_numbers.
Qed.

(** ** Natural sort *)

Section NaturalSortFacts.
Import NaturalSort.

Lemma ascii_compare_trans (a b c : ascii) :
  Ascii.compare a b = Lt → Ascii.compare b c = Lt → Ascii.compare a c = Lt.
Proof.
  unfold Ascii.compare. rewrite !N.compare_lt_iff. lia.
Qed.

Lemma ascii_compare_refl (a : ascii) : Ascii.compare a a = Eq.
Proof. unfold Ascii.compare. apply N.compare_refl. Qed.

Lemma str_compare_refl (s : string) : String.compare s s = Eq.
Proof. induction s as [|a s IH]; simpl; [done|]. by rewrite ascii_compare_refl. Qed.

Lemma str_compare_trans (s t u : string) :
  String.compare s t = Lt → String.compare t u = Lt → String.compare s u = Lt.
Proof.
  revert t u. induction s as [|a s IH]; intros [|b t] [|c u]; simpl; try done.
  destruct (Ascii.compare a b) eqn:Eab; try done;
    destruct (Ascii.compare b c) eqn:Ebc; try done.
  - apply Ascii.compare_eq_iff in Eab as ->, Ebc as ->.
    rewrite ascii_compare_refl. apply IH.
  - apply Ascii.compare_eq_iff in Eab as ->. by rewrite Ebc.
  - apply Ascii.compare_eq_iff in Ebc as <-. by rewrite Eab.
  - by rewrite (ascii_compare_trans a b c).
Qed.

Lemma str_ltb_trans (s t u : string) :
  String.ltb s t = true → String.ltb t u = true → String.ltb s u = true.
Proof.
  unfold String.ltb. intros H1 H2.
  rewrite (str_compare_trans s t u); [done| |];
    [destruct (String.compare s t)|destruct (String.compare t u)]; done.
Qed.

Lemma str_ltb_irrefl (s : string) : String.ltb s s = false.
Proof.
  unfold String.ltb. by rewrite str_compare_refl.
Qed.

Lemma str_trichotomy (s t : string) :
  String.ltb s t = true ∨ s = t ∨ String.ltb t s = true.
Proof.
  unfold String.ltb. rewrite (String.compare_antisym t s).
  destruct (String.compare s t) eqn:E; simpl; auto.
  apply String.compare_eq_iff in E. auto.
Qed.

Lemma token_eqb_eq (x y : token) : token_eqb x y = true ↔ x = y.
Proof.
  destruct x, y; simpl; try (split; done).
  - rewrite String.eqb_eq. split; congruence.
  - rewrite Z.eqb_eq. split; congruence.
Qed.

Lemma token_eqb_refl (x : token) : token_eqb x x = true.
Proof. by apply token_eqb_eq. Qed.

Lemma token_lt_irrefl (x y : token) :
  token_lt x y = inr true → token_eqb x y = false.
Proof.
  destruct x, y; simpl; try done; intros [= H].
  - apply String.eqb_neq. intros ->. by rewrite str_ltb_irrefl in H.
  - apply Z.eqb_neq. lia.
Qed.

Lemma token_lt_trans (x y z : token) :
  token_lt x y = inr true → token_lt y z = inr true → token_lt x z = inr true.
Proof.
  destruct x, y, z; simpl; try done; intros [= H1] [= H2]; f_equal.
  - by apply (str_ltb_trans _ s0).
  - lia.
Qed.

Lemma key_lt_irrefl (a : list token) : key_lt a a = inr false.
Proof. induction a as [|x a IH]; simpl; [done|]. by rewrite token_eqb_refl. Qed.

Lemma key_lt_trans (a b c : list token) :
  key_lt a b = inr true → key_lt b c = inr true → key_lt a c = inr true.
Proof.
  revert b c. induction a as [|x a IH]; intros [|y b] [|z c]; simpl; try done.
  destruct (token_eqb x y) eqn:Exy, (token_eqb y z) eqn:Eyz.
  - apply token_eqb_eq in Exy as ->, Eyz as ->. rewrite token_eqb_refl. apply IH.
  - apply token_eqb_eq in Exy as ->. by rewrite Eyz.
  - apply token_eqb_eq in Eyz as <-. by rewrite Exy.
  - intros H1 H2. pose proof (token_lt_trans _ _ _ H1 H2) as H.
    by rewrite (token_lt_irrefl _ _ H).
Qed.

Lemma str_ltb_asym (s t : string) :
  String.ltb s t = true → String.ltb t s = false.
Proof.
  intros H. destruct (String.ltb t s) eqn:E; [|done].
  pose proof (str_ltb_trans _ _ _ H E) as H'. by rewrite str_ltb_irrefl in H'.
Qed.

(** Keys that alternate in the same way always compare, and they compare
    one way or the other unless they are equal. *)
Lemma key_lt_alternates (k : bool) (a b : list token) :
  alternates k a → alternates k b →
  key_lt a b = inr true ∨ (a = b ∧ key_lt a b = inr false)
  ∨ (key_lt b a = inr true ∧ key_lt a b = inr false).
Proof.
  revert k b. induction a as [|x a IH]; intros k [|y b] Ha Hb; simpl; auto.
  destruct x as [s|m], y as [t|n]; simpl in *;
    destruct Ha as [Hk Ha], Hb as [Hk' Hb]; try congruence.
  - rewrite (String.eqb_sym t s). destruct (String.eqb_spec s t) as [->|Hne].
    + destruct (IH _ _ Ha Hb) as [H|[[-> H]|H]]; auto.
    + destruct (str_trichotomy s t) as [H|[H|H]]; [left; by rewrite H|done|].
      right. right. by rewrite H, (str_ltb_asym _ _ H).
  - rewrite (Z.eqb_sym n m). destruct (Z.eqb_spec m n) as [->|Hne].
    + destruct (IH _ _ Ha Hb) as [H|[[-> H]|H]]; auto.
    + destruct (Z.ltb_spec m n) as [H|H]; [auto|]. right. right.
      split; [f_equal; lia|done].
Qed.


(** *** The result of a list of calls *)

Lemma mapM_cons {A B : Type} (f : A → result B) (x : A) (l : list A) :
  mapM f (x :: l)
  = match f x with
    | inr y => match mapM f l with inr k => inr (y :: k) | inl e => inl e end
    | inl e => inl e
    end.
Proof. simpl. unfold mbind, result_bind. by destruct (f x), (mapM f l). Qed.

Lemma mapM_inr {A B : Type} (f : A → result B) (l : list A) (k : list B) :
  mapM f l = inr k ↔ Forall2 (λ x y, f x = inr y) l k.
Proof.
  revert k. induction l as [|x l IH]; intros k.
  - split; [intros [= <-]; constructor|by inversion 1].
  - rewrite mapM_cons. split.
    + destruct (f x) as [|y] eqn:Ex; [done|].
      destruct (mapM f l) as [|k'] eqn:El; [done|]. intros [= <-].
      constructor; [done|]. by apply IH.
    + inversion 1 as [|? y ? k' Hy Hk]; subst. rewrite Hy.
      apply IH in Hk. by rewrite Hk.
Qed.



(** Calls that can only raise a [ValueError] leave the list of calls
    with a result or with a [ValueError], and with a result when each of
    them has one. *)
Lemma mapM_outcome {A B : Type} (f : A → result B) (l : list A) :
  (∀ x, x ∈ l → (∃ y, f x = inr y) ∨ (∃ m, f x = inl (ValueError m))) →
  ((∃ k, mapM f l = inr k) ∧ ∀ x, x ∈ l → ∃ y, f x = inr y) ∨
  ((∃ m, mapM f l = inl (ValueError m)) ∧ ∃ x m, x ∈ l ∧ f x = inl (ValueError m)).
Proof.
  induction l as [|x l IH]; intros H.
  - left. split; [by eexists|]. intros x Hx. by apply elem_of_nil in Hx.
  - rewrite mapM_cons.
    destruct (H x ltac:(left)) as [[y Hy]|[m Hm]].
    + rewrite Hy.
      destruct IH as [[[k Hk] Hall]|[[m Hm] (x' & m' & Hx' & Hf)]].
      { intros x' Hx'. apply H. by right. }
      * left. rewrite Hk. split; [by eexists|].
        intros x' [->|Hx']%elem_of_cons; [by eexists|by apply Hall].
      * right. rewrite Hm. split; [by eexists|]. exists x', m'. split; [by right|done].
    + right. rewrite Hm. split; [by eexists|]. exists x, m. split; [by left|done].
Qed.

(** *** The pieces of a name *)




Lemma is_decimal_is_digit (c : ascii) : Str.is_decimal c = true → Str.is_digit c = true.
Proof. unfold Str.is_digit. by intros ->. Qed.

(** A piece without a decimal digit is a text of the key, unless all its
    characters are digits of the other kind: then [int] raises. *)
Lemma text_piece (f : string → string) (h : string) :
  Str.forallb (λ c, Bool.eqb (Str.is_decimal c) false) h = true →
  (if Str.isdigit h then Num <$> int h else mret (Text (f h))) = inr (Text (f h)) ∨
  ∃ m, (if Str.isdigit h then Num <$> int h else mret (Text (f h)))
       = inl (ValueError m).
Proof.
  intros H. destruct (Str.isdigit h) eqn:E; [|by left]. right.
  destruct h as [|c h]; [done|]. simpl in H. apply andb_true_iff in H as [Hc _].
  unfold int. simpl. destruct (Str.is_decimal c); [done|]. simpl. by eexists.
Qed.

(** A run of decimal digits is a number of the key. *)
Lemma digit_piece (f : string → string) (c : ascii) (h : string) :
  Str.is_decimal c = true →
  Str.forallb (λ c, Bool.eqb (Str.is_decimal c) true) h = true →
  (if Str.isdigit (String c h) then Num <$> int (String c h)
   else mret (Text (f (String c h))))
  = inr (Num (int_from 0 (String c h))).
Proof.
  intros Hc Hh.
  assert (Str.forallb Str.is_decimal h = true) as Hd.
  { clear c Hc. induction h as [|d h IH]; simpl in *; [done|].
    apply andb_true_iff in Hh as [Hd Hh]. rewrite IH by done.
    by destruct (Str.is_decimal d). }
  assert (Str.forallb Str.is_digit h = true) as Hg.
  { clear c Hc Hh. induction h as [|d h IH]; simpl in *; [done|].
    apply andb_true_iff in Hd as [Hd Hh]. by rewrite is_decimal_is_digit, IH. }
  unfold int. cbn [Str.isdigit Str.forallb]. rewrite (is_decimal_is_digit c Hc), Hg, Hc, Hd.
  done.
Qed.

(** The pieces of [re.split(r'(\d+)', s)]: the first belongs to the run
    that is being read, and the pieces after it alternate. *)
Lemma split_runs_shape (f : string → string) (s : string) (k : bool) :
  ∃ h rest,
    split_runs k s = h :: rest ∧
    Str.forallb (λ c, Bool.eqb (Str.is_decimal c) k) h = true ∧
    ∀ tokens,
      mapM (λ part, if Str.isdigit part then Num <$> int part else mret (Text (f part)))
           rest = inr tokens →
      alternates k tokens.
Proof.
  revert k. induction s as [|c s IH]; intros k.
  - destruct k; simpl; eexists _, _; (split; [done|]); (split; [done|]).
    + intros tokens [= <-]. simpl. done.
    + intros tokens [= <-]. done.
  - simpl. destruct (Str.is_decimal c) eqn:Ec.
    + destruct (IH true) as (h & rest & -> & Hh & Hrest). destruct k; simpl.
      * eexists _, _. split; [done|]. split; [|done]. simpl. by rewrite Ec, Hh.
      * eexists _, _. split; [done|]. split; [done|]. intros tokens.
        rewrite mapM_cons, digit_piece by done.
        destruct (mapM _ rest) as [|tokens'] eqn:E; [done|]. intros [= <-].
        simpl. split; [done|]. by apply Hrest.
    + destruct (IH false) as (h & rest & -> & Hh & Hrest). destruct k; simpl.
      * eexists _, _. split; [done|]. split; [done|]. intros tokens.
        rewrite mapM_cons.
        destruct (text_piece f (String c h)) as [-> |[m ->]];
          [simpl; by rewrite Ec, Hh| |done].
        destruct (mapM _ rest) as [|tokens'] eqn:E; [done|]. intros [= <-].
        simpl. split; [done|]. by apply Hrest.
      * eexists _, _. split; [done|]. split; [|done]. simpl. by rewrite Ec, Hh.
Qed.

(** A key begins with a text and alternates. *)
Lemma pieces_alternate (f : string → string) (s : string) (k : list token) :
  mapM (λ part, if Str.isdigit part then Num <$> int part else mret (Text (f part)))
       (re_split_digits s) = inr k →
  alternates true k.
Proof.
  unfold re_split_digits.
  destruct (split_runs_shape f s false) as (h & rest & -> & Hh & Hrest).
  rewrite mapM_cons.
  destruct (text_piece f h Hh) as [-> |[m ->]]; [|done].
  destruct (mapM _ rest) as [|tokens] eqn:E; [done|]. intros [= <-].
  simpl. split; [done|]. by apply Hrest.
Qed.

Lemma natural_sort_key_alternates (s : string) (k : list token) :
  natural_sort_key s = inr k → alternates true k.
Proof. apply (pieces_alternate id). Qed.

Lemma progressive_sort_key_alternates (s : string) (k : list token) :
  progressive_sort_key s = inr k → alternates true k.
Proof. apply (pieces_alternate Str.lower). Qed.

(** A key can only raise the [ValueError] of [int]. *)
Lemma pieces_outcome (f : string → string) (l : list string) :
  (∃ k, mapM (λ part, if Str.isdigit part then Num <$> int part
                      else mret (Text (f part))) l = inr k) ∨
  (∃ m, mapM (λ part, if Str.isdigit part then Num <$> int part
                      else mret (Text (f part))) l = inl (ValueError m)).
Proof.
  destruct (mapM_outcome
              (λ part, if Str.isdigit part then Num <$> int part
                       else mret (Text (f part))) l) as [[H _]|[H _]]; auto.
  intros part _. destruct (Str.isdigit part); [|left; by eexists].
  unfold int. destruct (_ && _); [left|right]; by eexists.
Qed.

Lemma has_key_inr (s : string) :
  has_key s = true ↔ ∃ k, natural_sort_key s = inr k.
Proof.
  unfold has_key. destruct (natural_sort_key s) as [e|k].
  - split; [done|by intros [k H]].
  - split; [by eexists|done].
Qed.











(** *** Comparing two names *)

Lemma sorts_before_keys (a b : string) (ka kb : list token) :
  natural_sort_key a = inr ka → natural_sort_key b = inr kb →
  sorts_before a b = key_lt ka kb.
Proof. unfold sorts_before. by intros -> ->. Qed.







(** *** Sorting *)

Lemma Sorted_weaken {A : Type} (R S : A → A → Prop) (l : list A) :
  (∀ a b, R a b → S a b) → Sorted R l → Sorted S l.
Proof.
  intros H Hs. induction Hs as [|x l Hs IH Hhd]; constructor; [done|].
  destruct Hhd; constructor; auto.
Qed.

Section SortWith.
Context {A : Type} (key : A → result (list token)).
Hypothesis key_alternates : ∀ x k, key x = inr k → alternates true k.
Hypothesis key_outcome : ∀ x, (∃ k, key x = inr k) ∨ (∃ m, key x = inl (ValueError m)).

(** [a] does not come after [b]: the key of [b] is not less than the key
    of [a]. *)
Let in_order (a b : A) : Prop :=
  ∃ ka kb, key a = inr ka ∧ key b = inr kb ∧ key_lt kb ka = inr false.

Let keyed (l : list (list token * A)) : Prop :=
  Forall (λ x, key x.2 = inr x.1) l.

Lemma insert_keyed_defined (x : list token * A) (l : list (list token * A)) :
  keyed (x :: l) →
  ∃ l', insert_keyed x l = inr l' ∧ l' ≡ₚ x :: l.
Proof.
  intros [Hx Hl]%Forall_cons. induction l as [|y l IH]; simpl; [by eexists|].
  apply Forall_cons in Hl as [Hy Hl].
  destruct (key_lt_alternates true y.1 x.1) as [H|[[_ H]|[_ H]]];
    [by eapply key_alternates|by eapply key_alternates|..]; rewrite H; simpl.
  - destruct (IH Hl) as (l' & -> & Hp). simpl. eexists. split; [done|].
    rewrite Hp. apply Permutation_swap.
  - by eexists.
  - by eexists.
Qed.

Lemma sort_keyed_defined (l : list (list token * A)) :
  keyed l → ∃ l', sort_keyed l = inr l' ∧ l' ≡ₚ l.
Proof.
  induction l as [|x l IH]; simpl; [by eexists|].
  intros [Hx Hl]%Forall_cons. destruct (IH Hl) as (l' & -> & Hp). simpl.
  destruct (insert_keyed_defined x l') as (l'' & -> & Hp').
  { constructor; [done|]. unfold keyed. by rewrite Hp. }
  eexists. split; [done|]. by rewrite Hp', Hp.
Qed.

Lemma insert_keyed_HdRel (y x : list token * A) (l l' : list (list token * A)) :
  HdRel (λ a b, key_lt b.1 a.1 = inr false) y l →
  key_lt x.1 y.1 = inr false →
  insert_keyed x l = inr l' →
  HdRel (λ a b, key_lt b.1 a.1 = inr false) y l'.
Proof.
  destruct l as [|z l]; simpl.
  - intros _ H [= <-]. by constructor.
  - intros Hz H. apply HdRel_inv in Hz.
    destruct (key_lt z.1 x.1) as [|[|]]; simpl; [done| |].
    + destruct (insert_keyed x l); simpl; [done|]. intros [= <-]. by constructor.
    + intros [= <-]. by constructor.
Qed.

Lemma insert_keyed_Sorted (x : list token * A) (l l' : list (list token * A)) :
  keyed (x :: l) →
  Sorted (λ a b, key_lt b.1 a.1 = inr false) l →
  insert_keyed x l = inr l' →
  Sorted (λ a b, key_lt b.1 a.1 = inr false) l'.
Proof.
  intros [Hx Hl]%Forall_cons. revert l'. induction l as [|y l IH]; intros l' Hs; simpl.
  - intros [= <-]. repeat constructor.
  - apply Sorted_inv in Hs as [Hs Hy]. apply Forall_cons in Hl as [Hky Hl].
    destruct (key_lt y.1 x.1) as [|[|]] eqn:E; simpl; [done| |].
    + destruct (insert_keyed x l) as [|l''] eqn:El; simpl; [done|].
      intros [= <-]. constructor; [by apply IH|].
      eapply insert_keyed_HdRel; eauto.
      destruct (key_lt_alternates true x.1 y.1) as [H|[[_ H]|[_ H]]];
        [by eapply key_alternates|by eapply key_alternates| |done|done].
      pose proof (key_lt_trans _ _ _ E H) as Hyy. by rewrite key_lt_irrefl in Hyy.
    + intros [= <-]. constructor; [by constructor|by constructor].
Qed.

Lemma sort_keyed_Sorted (l l' : list (list token * A)) :
  keyed l → sort_keyed l = inr l' →
  Sorted (λ a b, key_lt b.1 a.1 = inr false) l'.
Proof.
  revert l'. induction l as [|x l IH]; intros l'; simpl.
  - intros _ [= <-]. constructor.
  - intros [Hx Hl]%Forall_cons.
    destruct (sort_keyed_defined l Hl) as (s & Hs & Hp). rewrite Hs. simpl.
    intros H. eapply insert_keyed_Sorted; [|by apply IH|exact H].
    constructor; [done|]. unfold keyed. by rewrite Hp.
Qed.

Lemma keyed_list (l : list A) (kl : list (list token * A)) :
  mapM (λ x, k ← key x; mret (k, x)) l = inr kl → kl.*2 = l ∧ keyed kl.
Proof.
  intros H%mapM_inr.
  induction H as [|x y l kl Hxy _ [IH1 IH2]]; [split; [done|constructor]|].
  destruct (key x) as [|k] eqn:E; [done|]. simpl in Hxy. injection Hxy as <-.
  split; [rewrite fmap_cons; by f_equal|]. constructor; [done|done].
Qed.

(** Sorting rearranges the list and puts it in the order of the keys,
    when every element has a key; it raises the [ValueError] of a key
    otherwise. *)
Lemma sort_with_outcome (l : list A) :
  (Forall (λ x, ∃ k, key x = inr k) l ∧
   ∃ l', sort_with key l = inr l' ∧ l' ≡ₚ l ∧ Sorted in_order l') ∨
  (Exists (λ x, ∃ m, key x = inl (ValueError m)) l ∧
   ∃ m, sort_with key l = inl (ValueError m)).
Proof.
  unfold sort_with.
  destruct (mapM_outcome (λ x, k ← key x; mret (k, x)) l)
    as [[[kl Hkl] Hall]|[[m Hm] (x & m' & Hx & Hf)]].
  - intros x _. destruct (key_outcome x) as [[k ->]|[m ->]]; [left|right]; by eexists.
  - left. split.
    { apply Forall_forall. intros x Hx. destruct (Hall x Hx) as [y Hy].
      destruct (key x); [done|by eexists]. }
    rewrite Hkl. simpl. destruct (keyed_list l kl Hkl) as [H2 Hk].
    destruct (sort_keyed_defined kl Hk) as (s & Hs & Hp). rewrite Hs. simpl.
    eexists. split; [done|]. split; [by rewrite Hp, H2|].
    pose proof (sort_keyed_Sorted kl s Hk Hs) as Hsorted.
    assert (keyed s) as Hks by (unfold keyed; by rewrite Hp).
    clear -Hsorted Hks. induction Hsorted as [|x s Hs IH Hhd]; [constructor|].
    apply Forall_cons in Hks as [Hx Hks]. simpl. constructor; [by apply IH|].
    destruct Hhd as [|y s Hxy]; simpl; [constructor|]. constructor.
    apply Forall_cons in Hks as [Hy _]. by exists x.1, y.1.
  - right. split.
    { apply Exists_exists. exists x. split; [done|].
      destruct (key x) as [e|]; [|done]. simpl in Hf. injection Hf as ->. by eexists. }
    rewrite Hm. by eexists.
Qed.

End SortWith.

(** Sorting by the natural key: a rearranged list in which no element
    sorts before its predecessor, when every element has a key, and a
    [ValueError] otherwise. *)
Lemma natural_sort_by_outcome {A : Type} (to_str : A → string) (l : list A) :
  (Forall (λ x, has_key (to_str x) = true) l ∧
   ∃ l', natural_sort_by to_str l = inr l' ∧ l' ≡ₚ l ∧
         Sorted (λ a b, sorts_before (to_str b) (to_str a) = inr false) l') ∨
  (Exists (λ x, ∃ m, natural_sort_key (to_str x) = inl (ValueError m)) l ∧
   ∃ m, natural_sort_by to_str l = inl (ValueError m)).
Proof.
  destruct (sort_with_outcome (λ x, natural_sort_key (to_str x))
              (λ x, natural_sort_key_alternates (to_str x))
              (λ x, pieces_outcome id (re_split_digits (Str.lower (to_str x)))) l)
    as [(Hall & l' & Hs & Hp & Hsorted)|H]; [left|by right].
  split; [eapply Forall_impl; [exact Hall|]; intros x Hx; by apply has_key_inr|].
  exists l'. split; [done|]. split; [done|].
  eapply Sorted_weaken; [|exact Hsorted].
  intros a b (ka & kb & Ha & Hb & H). by rewrite (sorts_before_keys _ _ kb ka Hb Ha).
Qed.

Lemma natural_sort_by_defined {A : Type} (to_str : A → string) (l : list A) :
  Forall (λ x, has_key (to_str x) = true) l →
  ∃ l', natural_sort_by to_str l = inr l' ∧ l' ≡ₚ l.
Proof.
  intros Hall.
  destruct (natural_sort_by_outcome to_str l)
    as [(_ & l' & Hs & Hp & _)|[Hex _]]; [by exists l'|].
  apply Exists_exists in Hex as (x & Hx & m & Hm).
  rewrite Forall_forall in Hall. destruct (proj1 (has_key_inr _) (Hall x Hx)) as [k Hk].
  congruence.
Qed.

Lemma natural_sort_by_inr {A : Type} (to_str : A → string) (l l' : list A) :
  natural_sort_by to_str l = inr l' →
  l' ≡ₚ l ∧ Forall (λ x, has_key (to_str x) = true) l.
Proof.
  intros H.
  destruct (natural_sort_by_outcome to_str l)
    as [(Hall & l'' & Hs & Hp & _)|[_ [m Hm]]]; [|congruence].
  rewrite H in Hs. injection Hs as <-. done.
Qed.

End NaturalSortFacts.



(** ** Image validation *)

(** The extension is the part of the last component after its last dot,
    in lower case; a name that begins with its only dot has none. *)
Example extension_examples :
  ImageValidator.extension ["m"; "ch1"; "Page01.PNG"] = "png" ∧
  ImageValidator.extension ["m"; "archive.tar.GZ"] = "gz" ∧
  ImageValidator.extension ["m"; ".gitignore"] = "" ∧
  ImageValidator.extension ["m"; "README"] = "" ∧
  ImageValidator.extension ["m.d"; "name."] = "".
Proof. repeat split; reflexivity. Qed.

Lemma is_image_mime_spec (o : option string) :
  ImageValidator.is_image_mime o = true ↔
  ∃ mime, o = Some mime ∧ Str.startswith "image/" mime = true.
Proof.
  destruct o as [m|]; simpl.
  - split.
    + intros H. apply andb_true_iff in H as [_ H]. by exists m.
    + intros (m' & [= <-] & H). rewrite H, andb_true_r.
      destruct m; [done|]. done.
  - split; [done|]. by intros (m & ? & _).
Qed.

(** C4.  [is_valid_image] applies three tiers in order: a blocked
    extension is refused whatever the guessed type is; otherwise a
    supported extension is accepted; otherwise the file is accepted exactly
    when the type guessed from its name begins with [image/]. *)
Theorem is_valid_image_three_tiers
    (guess_type : string → option string) (sep : ascii) (file_path : path) :
  let extension := Str.lstrip "." (Str.lower (Path.suffix file_path)) in
  let blocked :=
    ["html"; "json"; "js"; "py"; "ini"; "txt"; "rar"; "zip"; "7z";
     "gitignore"; "url"; "nomedia"; "exe"; "bat"; "cmd"; "sh"] in
  let supported := ["png"; "jpg"; "jpeg"; "gif"; "bmp"; "webp"; "avif"; "svg"] in
  (extension ∈ blocked →
     ImageValidator.is_valid_image guess_type sep file_path = false) ∧
  (extension ∉ blocked → extension ∈ supported →
     ImageValidator.is_valid_image guess_type sep file_path = true) ∧
  (extension ∉ blocked → extension ∉ supported →
     (ImageValidator.is_valid_image guess_type sep file_path = true ↔
      ∃ mime, guess_type (Path.str sep file_path) = Some mime ∧
              Str.startswith "image/" mime = true)).
Proof.
  intros extension blocked supported.
  unfold ImageValidator.is_valid_image.
  fold (ImageValidator.extension file_path). change (ImageValidator.extension file_path) with extension.
  assert (extension ∈ ImageValidator.BLOCKED_EXTENSIONS ↔ extension ∈ blocked) as Hb
    by apply elem_of_list_to_set.
  assert (extension ∈ ImageValidator.SUPPORTED_EXTENSIONS ↔ extension ∈ supported) as Hs
    by apply elem_of_list_to_set.
  repeat split.
  - intros H. rewrite bool_decide_eq_true_2; [done|by apply Hb].
  - intros H1 H2. rewrite bool_decide_eq_false_2 by (by rewrite Hb).
    rewrite bool_decide_eq_true_2; [done|by apply Hs].
  - rewrite bool_decide_eq_false_2 by (by rewrite Hb).
    rewrite bool_decide_eq_false_2 by (by rewrite Hs).
    intros Hm. apply is_image_mime_spec. by destruct (ImageValidator.is_image_mime _).
  - rewrite bool_decide_eq_false_2 by (by rewrite Hb).
    rewrite bool_decide_eq_false_2 by (by rewrite Hs).
    intros Hm. apply is_image_mime_spec in Hm. by rewrite Hm.
Qed.

(** A blocked extension wins over a guessed image type, and an unknown
    extension is accepted on the strength of the guess. *)
Example blocked_wins_over_guess :
  let guess := λ _ : string, Some "image/x-notes" in
  ImageValidator.is_valid_image guess "/" ["m"; "notes.TXT"] = false ∧
  ImageValidator.is_valid_image guess "/" ["m"; "scan.tiff"] = true ∧
  ImageValidator.is_valid_image no_guess "/" ["m"; "scan.tiff"] = false.
Proof. repeat split; reflexivity. Qed.

(** ** Windowed and eager output *)

Section MarkupFacts.
Import Html.

Lemma prefix_cons_ne (c d : ascii) (sub s : string) :
  c ≠ d → String.prefix (String d sub) (String c s) = false.
Proof. intros H. simpl. destruct (ascii_dec d c); [congruence|done]. Qed.

Lemma prefix_app_long (sub a t : string) :
  (String.length sub ≤ String.length a)%nat →
  String.prefix sub (a +:+ t) = String.prefix sub a.
Proof.
  revert a. induction sub as [|d sub IH]; intros a H.
  - destruct a; simpl; [by destruct t|done].
  - destruct a as [|c a]; simpl in *; [lia|].
    destruct (ascii_dec d c); [|done]. apply IH. lia.
Qed.

Lemma occurrences_app (sub a t : string) :
  closed_for sub a = true →
  occurrences sub (a +:+ t) = (occurrences sub a + occurrences sub t)%nat.
Proof.
  induction a as [|c a IH]; [done|]. intros H.
  simpl in H. apply andb_true_iff in H as [Hc Ha].
  change (String c a +:+ t) with (String c (a +:+ t)).
  cbn [occurrences]. rewrite IH by done.
  assert (String.prefix sub (String c (a +:+ t)) = String.prefix sub (String c a)) as ->;
    [|lia].
  apply orb_true_iff in Hc as [Hc|Hc].
  - apply Nat.leb_le in Hc. by apply (prefix_app_long sub (String c a) t).
  - destruct sub as [|d sub]; [done|]. apply negb_true_iff, Ascii.eqb_neq in Hc.
    by rewrite !prefix_cons_ne.
Qed.

Lemma occurrences_skip (d : ascii) (sub a t : string) :
  Str.forallb (λ c, negb (Ascii.eqb c d)) a = true →
  occurrences (String d sub) (a +:+ t) = occurrences (String d sub) t.
Proof.
  induction a as [|c a IH]; [done|]. intros H. simpl in H.
  apply andb_true_iff in H as [Hc Ha].
  change (String c a +:+ t) with (String c (a +:+ t)). cbn [occurrences].
  apply negb_true_iff, Ascii.eqb_neq in Hc.
  rewrite prefix_cons_ne by done. by rewrite IH.
Qed.

(** The decimal rendering of an integer holds digits and, at most, a
    sign. *)
Lemma of_Z_chars (n : Z) :
  Str.forallb (λ c, Str.is_digit c || Ascii.eqb c "-") (Str.of_Z n) = true.
Proof.
  assert (∀ d, Str.forallb (λ c, Str.is_digit c || Ascii.eqb c "-")
                 (NilEmpty.string_of_uint d) = true) as Hu
    by (induction d; simpl; done).
  assert (∀ d, Str.forallb (λ c, Str.is_digit c || Ascii.eqb c "-")
                 (NilZero.string_of_uint d) = true) as Hz
    by (intros [| | | | | | | | | |]; try apply Hu; done).
  unfold Str.of_Z. destruct (Z.to_int n); simpl; apply Hz.
Qed.

Lemma forallb_impl (p q : ascii → bool) (s : string) :
  (∀ c, p c = true → q c = true) →
  Str.forallb p s = true → Str.forallb q s = true.
Proof.
  intros H. induction s as [|c s IH]; simpl; [done|].
  intros Hs. apply andb_true_iff in Hs as [Hc Hs]. by rewrite (H c Hc), IH.
Qed.

Lemma of_Z_no_tag (n : Z) :
  Str.forallb (λ c, negb (Ascii.eqb c "<")) (Str.of_Z n) = true.
Proof.
  eapply forallb_impl; [|apply of_Z_chars].
  intros c. destruct c as [[] [] [] [] [] [] [] []]; done.
Qed.

Lemma str_app_assoc (a b c : string) : (a +:+ b) +:+ c = a +:+ (b +:+ c).
Proof.
  induction a as [|x a IH]; [done|].
  change (String x ((a +:+ b) +:+ c) = String x (a +:+ (b +:+ c))). by rewrite IH.
Qed.

(** The windowed reading area holds no image element, whatever the number
    of pages. *)
Lemma virtual_scroll_content_no_image (self : VirtualScrollMangaGenerator) :
  image_references (VirtualScroll._generate_virtual_scroll_content self) = O.
Proof.
  unfold VirtualScroll._generate_virtual_scroll_content, image_references.
  pose proof (of_Z_no_tag (total_pages (metadata self) * 800)) as Hh.
  set (height := Str.of_Z (total_pages (metadata self) * 800)) in *.
  set (spacer := _ +:+ height +:+ _).
  set (before :=
    Str.join VirtualScroll.newline
      [ "    <!-- Virtual Scroll Reading Area -->";
        markup "    <main class='reader-container' id='readerContainer'>";
        markup "        <div class='virtual-viewport' id='virtualViewport'>";
        "            <!-- Dynamic content rendered here -->";
        "        </div>" ] +:+ VirtualScroll.newline).
  set (after := VirtualScroll.newline +:+ "    </main>").
  assert (Str.join VirtualScroll.newline
      [ "    <!-- Virtual Scroll Reading Area -->";
        markup "    <main class='reader-container' id='readerContainer'>";
        markup "        <div class='virtual-viewport' id='virtualViewport'>";
        "            <!-- Dynamic content rendered here -->";
        "        </div>";
        spacer;
        "    </main>" ]
    = before +:+ spacer +:+ after) as ->.
  { subst before after. generalize spacer. intros line. vm_compute. reflexivity. }
  subst spacer. rewrite !str_app_assoc.
  rewrite occurrences_app by (vm_compute; reflexivity).
  rewrite occurrences_app by (vm_compute; reflexivity).
  rewrite occurrences_skip by exact Hh.
  vm_compute. reflexivity.
Qed.

End MarkupFacts.

(** The window that the script renders first, at the top of the page and
    for a window at most 797600 pixels high, holds fewer than 1001 pages. *)
Lemma first_window_below_total (viewport_height : Z) :
  0 ≤ viewport_height ≤ 797600 →
  (VirtualScroll.visible_range 1001 0 viewport_height).1 = 1 ∧
  (VirtualScroll.visible_range 1001 0 viewport_height).2 ≤ 1000.
Proof.
  intros H. unfold VirtualScroll.visible_range. simpl. split; [done|].
  assert (- 997 ≤ (- (0 + viewport_height)) / 800)
    by (apply Z.div_le_lower_bound; lia).
  lia.
Qed.

(** C5.  Without a requested mode the generator is windowed exactly when
    the collection has more than 1000 pages.  For a collection of 1001
    pages, windowed by request or by default, the reading area is made
    without an exception, it holds no image element, fewer than the 1001
    pages, and the page counter of the page shows 1001. *)
Theorem virtual_scroll_above_threshold :
  (∀ md, use_virtual_scroll (VirtualScroll.__init__ md None) = true ↔
         total_pages md > 1000) ∧
  (∀ guess_type sep tree title chapters base (by_request : bool),
     let md := {| title := title; chapters := chapters;
                  total_pages := 1001; base_path := base |} in
     let self := VirtualScroll.__init__ md (if by_request then Some true else None) in
     ∃ content,
       VirtualScroll._generate_reader_content guess_type sep self tree = inr content ∧
       use_virtual_scroll self = true ∧
       Z.of_nat (Html.image_references content) < total_pages md ∧
       Html.image_references content = O ∧
       total_pages (metadata self) = 1001 ∧
       VirtualScroll.contains (Html.markup "id='pageInfo'>1 / 1001</div>")
         (VirtualScroll._generate_navigation_head self) = true).
Proof.
  split.
  - intros md. unfold VirtualScroll.__init__. simpl. apply bool_decide_eq_true.
  - intros guess_type sep tree title chapters base by_request md self.
    assert (use_virtual_scroll self = true) as Huse
      by (destruct by_request; reflexivity).
    exists (VirtualScroll._generate_virtual_scroll_content self).
    set (content := VirtualScroll._generate_virtual_scroll_content self).
    assert (Html.image_references content = O) as Hcount
      by apply virtual_scroll_content_no_image.
    split; [unfold VirtualScroll._generate_reader_content; by rewrite Huse|].
    split; [done|]. split; [rewrite Hcount; simpl; lia|]. split; [done|].
    split; [by destruct by_request|].
    destruct by_request; vm_compute; reflexivity.
Qed.

(** ** Reader files *)

Lemma find_first {A : Type} (p : A → bool) (before after : list A) (x : A) :
  Forall (λ y, p y = false) before → p x = true →
  List.find p (before ++ x :: after) = Some x.
Proof.
  induction 1 as [|y before Hy _ IH]; intros Hx; simpl; [by rewrite Hx|].
  rewrite Hy. by apply IH.
Qed.

Lemma find_all_false {A : Type} (p : A → bool) (l : list A) :
  Forall (λ y, p y = false) l ↔ List.find p l = None.
Proof.
  induction l as [|y l IH]; simpl; [split; [done|constructor]|].
  destruct (p y) eqn:E.
  - split; [|done]. intros H. apply Forall_cons in H as [H _]. congruence.
  - rewrite Forall_cons, IH. split; [by intros [_ ?]|done].
Qed.

(** C6.  In a book folder the lookup returns the reference of the first
    name of the priority list that exists there; when none of them exists
    it returns the reference of the first entry of the folder whose suffix
    is [.html] in any case of letters; and it returns nothing exactly when
    none of the four names exists and no entry has that suffix. *)
Theorem find_reader_file_priority (sep : ascii) (fs : node) (base rel : path) :
  let folder := base ++ rel in
  let result := ReaderFileFinder.find_reader_file sep fs folder base in
  let reference := λ file, Emitted.src_path sep base (folder ++ [file]) in
  let present := λ file, FS.exists_ fs (folder ++ [file]) in
  let is_html := λ file,
    String.eqb (Str.lower (Path.suffix (folder ++ [file]))) ".html" in
  let entries := default [] (FS.listdir fs folder) in
  ReaderFileFinder.READER_PRIORITIES
  = ["index-mb-virtualscroll.html"; "index-mb.html"; "index.html"; "index-mobile.html"] ∧
  (∀ before file after,
     ReaderFileFinder.READER_PRIORITIES = before ++ file :: after →
     Forall (λ earlier, present earlier = false) before →
     present file = true →
     result = Some (reference file)) ∧
  (Forall (λ file, present file = false) ReaderFileFinder.READER_PRIORITIES →
   ∀ before file after,
     entries = before ++ file :: after →
     Forall (λ earlier, is_html earlier = false) before →
     is_html file = true →
     result = Some (reference file)) ∧
  (result = None ↔
   Forall (λ file, present file = false) ReaderFileFinder.READER_PRIORITIES ∧
   Forall (λ file, is_html file = false) entries).
Proof.
  intros folder result reference present is_html entries.
  split; [reflexivity|]. subst result reference. unfold ReaderFileFinder.find_reader_file.
  fold folder. change (λ priority_file, FS.exists_ fs (folder ++ [priority_file])) with present.
  change (λ file, String.eqb (Str.lower (Path.suffix (folder ++ [file]))) ".html")
    with is_html.
  clearbody present is_html. split; [|split].
  - intros before file after Hl Hb Hf. rewrite Hl.
    by rewrite (find_first present before after file).
  - intros Hnone before file after Hl Hb Hf.
    apply (find_all_false present) in Hnone. rewrite Hnone.
    subst entries. destruct (FS.listdir fs folder) as [names|]; simpl in Hl.
    + rewrite Hl. by rewrite (find_first is_html before after file).
    + by destruct before.
  - destruct (List.find present _) eqn:Ep.
    + split; [done|]. intros [H _]. apply (find_all_false present) in H. congruence.
    + apply (find_all_false present) in Ep. subst entries.
      destruct (FS.listdir fs folder) as [names|]; simpl.
      * destruct (List.find is_html names) eqn:Eh.
        -- split; [done|]. intros [_ H]. apply (find_all_false is_html) in H. congruence.
        -- apply (find_all_false is_html) in Eh. done.
      * split; [|done]. intros _. split; [done|constructor].
Qed.

(** ** Missing and invalid root paths *)

Lemma is_dir_exists (fs : node) (p : path) :
  FS.is_dir fs p = true → FS.exists_ fs p = true.
Proof.
  unfold FS.is_dir, FS.exists_. by destruct (FS.lookup fs p) as [[|]|].
Qed.

Lemma reader_init_rejects (env : environment) (fs : node) (typed : string) :
  FS.is_dir fs (resolve env typed) = false →
  ∃ message,
    (MangaReaderGenerator.__init__ env fs typed = inl (FileNotFoundError message) ∧
     FS.exists_ fs (resolve env typed) = false) ∨
    (MangaReaderGenerator.__init__ env fs typed = inl (NotADirectoryError message) ∧
     FS.exists_ fs (resolve env typed) = true).
Proof.
  intros Hd. unfold MangaReaderGenerator.__init__.
  destruct (FS.exists_ fs (resolve env typed)); simpl.
  - rewrite Hd. simpl. eexists. right. done.
  - eexists. left. done.
Qed.

Lemma shelf_init_rejects (env : environment) (fs : node) (typed : string)
    (readers : bool) (output : string) (metrics : bool) :
  FS.is_dir fs (resolve env typed) = false →
  ∃ message,
    (BookshelfGenerator.__init__ env fs typed readers output metrics
     = inl (FileNotFoundError message) ∧
     FS.exists_ fs (resolve env typed) = false) ∨
    (BookshelfGenerator.__init__ env fs typed readers output metrics
     = inl (NotADirectoryError message) ∧
     FS.exists_ fs (resolve env typed) = true).
Proof.
  intros Hd. unfold BookshelfGenerator.__init__. simpl.
  destruct (FS.exists_ fs (resolve env typed)); simpl.
  - rewrite Hd. simpl. eexists. right. done.
  - eexists. left. done.
Qed.

(** C7.  A path that does not exist makes the construction of either
    generator fail with [FileNotFoundError], and a path that exists without
    being a directory makes it fail with [NotADirectoryError]; a directory
    is accepted.  In either loop the turn for such a path prints the error
    and goes on to the next typed path with the file system as it was:
    nothing is scanned and nothing is written. *)
Theorem missing_root_rejected_before_output (env : environment) (fs : node) :
  (∀ typed readers output metrics,
     FS.exists_ fs (resolve env typed) = false →
     (∃ message,
        MangaReaderGenerator.__init__ env fs typed = inl (FileNotFoundError message)) ∧
     (∃ message,
        BookshelfGenerator.__init__ env fs typed readers output metrics
        = inl (FileNotFoundError message))) ∧
  (∀ typed readers output metrics,
     FS.exists_ fs (resolve env typed) = true →
     FS.is_dir fs (resolve env typed) = false →
     (∃ message,
        MangaReaderGenerator.__init__ env fs typed = inl (NotADirectoryError message)) ∧
     (∃ message,
        BookshelfGenerator.__init__ env fs typed readers output metrics
        = inl (NotADirectoryError message))) ∧
  (∀ typed,
     FS.is_dir fs (resolve env typed) = true →
     MangaReaderGenerator.__init__ env fs typed = inr (resolve env typed)) ∧
  (∀ line rest printed,
     let typed :=
       Str.strip MangaReaderGenerator.quotes (Str.strip Str.whitespace line) in
     Str.strip Str.whitespace line ≠ "" →
     FS.is_dir fs (resolve env typed) = false →
     ∃ message,
       MangaReaderGenerator.main env (line :: rest) fs printed
       = MangaReaderGenerator.main env rest fs
           (printed ++ ["Error: " +:+ message; MangaReaderGenerator.rule])) ∧
  (∀ generate line answer1 answer2 rest printed,
     let typed :=
       Str.strip MangaReaderGenerator.quotes (Str.strip Str.whitespace line) in
     Str.strip Str.whitespace line ≠ "" →
     FS.is_dir fs (resolve env typed) = false →
     ∃ message,
       BookshelfGenerator.main env generate (line :: answer1 :: answer2 :: rest)
         fs printed
       = BookshelfGenerator.main env generate rest fs
           (printed ++ ["Error: " +:+ message])).
Proof.
  split; [|split; [|split; [|split]]].
  - intros typed readers output metrics H. split.
    + unfold MangaReaderGenerator.__init__. rewrite H. by eexists.
    + unfold BookshelfGenerator.__init__. simpl. rewrite H. by eexists.
  - intros typed readers output metrics H H0. split.
    + unfold MangaReaderGenerator.__init__. rewrite H, H0. by eexists.
    + unfold BookshelfGenerator.__init__. simpl. rewrite H, H0. by eexists.
  - intros typed Hd. unfold MangaReaderGenerator.__init__.
    by rewrite (is_dir_exists _ _ Hd), Hd.
  - intros line rest printed typed Hne Hd. simpl.
    apply String.eqb_neq in Hne. rewrite Hne. fold typed.
    destruct (reader_init_rejects env fs typed Hd) as (m & [[-> _]|[-> _]]);
      by exists m.
  - intros generate line answer1 answer2 rest printed typed Hne Hd.
    cbn [BookshelfGenerator.main]. unfold BookshelfGenerator.turn.
    apply String.eqb_neq in Hne. rewrite Hne. fold typed.
    destruct (shelf_init_rejects env fs typed
                (negb (String.eqb (Str.lower (Str.strip Str.whitespace answer1)) "n"))
                (match Str.strip Str.whitespace answer2 with
                 | EmptyString => "index.html"
                 | name => name
                 end) true Hd) as (m & [[-> _]|[-> _]]); by exists m.
Qed.

(** ** Writing files *)

Lemma entry_set_entry (k : string) (v : node) (es : list (string * node)) :
  FS.entry k (FS.set_entry k v es) = Some v.
Proof.
  induction es as [|[k' v'] es IH]; simpl.
  - by rewrite String.eqb_refl.
  - destruct (String.eqb k' k) eqn:E; simpl; [by rewrite String.eqb_refl|].
    by rewrite E.
Qed.

Lemma entry_set_entry_ne (k k' : string) (v : node) (es : list (string * node)) :
  k ≠ k' → FS.entry k' (FS.set_entry k v es) = FS.entry k' es.
Proof.
  intros Hne. induction es as [|[k0 v0] es IH]; simpl.
  - by rewrite (proj2 (String.eqb_neq k k')).
  - destruct (String.eqb k0 k) eqn:E; simpl.
    + apply String.eqb_eq in E as ->. by rewrite (proj2 (String.eqb_neq k k')).
    + by rewrite IH.
Qed.

(** A file that has been written holds what was written. *)
Lemma lookup_write (n n' : node) (p : path) (content : string) :
  FS.write n p content = Some n' → FS.lookup n' p = Some (File content).
Proof.
  revert n n'. induction p as [|k p IH]; intros n n'; simpl.
  - destruct n; [|done]. by intros [= <-].
  - destruct n as [|es]; [done|]. destruct (FS.entry k es) as [v|] eqn:E.
    + destruct (FS.write v p content) as [v'|] eqn:W; [|done]. intros [= <-].
      rewrite entry_set_entry. by apply (IH v).
    + destruct p; [|done]. intros [= <-]. by rewrite entry_set_entry.
Qed.

(** Writing a file leaves alone whatever lies neither at, nor above, nor
    below its path. *)
Lemma lookup_write_other (n n' : node) (p q : path) (content : string) :
  FS.write n p content = Some n' →
  (∀ r, q ≠ p ++ r) → (∀ r, p ≠ q ++ r) →
  FS.lookup n' q = FS.lookup n q.
Proof.
  revert n n' q. induction p as [|k p IH]; intros n n' q Hw Hq Hp.
  - by destruct (Hq q).
  - destruct q as [|k' q]; [by destruct (Hp (k :: p))|].
    simpl in Hw. destruct n as [|es]; [done|]. simpl.
    destruct (decide (k = k')) as [<-|Hne].
    + assert (∀ r, q ≠ p ++ r) as Hq' by (intros r ->; by apply (Hq r)).
      assert (∀ r, p ≠ q ++ r) as Hp' by (intros r ->; by apply (Hp r)).
      destruct (FS.entry k es) as [v|] eqn:E.
      * destruct (FS.write v p content) as [v'|] eqn:W; [|done].
        injection Hw as <-. rewrite entry_set_entry. by apply (IH v).
      * destruct p; [|done]. injection Hw as <-. rewrite entry_set_entry.
        destruct q; [by destruct (Hq' [])|done].
    + destruct (FS.entry k es) as [v|] eqn:E.
      * destruct (FS.write v p content) as [v'|] eqn:W; [|done].
        injection Hw as <-. by rewrite entry_set_entry_ne.
      * destruct p; [|done]. injection Hw as <-. by rewrite entry_set_entry_ne.
Qed.

(** A file can be written in a directory under any name that is not the
    name of a sub-directory. *)
Lemma write_in_directory (n : node) (folder : path) (k content : string) :
  FS.is_dir n folder = true → FS.is_dir n (folder ++ [k]) = false →
  is_Some (FS.write n (folder ++ [k]) content).
Proof.
  unfold FS.is_dir. revert n. induction folder as [|f folder IH]; intros n; simpl.
  - destruct n as [|es]; [done|]. intros _.
    destruct (FS.entry k es) as [[c|es']|]; simpl; by eauto.
  - destruct n as [|es]; [done|]. destruct (FS.entry f es) as [v|] eqn:E; [|done].
    intros H1 H2. destruct (IH v H1 H2) as [v' ->]. by eauto.
Qed.

(** ** The reader for large collections *)

Lemma sibling_not_prefix (folder : path) (a b : string) :
  a ≠ b →
  (∀ r, folder ++ [a] ≠ (folder ++ [b]) ++ r) ∧
  (∀ r, folder ++ [b] ≠ (folder ++ [a]) ++ r).
Proof.
  intros Hne. split; intros r H; rewrite <- app_assoc in H;
    apply app_inv_head in H; simpl in H; congruence.
Qed.

Lemma copy_template (fs : node) (folder : path) (template content : string) :
  template ≠ "index-mb-virtualscroll.html" →
  FS.lookup fs (folder ++ [template]) = Some (File content) →
  FS.is_dir fs (folder ++ ["index-mb-virtualscroll.html"]) = false →
  ∃ fs',
    ProgressiveReader.copy2 fs (folder ++ [template])
      (folder ++ ["index-mb-virtualscroll.html"]) = Some fs' ∧
    FS.lookup fs' (folder ++ ["index-mb-virtualscroll.html"]) = Some (File content) ∧
    FS.lookup fs' (folder ++ [template]) = Some (File content).
Proof.
  intros Hne Ht Ho. unfold ProgressiveReader.copy2. rewrite Ht, Ho.
  assert (FS.is_dir fs folder = true) as Hd.
  { unfold FS.is_dir. clear Ho. revert fs Ht.
    induction folder as [|f folder IH]; intros fs; simpl.
    - destruct fs; [done|done].
    - destruct fs as [|es]; [done|]. destruct (FS.entry f es); [apply IH|done]. }
  destruct (write_in_directory fs folder "index-mb-virtualscroll.html" content Hd Ho)
    as [fs' Hw].
  exists fs'. split; [done|]. split; [by apply (lookup_write fs)|].
  rewrite (lookup_write_other fs fs' _ (folder ++ [template]) content Hw); [done| |];
    by apply sibling_not_prefix.
Qed.

(** C9.  [create_virtual_scroll_reader] only runs
    [create_progressive_reader]: when the book folder holds the file
    manga-reader-fix.html, or else the file index-mb.html, that file is
    copied to index-mb-virtualscroll.html, which then holds the same
    content, and the path of the copy is returned; when the folder holds
    neither name the file system is left as it was and the failure is
    raised as a [RuntimeError]. *)
Theorem virtual_scroll_reader_is_a_copy (fs : node) (folder : path) :
  let output := folder ++ ["index-mb-virtualscroll.html"] in
  let fix_reader := folder ++ ["manga-reader-fix.html"] in
  let mobile_reader := folder ++ ["index-mb.html"] in
  (∀ content,
     FS.lookup fs fix_reader = Some (File content) →
     FS.is_dir fs output = false →
     ∃ fs',
       ProgressiveReader.create_progressive_reader fs folder = (fs', true) ∧
       ProgressiveReader.create_virtual_scroll_reader fs folder = (fs', inr output) ∧
       FS.lookup fs' output = Some (File content) ∧
       FS.lookup fs' fix_reader = Some (File content)) ∧
  (∀ content,
     FS.exists_ fs fix_reader = false →
     FS.lookup fs mobile_reader = Some (File content) →
     FS.is_dir fs output = false →
     ∃ fs',
       ProgressiveReader.create_progressive_reader fs folder = (fs', true) ∧
       ProgressiveReader.create_virtual_scroll_reader fs folder = (fs', inr output) ∧
       FS.lookup fs' output = Some (File content) ∧
       FS.lookup fs' mobile_reader = Some (File content)) ∧
  (FS.exists_ fs fix_reader = false →
   FS.exists_ fs mobile_reader = false →
   ProgressiveReader.create_progressive_reader fs folder = (fs, false) ∧
   ∃ message,
     ProgressiveReader.create_virtual_scroll_reader fs folder
     = (fs, inl (RuntimeError message))).
Proof.
  intros output fix_reader mobile_reader.
  assert (∀ p k c, FS.lookup fs (p ++ [k]) = Some c → FS.exists_ fs p = true) as Hparent.
  { intros p k c. unfold FS.exists_. generalize fs.
    induction p as [|f p IH]; intros n; simpl; [done|].
    destruct n as [|es]; [done|]. destruct (FS.entry f es); [apply IH|done]. }
  split; [|split].
  - intros content Ht Ho.
    destruct (copy_template fs folder "manga-reader-fix.html" content)
      as (fs' & Hc & H1 & H2); [done|done|done|].
    exists fs'.
    assert (ProgressiveReader.create_progressive_reader fs folder = (fs', true)) as Hp.
    { unfold ProgressiveReader.create_progressive_reader.
      rewrite (Hparent folder _ _ Ht). simpl.
      fold fix_reader. unfold FS.exists_ at 1. rewrite Ht. simpl.
      unfold fix_reader. by rewrite Hc. }
    split; [done|]. split; [|done].
    unfold ProgressiveReader.create_virtual_scroll_reader, ProgressiveReader.run_script.
    by rewrite Hp.
  - intros content Hf Ht Ho.
    destruct (copy_template fs folder "index-mb.html" content)
      as (fs' & Hc & H1 & H2); [done|done|done|].
    exists fs'.
    assert (ProgressiveReader.create_progressive_reader fs folder = (fs', true)) as Hp.
    { unfold ProgressiveReader.create_progressive_reader.
      rewrite (Hparent folder _ _ Ht). simpl.
      fold fix_reader mobile_reader. rewrite Hf.
      unfold FS.exists_ at 1. rewrite Ht. simpl.
      unfold mobile_reader. by rewrite Hc. }
    split; [done|]. split; [|done].
    unfold ProgressiveReader.create_virtual_scroll_reader, ProgressiveReader.run_script.
    by rewrite Hp.
  - intros Hf Hm.
    assert (ProgressiveReader.create_progressive_reader fs folder = (fs, false)) as Hp.
    { unfold ProgressiveReader.create_progressive_reader.
      fold fix_reader mobile_reader. rewrite Hf, Hm.
      by destruct (negb (FS.exists_ fs folder)). }
    split; [done|].
    unfold ProgressiveReader.create_virtual_scroll_reader, ProgressiveReader.run_script.
    rewrite Hp. by eexists.
Qed.

(** ** The emission loop of htmlc.py *)

Lemma split_nonempty (c : ascii) (s : string) : Str.split c s ≠ [].
Proof.
  induction s as [|d s IH]; simpl; [done|].
  destruct (Ascii.eqb c d); [done|]. by destruct (Str.split c s).
Qed.

(** The index 1 is out of range exactly for a string without the
    separator. *)
Lemma second_split_None (c : ascii) (s : string) :
  Htmlc.second (Str.split c s) = None ↔ Str.contains_char c s = false.
Proof.
  unfold Htmlc.second, Str.contains_char.
  induction s as [|d s IH]; simpl; [done|].
  destruct (Ascii.eqb c d); simpl.
  - pose proof (split_nonempty c s). destruct (Str.split c s); [done|]. simpl. done.
  - pose proof (split_nonempty c s). destruct (Str.split c s) as [|w ws]; [done|].
    simpl in *. exact IH.
Qed.

Lemma split_no_separator (c : ascii) (s : string) :
  Str.contains_char c s = false → Str.split c s = [s].
Proof.
  unfold Str.contains_char. induction s as [|d s IH]; simpl; [done|].
  destruct (Ascii.eqb c d); simpl; [done|]. intros H. by rewrite IH.
Qed.

Lemma split_at_separator (c : ascii) (a t : string) :
  Str.contains_char c a = false →
  Str.split c (a +:+ String c t) = a :: Str.split c t.
Proof.
  unfold Str.contains_char. induction a as [|d a IH]; simpl.
  - intros _. change (EmptyString +:+ String c t) with (String c t). simpl.
    by rewrite Ascii.eqb_refl.
  - destruct (Ascii.eqb c d) eqn:E; simpl; [done|]. intros H.
    change (String d a +:+ String c t) with (String d (a +:+ String c t)).
    simpl. rewrite ?E. by rewrite IH.
Qed.

(** The run ends with [IndexError] as soon as one scanned path holds no
    dot. *)
Lemma emission_loop_raises (slpath : string) (files written printed : list string) :
  Exists (λ img, Str.contains_char "." img = false) files →
  Htmlc.emission_loop slpath files written printed = inl IndexError.
Proof.
  intros H. revert written printed.
  induction H as [img rest Himg|img rest _ IH]; intros written printed; simpl.
  - apply second_split_None in Himg. by rewrite Himg.
  - destruct (Htmlc.second (Str.split "." img)) as [ext|]; [|done].
    destruct (negb (String.eqb ext "html") && negb (String.eqb ext "json"));
      [destruct (negb (String.eqb ext "png") && negb (String.eqb ext "jpg"))|];
      apply IH.
Qed.

Lemma emission_loop_returns (slpath : string) (files written printed : list string) :
  Forall (λ img, Str.contains_char "." img = true) files →
  ∃ written' printed',
    Htmlc.emission_loop slpath files written printed = inr (written', printed').
Proof.
  intros H. revert written printed.
  induction H as [|img rest Himg _ IH]; intros written printed; simpl; [by eauto|].
  destruct (Htmlc.second (Str.split "." img)) as [ext|] eqn:E.
  - destruct (negb (String.eqb ext "html") && negb (String.eqb ext "json"));
      [destruct (negb (String.eqb ext "png") && negb (String.eqb ext "jpg"))|];
      apply IH.
  - apply second_split_None in E. congruence.
Qed.

(** C10.  The loop classifies a file by the part of its full path between
    the first dot and the second one, or the end, whatever follows: the
    file is written as an image unless that part is [html] or [json].  A
    scanned path without a dot makes the index access raise [IndexError],
    which ends the run whatever the other files are; with a dot in every
    path the loop ends normally. *)
Theorem emission_loop_classifies_by_first_dot (slpath : string) :
  (∀ a b rest,
     Str.contains_char "." a = false → Str.contains_char "." b = false →
     ∀ img, img = a +:+ String "." b ∨ img = a +:+ String "." (b +:+ String "." rest) →
     Htmlc.second (Str.split "." img) = Some b ∧
     (b ≠ "html" → b ≠ "json" →
      ∃ printed,
        Htmlc.emission_loop slpath [img] [] []
        = inr ([Html.markup "<img src='" +:+ Htmlc.reference slpath img
                +:+ Html.markup "' class='image-item'/>"], printed)) ∧
     (b = "html" ∨ b = "json" →
      Htmlc.emission_loop slpath [img] [] [] = inr ([], []))) ∧
  (∀ img, Htmlc.second (Str.split "." img) = None ↔ Str.contains_char "." img = false) ∧
  (∀ files written printed,
     Exists (λ img, Str.contains_char "." img = false) files →
     Htmlc.emission_loop slpath files written printed = inl IndexError) ∧
  (∀ files written printed,
     Forall (λ img, Str.contains_char "." img = true) files →
     ∃ written' printed',
       Htmlc.emission_loop slpath files written printed = inr (written', printed')).
Proof.
  split; [|split; [|split]].
  - intros a b rest Ha Hb img Himg.
    assert (Htmlc.second (Str.split "." img) = Some b) as Hsecond.
    { destruct Himg as [-> | ->]; rewrite split_at_separator by done.
      - by rewrite split_no_separator.
      - by rewrite split_at_separator. }
    split; [done|]. split.
    + intros H1 H2. simpl. rewrite Hsecond.
      rewrite (proj2 (String.eqb_neq b "html")), (proj2 (String.eqb_neq b "json")) by done.
      simpl. destruct (negb (String.eqb b "png") && negb (String.eqb b "jpg"));
        by eexists.
    + intros H. simpl. rewrite Hsecond. by destruct H as [-> | ->].
  - intros img. apply second_split_None.
  - intros files written printed. apply emission_loop_raises.
  - intros files written printed. apply emission_loop_returns.
Qed.

(** The folder typed as C:\m holds the file README: the run ends with
    [IndexError].  In the folder C:\my.manga every file is classified by
    the part [manga\...] of its path, so that index.html is written as an
    image. *)
Example htmlc_runs :
  let fs :=
    Dir [("C:", Dir [("m", Dir [("001.png", File ""); ("README", File "")]);
                     ("my.manga", Dir [("a.png", File ""); ("index.html", File "")])])] in
  Htmlc.run Htmlc.Windows 10 fs "C:\m" = Some (inl IndexError) ∧
  ∃ printed,
    Htmlc.run Htmlc.Windows 10 fs "C:\my.manga"
    = Some (inr ([Html.markup "<img src='a.png' class='image-item'/>";
                  Html.markup "<img src='index.html' class='image-item'/>"], printed)).
Proof. split; [reflexivity|]. eexists. vm_compute. reflexivity. Qed.

(** ** Emitted paths *)

Section EmittedFacts.

Lemma prefix_empty (s : string) : String.prefix "" s = true.
Proof. by destruct s. Qed.

Lemma forallb_app (p : ascii → bool) (a b : string) :
  Str.forallb p (a +:+ b) = Str.forallb p a && Str.forallb p b.
Proof.
  induction a as [|c a IH]; [done|].
  change (String c a +:+ b) with (String c (a +:+ b)). simpl.
  by rewrite IH, andb_assoc.
Qed.

(** Replacing brings in no character that is neither in the string nor in
    the replacement. *)
Lemma replace_from_forallb (p : ascii → bool) (old new : string) (k : nat) (s : string) :
  Str.forallb p new = true → Str.forallb p s = true →
  Str.forallb p (Str.replace_from old new k s) = true.
Proof.
  intros Hnew. revert k. induction s as [|c s IH]; intros k Hs; [done|].
  simpl in Hs. apply andb_true_iff in Hs as [Hc Hs].
  cbn [Str.replace_from]. destruct k as [|k]; [|by apply IH].
  destruct (String.prefix old (String c s)).
  - rewrite forallb_app, Hnew. simpl. by apply IH.
  - cbn [Str.forallb]. rewrite Hc. simpl. by apply IH.
Qed.

(** Replacing a character by a string without it leaves none of it. *)
Lemma replace_char_gone (c : ascii) (new s : string) :
  Str.forallb (λ d, negb (Ascii.eqb c d)) new = true →
  Str.forallb (λ d, negb (Ascii.eqb c d)) (Str.replace (String c "") new s) = true.
Proof.
  intros Hnew. unfold Str.replace. induction s as [|d s IH]; [done|].
  cbn [Str.replace_from]. cbn [String.prefix]. rewrite prefix_empty.
  destruct (ascii_dec c d) as [->|Hne].
  - rewrite forallb_app, Hnew. exact IH.
  - simpl. rewrite IH, andb_true_r. by apply negb_true_iff, Ascii.eqb_neq.
Qed.

Lemma contains_char_forallb (c : ascii) (s : string) :
  Str.contains_char c s = negb (Str.forallb (λ d, negb (Ascii.eqb c d)) s).
Proof.
  unfold Str.contains_char. induction s as [|d s IH]; simpl; [done|].
  rewrite IH. by destruct (Ascii.eqb c d), (Str.forallb _ s).
Qed.

(** No reference of the three newer scripts holds a backslash. *)
Lemma src_path_no_backslash (sep : ascii) (base p : path) :
  Str.contains_char "\" (Emitted.src_path sep base p) = false.
Proof.
  rewrite contains_char_forallb. apply negb_false_iff.
  unfold Emitted.src_path. by apply replace_char_gone.
Qed.

Lemma toLeftSlash_no_backslash (s : string) :
  Str.contains_char "\" (Htmlc.toLeftSlash s) = false.
Proof.
  rewrite contains_char_forallb. apply negb_false_iff.
  unfold Htmlc.toLeftSlash, Str.replace at 1.
  apply replace_from_forallb; [done|]. by apply replace_char_gone.
Qed.

(** No reference of htmlc.py holds a backslash. *)
Lemma reference_no_backslash (slpath img : string) :
  Str.contains_char "\" (Htmlc.reference slpath img) = false.
Proof.
  rewrite contains_char_forallb. apply negb_false_iff.
  unfold Htmlc.reference, Str.replace. apply replace_from_forallb; [done|].
  pose proof (toLeftSlash_no_backslash img) as H.
  rewrite contains_char_forallb in H. by apply negb_false_iff in H.
Qed.

Lemma str_app_nil_r (s : string) : s +:+ "" = s.
Proof.
  induction s as [|c s IH]; [done|].
  change (String c (s +:+ "") = String c s). by rewrite IH.
Qed.

Lemma replace_char_app (c : ascii) (new a b : string) :
  Str.replace (String c "") new (a +:+ b)
  = Str.replace (String c "") new a +:+ Str.replace (String c "") new b.
Proof.
  unfold Str.replace. induction a as [|d a IH]; [done|].
  change (String d a +:+ b) with (String d (a +:+ b)).
  cbn [Str.replace_from String.prefix String.length Nat.sub].
  rewrite !prefix_empty, IH. destruct (ascii_dec c d); [by rewrite str_app_assoc|done].
Qed.

Lemma replace_char_absent (c : ascii) (new s : string) :
  Str.contains_char c s = false → Str.replace (String c "") new s = s.
Proof.
  unfold Str.replace, Str.contains_char. induction s as [|d s IH]; [done|].
  cbn [Str.replace_from String.prefix Str.existsb]. rewrite prefix_empty.
  destruct (ascii_dec c d) as [->|Hne].
  - by rewrite Ascii.eqb_refl.
  - rewrite (proj2 (Ascii.eqb_neq c d)) by done. simpl. intros H. by rewrite IH.
Qed.

(** On either host the reference of a path whose names hold no backslash
    is the names joined by slashes. *)
Lemma replace_join (sep : ascii) (rel : path) :
  sep = "/"%char ∨ sep = "\"%char →
  Forall (λ k, Str.contains_char "\" k = false) rel →
  Str.replace "\" "/" (Str.join (String sep "") rel) = Str.join "/" rel.
Proof.
  intros Hsep. induction 1 as [|k rel Hk _ IH]; [done|].
  destruct rel as [|k' rel]; [by apply replace_char_absent|].
  change (Str.join ?s (k :: k' :: rel)) with (k +:+ s +:+ Str.join s (k' :: rel)).
  rewrite !replace_char_app, IH, replace_char_absent by done.
  by destruct Hsep as [-> | ->].
Qed.

Lemma split_join (rel : path) :
  rel ≠ [] → Forall (λ k, Str.contains_char "/" k = false) rel →
  Str.split "/" (Str.join "/" rel) = rel.
Proof.
  intros Hne. induction 1 as [|k rel Hk _ IH]; [done|].
  destruct rel as [|k' rel]; [by apply split_no_separator|].
  change (Str.join ?s (k :: k' :: rel)) with (k +:+ s +:+ Str.join s (k' :: rel)).
  change (k +:+ "/" +:+ ?t) with (k +:+ String "/" t).
  rewrite split_at_separator by done. by rewrite IH.
Qed.

Lemma relative_path_below (base rel : path) :
  Emitted.relative_path base (base ++ rel) = rel.
Proof.
  unfold Emitted.relative_path. pose proof (relative_to_app base rel []) as H.
  rewrite app_nil_r in H. rewrite H. by destruct rel.
Qed.

Lemma proper_name_spec (k : string) :
  FS.proper_name k = true →
  k ≠ ".." ∧ Str.contains_char "/" k = false ∧ Str.contains_char "\" k = false.
Proof.
  unfold FS.proper_name. rewrite !andb_true_iff, !negb_true_iff.
  intros [[[[_ _] H] ?] ?]. by apply String.eqb_neq in H.
Qed.

(** The reference of a file below the base directory, all the names on
    the way being proper: the names joined by slashes, which are its
    segments, none of them the parent entry. *)
Lemma src_path_proper (sep : ascii) (base rel : path) :
  sep = "/"%char ∨ sep = "\"%char →
  rel ≠ [] → Forall (λ k, FS.proper_name k = true) rel →
  Emitted.src_path sep base (base ++ rel) = Str.join "/" rel ∧
  Emitted.segments (Emitted.src_path sep base (base ++ rel)) = rel ∧
  ".." ∉ Emitted.segments (Emitted.src_path sep base (base ++ rel)).
Proof.
  intros Hsep Hne Hrel.
  assert (Emitted.src_path sep base (base ++ rel) = Str.join "/" rel) as ->.
  { unfold Emitted.src_path. rewrite relative_path_below. apply replace_join; [done|].
    eapply Forall_impl; [exact Hrel|]. intros k Hk.
    by apply proper_name_spec in Hk as (_ & _ & ?). }
  assert (Emitted.segments (Str.join "/" rel) = rel) as ->.
  { apply split_join; [done|].
    eapply Forall_impl; [exact Hrel|]. intros k Hk.
    by apply proper_name_spec in Hk as (_ & ? & _). }
  split; [done|]. split; [done|]. intros Hin.
  rewrite Forall_forall in Hrel. by apply Hrel, proper_name_spec in Hin as (? & _ & _).
Qed.

Lemma names_ok_Dir (ok : string → bool) (es : list (string * node)) :
  FS.names_ok ok (Dir es)
  = List.forallb (λ e, ok e.1 && FS.names_ok ok e.2) es.
Proof.
  simpl. induction es as [|[k v] es IH]; simpl; [done|]. by rewrite IH.
Qed.

Lemma names_ok_entry (ok : string → bool) (es : list (string * node)) (k : string)
    (v : node) :
  FS.names_ok ok (Dir es) = true → (k, v) ∈ es →
  ok k = true ∧ FS.names_ok ok v = true.
Proof.
  rewrite names_ok_Dir, forallb_forall. intros H Hin.
  apply list_elem_of_In in Hin. by apply H, andb_true_iff in Hin.
Qed.

(** The walk of a tree with good names visits directories, and reports
    files, with good names. *)
Lemma walk_names (ok : string → bool) (n : node) (base r : path) (ds fs : list string) :
  FS.names_ok ok n = true →
  (r, ds, fs) ∈ FS.walk base n →
  ∃ rel, r = base ++ rel ∧ Forall (λ k, ok k = true) rel ∧
         Forall (λ k, ok k = true) fs.
Proof.
  revert base r ds fs. induction n as [c|es IH] using node_induction;
    intros base r ds fs Hok Hin.
  - by apply elem_of_nil in Hin.
  - rewrite walk_Dir in Hin. apply elem_of_cons in Hin as [[= -> -> ->]|Hin].
    + exists []. rewrite app_nil_r. split; [done|]. split; [constructor|].
      apply Forall_forall. intros k Hk.
      apply list_elem_of_fmap in Hk as ([k' v] & -> & Hk).
      apply list_elem_of_filter in Hk as [_ Hk].
      by apply (names_ok_entry ok es k' v) in Hk as [? _].
    + apply list_elem_of_In, in_flat_map in Hin as ([k v] & Hkv & Hin).
      apply list_elem_of_In in Hkv, Hin. simpl in Hin.
      rewrite Forall_forall in IH.
      destruct (names_ok_entry ok es k v Hok Hkv) as [Hk Hv].
      destruct (IH (k, v) Hkv (base ++ [k]) r ds fs Hv Hin) as (rel & -> & Hrel & Hfs).
      exists (k :: rel). rewrite <- app_assoc. split; [done|].
      split; [by constructor|done].
Qed.

(** Every image of the reading area lies below the base directory, under
    names of the tree. *)
Lemma all_images_names (ok : string → bool) (guess_type : string → option string)
    (sep : ascii) (base : path) (tree : node) (img : path) :
  FS.names_ok ok tree = true →
  img ∈ MangaHTMLGenerator.all_images guess_type sep base tree →
  ∃ rel, rel ≠ [] ∧ img = base ++ rel ∧ Forall (λ k, ok k = true) rel.
Proof.
  intros Hok Hin. unfold MangaHTMLGenerator.all_images in Hin.
  apply list_elem_of_In, in_flat_map in Hin as ([[r ds] fs] & Hr & Hin).
  apply filter_In in Hin as [Hin _]. apply in_map_iff in Hin as (file & <- & Hfile).
  apply list_elem_of_In in Hr, Hfile.
  destruct (walk_names ok tree base r ds fs Hok Hr) as (rel & -> & Hrel & Hfs).
  exists (rel ++ [file]). unfold Path.join. rewrite <- app_assoc.
  split; [by destruct rel|]. split; [done|].
  apply Forall_app. split; [done|]. constructor; [|constructor].
  rewrite Forall_forall in Hfs. by apply Hfs.
Qed.

Lemma group_by_chapter_elem (determine : path → Z) (images : list path)
    (n : Z) (l : list path) (x : path) :
  MangaHTMLGenerator.group_by_chapter determine images !! n = Some l →
  x ∈ l → x ∈ images.
Proof.
  unfold MangaHTMLGenerator.group_by_chapter.
  assert (∀ (m : gmap Z (list path)) (seen : list path),
            (∀ n l x, m !! n = Some l → x ∈ l → x ∈ seen) →
            ∀ n l x,
              foldl (λ chapter_images image_path,
                       <[determine image_path :=
                           default [] (chapter_images !! determine image_path)
                           ++ [image_path]]> chapter_images) m images !! n = Some l →
              x ∈ l → x ∈ seen ++ images) as H.
  { induction images as [|img images IH]; intros m seen Hm n' l' x'; simpl.
    - rewrite app_nil_r. apply Hm.
    - intros Hl Hx. rewrite (assoc_L (++) seen [img] images : seen ++ img :: images = (seen ++ [img]) ++ images).
      eapply IH; [|exact Hl|exact Hx]. clear Hl Hx. intros k l0 y Hk Hy.
      destruct (decide (determine img = k)) as [<-|Hne].
      + rewrite lookup_insert_eq in Hk. injection Hk as <-.
        apply elem_of_app in Hy as [Hy|Hy].
        * apply elem_of_app. left.
          destruct (m !! determine img) as [l1|] eqn:E; simpl in Hy;
            [by eapply Hm|by apply elem_of_nil in Hy].
        * apply elem_of_app. by right.
      + rewrite lookup_insert_ne in Hk by done. apply elem_of_app. left. by eapply Hm. }
  intros Hl Hx. apply (H ∅ [] (λ n l x Hn, ltac:(by rewrite lookup_empty in Hn)) n l x Hl Hx).
Qed.

Lemma sort_images_perm (sep : ascii) (base : path) (images sorted : list path) :
  MangaHTMLGenerator.sort_images sep base images = inr sorted → sorted ≡ₚ images.
Proof. intros H. by apply natural_sort_by_inr in H as [H _]. Qed.

(** Sorting the images of a chapter: a rearranged list, when every image
    has a key, and a [ValueError] otherwise. *)
Lemma sort_images_outcome (sep : ascii) (base : path) (images : list path) :
  (Forall (λ p, sortable sep base p = true) images ∧
   ∃ sorted, MangaHTMLGenerator.sort_images sep base images = inr sorted ∧
             sorted ≡ₚ images) ∨
  (Exists (λ p, sortable sep base p = false) images ∧
   ∃ m, MangaHTMLGenerator.sort_images sep base images = inl (ValueError m)).
Proof.
  destruct (natural_sort_by_outcome
              (λ p, Path.str sep (Emitted.relative_path base p)) images)
    as [(Hall & l & Hs & Hp & _)|[Hex Hm]]; [left|right].
  - split; [done|]. by exists l.
  - split; [|done]. eapply Exists_impl; [exact Hex|]. intros p [m Hm'].
    unfold sortable, has_key. by rewrite Hm'.
Qed.

Lemma foldl_raised {A B : Type} (g : B → A → result B) (e : error) (l : list A) :
  foldl (λ (state : result B) x, b ← state; g b x) (inl e) l = inl e.
Proof. induction l as [|x l IH]; [done|]. simpl. apply IH. Qed.

Lemma sort_chapters_cons (sep : ascii) (base : path) (n : Z) (order : list Z)
    (m : gmap Z (list path)) :
  MangaHTMLGenerator.sort_chapters sep base (n :: order) m
  = match m !! n with
    | Some images =>
        match MangaHTMLGenerator.sort_images sep base images with
        | inr sorted => MangaHTMLGenerator.sort_chapters sep base order (<[n := sorted]> m)
        | inl e => inl e
        end
    | None => MangaHTMLGenerator.sort_chapters sep base order m
    end.
Proof.
  unfold MangaHTMLGenerator.sort_chapters. cbn [foldl].
  change (mret m ≫= ?f) with (f m). cbv beta.
  destruct (m !! n) as [images|]; [|done].
  destruct (MangaHTMLGenerator.sort_images sep base images) as [e|sorted]; [|done].
  change (inl e ≫= ?f) with (@inl error (gmap Z (list path)) e).
  apply (foldl_raised
           (λ (chapter_images : gmap Z (list path)) chapter_num,
              match chapter_images !! chapter_num with
              | Some images =>
                  images ← MangaHTMLGenerator.sort_images sep base images;
                  mret (<[chapter_num := images]> chapter_images)
              | None => mret chapter_images
              end)).
Qed.

(** The loop that sorts the chapters: every list is rearranged, when the
    images of the chapters visited all have keys; otherwise the loop ends
    with the [ValueError] of an image of a chapter visited. *)
Lemma sort_chapters_outcome (sep : ascii) (base : path) (order : list Z)
    (m : gmap Z (list path)) :
  (∃ m', MangaHTMLGenerator.sort_chapters sep base order m = inr m' ∧
         (∀ n, option_Forall2 Permutation (m' !! n) (m !! n)) ∧
         ∀ n l, n ∈ order → m !! n = Some l →
                Forall (λ p, sortable sep base p = true) l) ∨
  (∃ msg, MangaHTMLGenerator.sort_chapters sep base order m = inl (ValueError msg) ∧
          ∃ n l p, n ∈ order ∧ m !! n = Some l ∧ p ∈ l ∧ sortable sep base p = false).
Proof.
  assert (∀ m0 : gmap Z (list path),
            (∀ n, option_Forall2 Permutation (m0 !! n) (m !! n)) →
            (∃ m', MangaHTMLGenerator.sort_chapters sep base order m0 = inr m' ∧
                   (∀ n, option_Forall2 Permutation (m' !! n) (m !! n)) ∧
                   ∀ n l, n ∈ order → m !! n = Some l →
                          Forall (λ p, sortable sep base p = true) l) ∨
            (∃ msg, MangaHTMLGenerator.sort_chapters sep base order m0
                    = inl (ValueError msg) ∧
                    ∃ n l p, n ∈ order ∧ m !! n = Some l ∧ p ∈ l ∧
                             sortable sep base p = false)) as H.
  { induction order as [|n order IH]; intros m0 Hm0.
    - left. exists m0. split; [done|]. split; [done|].
      intros n l Hn. by apply elem_of_nil in Hn.
    - rewrite sort_chapters_cons. pose proof (Hm0 n) as Hn.
      destruct (m0 !! n) as [images|] eqn:E0.
      + inversion Hn as [? l Hp E1 E2|]; subst. symmetry in E2.
        destruct (sort_images_outcome sep base images)
          as [(Hall & sorted & Hs & Hps)|(Hex & msg & Hs)]; rewrite Hs.
        * destruct (IH (<[n := sorted]> m0)) as [(m' & Hf & Hm' & Hkeys)|(msg & Hf & Hw)].
          { intros k. destruct (decide (k = n)) as [->|Hne].
            - rewrite lookup_insert_eq, E2. constructor. by rewrite Hps.
            - rewrite lookup_insert_ne by done. apply Hm0. }
          -- left. exists m'. split; [done|]. split; [done|].
             intros k l' [->|Hk]%elem_of_cons Hl'; [|by eapply Hkeys].
             rewrite E2 in Hl'. injection Hl' as <-. by rewrite <- Hp.
          -- right. exists msg. split; [done|].
             destruct Hw as (k & l' & p & Hk & Hl' & Hin & Hp').
             exists k, l', p. split; [by right|done].
        * right. exists msg. split; [done|].
          apply Exists_exists in Hex as (p & Hin & Hp').
          exists n, l, p. split; [left|]. split; [done|]. split; [by rewrite <- Hp|done].
      + inversion Hn; subst.
        destruct (IH m0 Hm0) as [(m' & Hf & Hm' & Hkeys)|(msg & Hf & Hw)].
        * left. exists m'. split; [done|]. split; [done|].
          intros k l' [->|Hk]%elem_of_cons Hl'; [congruence|by eapply Hkeys].
        * right. exists msg. split; [done|].
          destruct Hw as (k & l' & p & Hk & Hl' & Hin & Hp').
          exists k, l', p. split; [by right|done]. }
  apply H. intros n. by destruct (m !! n); constructor.
Qed.

Lemma sort_chapters_perm (sep : ascii) (base : path) (order : list Z)
    (m m' : gmap Z (list path)) (n : Z) (l' : list path) :
  MangaHTMLGenerator.sort_chapters sep base order m = inr m' →
  m' !! n = Some l' → ∃ l, m !! n = Some l ∧ l' ≡ₚ l.
Proof.
  intros Hs Hl'.
  destruct (sort_chapters_outcome sep base order m)
    as [(m'' & Hs' & Hp & _)|(msg & Hs' & _)]; [|congruence].
  rewrite Hs in Hs'. injection Hs' as <-. specialize (Hp n). rewrite Hl' in Hp.
  inversion Hp; subst. by eexists.
Qed.

Lemma chapter_pages_elem (sep : ascii) (base : path) (n : Z) (images : list path)
    (page : Z) (e : element) :
  e ∈ (MangaHTMLGenerator.chapter_pages sep base n images page).1 →
  ∃ img pg, img ∈ images ∧ e = PageImage (Emitted.src_path sep base img) pg n.
Proof.
  revert page. induction images as [|img images IH]; intros page; simpl.
  - intros H. by apply elem_of_nil in H.
  - destruct (MangaHTMLGenerator.chapter_pages sep base n images (page + 1))
      as [elements next] eqn:E. simpl. intros H.
    apply elem_of_cons in H as [->|H].
    + exists img, page. split; [left|done].
    + specialize (IH (page + 1)). rewrite E in IH.
      destruct (IH H) as (i & pg & Hi & ->). exists i, pg. split; [by right|done].
Qed.

Lemma output_chapters_elem (sep : ascii) (base : path) (m : gmap Z (list path))
    (chs : list Chapter) (page : Z) (src : string) (pg ch : Z) :
  PageImage src pg ch ∈ MangaHTMLGenerator.output_chapters sep base m chs page →
  ∃ n l img, m !! n = Some l ∧ img ∈ l ∧ src = Emitted.src_path sep base img.
Proof.
  revert page. induction chs as [|c chs IH]; intros page; simpl.
  - intros H. by apply elem_of_nil in H.
  - destruct (m !! number c) as [images|] eqn:E; [|apply IH].
    destruct (MangaHTMLGenerator.chapter_pages sep base (number c) images page)
      as [pages next] eqn:Ep.
    intros H. apply elem_of_app in H as [H|H].
    + destruct (bool_decide _); [|by apply elem_of_nil in H].
      apply list_elem_of_singleton in H. done.
    + apply elem_of_app in H as [H|H]; [|by eapply IH].
      pose proof (chapter_pages_elem sep base (number c) images page (PageImage src pg ch)) as Hc.
      rewrite Ep in Hc. destruct (Hc H) as (img & pg' & Hin & [= -> _ _]).
      by exists (number c), images, img.
Qed.

(** Every image element of the reading area refers to an image found
    below the base directory, by the expression [src_path]. *)
Lemma reader_elements_src (guess_type : string → option string) (sep : ascii)
    (md : MangaMetadata) (tree : node) (elements : list element)
    (src : string) (pg ch : Z) :
  MangaHTMLGenerator.reader_elements guess_type sep md tree = inr elements →
  PageImage src pg ch ∈ elements →
  ∃ img, img ∈ MangaHTMLGenerator.all_images guess_type sep (base_path md) tree ∧
         src = Emitted.src_path sep (base_path md) img.
Proof.
  unfold MangaHTMLGenerator.reader_elements.
  destruct (MangaHTMLGenerator.sort_chapters _ _ _ _) as [|m'] eqn:Es; [done|].
  intros [= <-] H.
  apply output_chapters_elem in H as (n & l' & img & Hl' & Hin & ->).
  exists img. split; [|done].
  destruct (sort_chapters_perm _ _ _ _ _ _ _ Es Hl') as (l & Hl & Hp).
  rewrite Hp in Hin. by eapply group_by_chapter_elem.
Qed.

Lemma find_first_image_Dir (sep : ascii) (base folder : path)
    (es : list (string * node)) :
  ImageSearchEngine.find_first_image sep base folder (Dir es)
  = let searched :=
      List.map (λ e, (e.1, (e.2, ImageSearchEngine.find_first_image sep base
                                   (folder ++ [e.1]) e.2))) es in
    match List.find
            (λ file, FS.is_file_node file.2.1 &&
                     ImageSearchEngine._is_image (folder ++ [file.1]))
            (ImageSearchEngine.sorted_entries searched) with
    | Some file => Some (Emitted.src_path sep base (folder ++ [file.1]))
    | None =>
        match List.find
                (λ subfolder,
                   match subfolder.2.2 with
                   | Some image => negb (String.eqb image "")
                   | None => false
                   end)
                (ImageSearchEngine.sorted_entries
                   (List.filter (λ f, FS.is_dir_node f.2.1) searched)) with
        | Some subfolder => subfolder.2.2
        | None => None
        end
    end.
Proof.
  cbn [ImageSearchEngine.find_first_image].
  assert ((fix each (es : list (string * node)) : list (string * (node * option string)) :=
             match es with
             | [] => []
             | (k, v) :: es' =>
                 (k, (v, ImageSearchEngine.find_first_image sep base (folder ++ [k]) v))
                 :: each es'
             end) es
          = List.map (λ e, (e.1, (e.2, ImageSearchEngine.find_first_image sep base
                                         (folder ++ [e.1]) e.2))) es) as ->; [|done].
  induction es as [|[k v] es IH]; simpl; [done|]. by rewrite IH.
Qed.

(** The cover image lies below the folder searched, under names of the
    tree. *)
Lemma find_first_image_names (ok : string → bool) (sep : ascii) (base : path)
    (n : node) (folder : path) (image : string) :
  FS.names_ok ok n = true →
  ImageSearchEngine.find_first_image sep base folder n = Some image →
  ∃ rel, rel ≠ [] ∧ Forall (λ k, ok k = true) rel ∧
         image = Emitted.src_path sep base (folder ++ rel).
Proof.
  revert folder image. induction n as [c|es IH] using node_induction;
    intros folder image Hok; [done|].
  rewrite find_first_image_Dir. cbv zeta.
  set (searched := List.map _ es).
  assert (∀ x, x ∈ searched →
            (x.1, x.2.1) ∈ es ∧
            x.2.2 = ImageSearchEngine.find_first_image sep base (folder ++ [x.1]) x.2.1)
    as Hsearched.
  { intros x Hx. apply list_elem_of_In, in_map_iff in Hx as ([k v] & <- & Hx).
    by apply list_elem_of_In in Hx. }
  destruct (List.find _ (ImageSearchEngine.sorted_entries searched)) as [file|] eqn:Ef.
  - intros [= <-]. apply find_some in Ef as [Hin _]. apply list_elem_of_In in Hin.
    unfold ImageSearchEngine.sorted_entries in Hin. rewrite sort_perm in Hin.
    destruct (Hsearched file Hin) as [Hes _].
    destruct (names_ok_entry ok es _ _ Hok Hes) as [Hk _].
    exists [file.1]. split; [done|]. split; [by constructor|done].
  - destruct (List.find _ (ImageSearchEngine.sorted_entries (List.filter _ searched)))
      as [subfolder|] eqn:Es; [|done].
    intros Himage. apply find_some in Es as [Hin _]. apply list_elem_of_In in Hin.
    unfold ImageSearchEngine.sorted_entries in Hin. rewrite sort_perm in Hin.
    apply list_elem_of_In, filter_In in Hin as [Hin _]. apply list_elem_of_In in Hin.
    destruct (Hsearched subfolder Hin) as [Hes Hr].
    destruct (names_ok_entry ok es _ _ Hok Hes) as [Hk Hv].
    rewrite Forall_forall in IH. rewrite Hr in Himage.
    destruct (IH _ Hes (folder ++ [subfolder.1]) image Hv Himage) as (rel & _ & Hrel & ->).
    exists (subfolder.1 :: rel). rewrite <- app_assoc. split; [done|].
    split; [by constructor|done].
Qed.

Lemma entry_elem (k : string) (v : node) (es : list (string * node)) :
  FS.entry k es = Some v → (k, v) ∈ es.
Proof.
  induction es as [|[k' v'] es IH]; simpl; [done|].
  destruct (String.eqb_spec k' k) as [->|_].
  - intros [= ->]. left.
  - intros H. right. by apply IH.
Qed.

Lemma lookup_names_ok (ok : string → bool) (fs : node) (p : path) (n : node) :
  FS.names_ok ok fs = true → FS.lookup fs p = Some n → FS.names_ok ok n = true.
Proof.
  revert fs. induction p as [|k p IH]; intros fs Hok; simpl; [by intros [= <-]|].
  destruct fs as [|es]; [done|]. destruct (FS.entry k es) as [v|] eqn:E; [|done].
  apply entry_elem in E. apply IH. by apply (names_ok_entry ok es k v).
Qed.

(** The reader file lies in the folder, under one of the four names or
    under a name of the folder. *)
Lemma find_reader_file_names (ok : string → bool) (sep : ascii) (fs : node)
    (folder base : path) (link : string) :
  FS.names_ok ok fs = true →
  Forall (λ k, ok k = true) ReaderFileFinder.READER_PRIORITIES →
  ReaderFileFinder.find_reader_file sep fs folder base = Some link →
  ∃ file, ok file = true ∧ link = Emitted.src_path sep base (folder ++ [file]).
Proof.
  intros Hok Hpri. unfold ReaderFileFinder.find_reader_file.
  destruct (List.find _ ReaderFileFinder.READER_PRIORITIES) as [file|] eqn:Ef.
  - intros [= <-]. apply find_some in Ef as [Hin _]. apply list_elem_of_In in Hin.
    exists file. split; [|done]. rewrite Forall_forall in Hpri. by apply Hpri.
  - unfold FS.listdir. destruct (FS.lookup fs folder) as [[c|es]|] eqn:El; try done.
    destruct (List.find _ (es.*1)) as [file|] eqn:Eh; [|done].
    intros [= <-]. apply find_some in Eh as [Hin _]. apply list_elem_of_In in Hin.
    apply list_elem_of_fmap in Hin as ([k v] & -> & Hin).
    exists k. split; [|done].
    pose proof (lookup_names_ok ok fs folder _ Hok El) as Hes.
    by apply (names_ok_entry ok es k v) in Hin as [? _].
Qed.

Lemma chapter_metadata_elem (sep : ascii) (base : path) (n : Z) (images : list path)
    (page : Z) (item : ImageMetadata) :
  item ∈ (VirtualScroll.chapter_metadata sep base n images page).1 →
  ∃ img, img ∈ images ∧ im_src item = Emitted.src_path sep base img.
Proof.
  revert page. induction images as [|img images IH]; intros page; simpl.
  - intros H. by apply elem_of_nil in H.
  - destruct (VirtualScroll.chapter_metadata sep base n images (page + 1))
      as [items next] eqn:E. simpl. intros H.
    apply elem_of_cons in H as [->|H].
    + exists img. split; [left|done].
    + specialize (IH (page + 1)). rewrite E in IH.
      destruct (IH H) as (i & Hi & ->). exists i. split; [by right|done].
Qed.

Lemma collect_chapters_elem (sep : ascii) (base : path) (m : gmap Z (list path))
    (chs : list Chapter) (page : Z) (item : ImageMetadata) :
  item ∈ VirtualScroll.collect_chapters sep base m chs page →
  ∃ n l img, m !! n = Some l ∧ img ∈ l ∧ im_src item = Emitted.src_path sep base img.
Proof.
  revert page. induction chs as [|c chs IH]; intros page; simpl.
  - intros H. by apply elem_of_nil in H.
  - destruct (m !! number c) as [images|] eqn:E; [|apply IH].
    destruct (VirtualScroll.chapter_metadata sep base (number c) images page)
      as [items next] eqn:Ep.
    intros H. apply elem_of_app in H as [H|H]; [|by eapply IH].
    pose proof (chapter_metadata_elem sep base (number c) images page item) as Hc.
    rewrite Ep in Hc. destruct (Hc H) as (img & Hin & ->).
    by exists (number c), images, img.
Qed.

(** Every record of the virtual-scroll script refers to an image found
    below the base directory, by the expression [src_path]. *)
Lemma collect_image_metadata_src (guess_type : string → option string) (sep : ascii)
    (self : VirtualScrollMangaGenerator) (tree : node) (items : list ImageMetadata)
    (item : ImageMetadata) :
  VirtualScroll._collect_image_metadata guess_type sep self tree = inr items →
  item ∈ items →
  ∃ img,
    img ∈ MangaHTMLGenerator.all_images guess_type sep (base_path (metadata self)) tree ∧
    im_src item = Emitted.src_path sep (base_path (metadata self)) img.
Proof.
  unfold VirtualScroll._collect_image_metadata.
  destruct (MangaHTMLGenerator.sort_chapters _ _ _ _) as [|m'] eqn:Es; [done|].
  intros [= <-] H.
  apply collect_chapters_elem in H as (n & l' & img & Hl' & Hin & ->).
  exists img. split; [|done].
  destruct (sort_chapters_perm _ _ _ _ _ _ _ Es Hl') as (l & Hl & Hp).
  rewrite Hp in Hin. by eapply group_by_chapter_elem.
Qed.

(** For a book of more than 5000 pages without the virtual-scroll file,
    the shelf scanner calls [create_virtual_scroll_reader] and links to
    its copy, or falls back to the reader found before. *)
Lemma ensure_optimal_reader_large (sep : ascii) (fs : node) (base folder : path)
    (page_count : Z) :
  page_count > 5000 →
  FS.exists_ fs (folder ++ ["index-mb-virtualscroll.html"]) = false →
  BookshelfScanner._ensure_optimal_reader sep true fs base folder page_count
  = match ProgressiveReader.create_virtual_scroll_reader fs folder with
    | (fs', inr _) =>
        (fs', Some (Emitted.src_path sep base
                      (folder ++ ["index-mb-virtualscroll.html"])))
    | (fs', inl _) => (fs', ReaderFileFinder.find_reader_file sep fs folder base)
    end.
Proof.
  intros Hn He. unfold BookshelfScanner._ensure_optimal_reader.
  rewrite He, bool_decide_eq_true_2 by done. simpl.
  by destruct (ProgressiveReader.create_virtual_scroll_reader fs folder) as [fs' [e|p]].
Qed.

Lemma ensure_optimal_reader_link (sep : ascii) (script_present : bool) (fs : node)
    (base folder : path) (page_count : Z) (link : string) :
  (BookshelfScanner._ensure_optimal_reader sep script_present fs base folder
     page_count).2 = Some link →
  link = Emitted.src_path sep base (folder ++ ["index-mb-virtualscroll.html"]) ∨
  ReaderFileFinder.find_reader_file sep fs folder base = Some link.
Proof.
  unfold BookshelfScanner._ensure_optimal_reader.
  destruct (bool_decide (page_count > 5000)), (FS.exists_ fs _), script_present;
    simpl; try (intros [= <-]; by left); try (intros ->; by right);
    destruct (ProgressiveReader.create_virtual_scroll_reader fs folder) as [fs' [e|p]];
    simpl; try (intros [= <-]; by left); intros ->; by right.
Qed.

End EmittedFacts.

Lemma names_ok_any (n : node) : FS.names_ok (λ _, true) n = true.
Proof.
  induction n as [c|es IH] using node_induction; [done|].
  rewrite names_ok_Dir. apply forallb_forall. intros [k v] Hin. simpl.
  rewrite Forall_forall in IH. apply list_elem_of_In in Hin. by apply (IH (k, v)).
Qed.

(** C8, as the code has it.  On a host whose separator is the slash a
    file name may hold a backslash; the replacement turns it into a
    separator, and the reference of the file ..\cover.png in the base
    directory gets the segment [..]: it no longer names a file below the
    base directory. *)
Lemma backslash_name_leaves_root :
  FS.names_ok FS.posix_name backslash_tree = true ∧
  (let md := MangaAnalyzer.analyze_directory no_guess "/" ["m"] backslash_tree in
   MangaHTMLGenerator.reader_elements no_guess "/" md backslash_tree
   = inr [PageImage "../cover.png" 1 1]) ∧
  ImageSearchEngine.find_first_image "/" ["m"] ["m"] backslash_tree
  = Some "../cover.png" ∧
  ".." ∈ Emitted.segments "../cover.png".
Proof.
  split; [reflexivity|]. split; [vm_compute; reflexivity|].
  split; [vm_compute; reflexivity|]. vm_compute. left.
Qed.

(** The older script strips the typed path from the references only when
    it was typed without a separator at its end. *)
Example htmlc_trailing_separator :
  let fs := Dir [("C:", Dir [("my.manga", Dir [("a.png", File "")])])] in
  (∃ printed,
     Htmlc.run Htmlc.Windows 10 fs "C:\my.manga"
     = Some (inr ([Html.markup "<img src='a.png' class='image-item'/>"], printed))) ∧
  (∃ printed,
     Htmlc.run Htmlc.Windows 10 fs "C:\my.manga\"
     = Some (inr ([Html.markup "<img src='C:/my.manga/a.png' class='image-item'/>"],
                  printed))).
Proof. split; eexists; vm_compute; reflexivity. Qed.

(** C8, amended.  No reference that the scripts emit holds a backslash:
    neither the [src] of a page image or of an image record, nor a cover
    image, nor a reader link of the shelf, nor a reference of the older
    script.  When no name below the base directory holds a backslash (and
    every name is one a directory entry can have on either kind of host),
    the references of the three newer scripts (the [src] of a page image
    of htmlcmb_v3.py, the [src] of an image record of
    htmlcmb_v3_virtualscroll.py, the cover image and the two kinds of
    reader link of htmlcs_v4.py) are the names of the way from the base
    directory to the file, joined by slashes: relative to the base
    directory and without a segment [..]. *)
Theorem emitted_paths_normalized :
  (∀ guess_type sep md tree elements src pg ch,
     MangaHTMLGenerator.reader_elements guess_type sep md tree = inr elements →
     PageImage src pg ch ∈ elements →
     Str.contains_char "\" src = false) ∧
  (∀ sep base folder n image,
     ImageSearchEngine.find_first_image sep base folder n = Some image →
     Str.contains_char "\" image = false) ∧
  (∀ sep fs folder base link,
     ReaderFileFinder.find_reader_file sep fs folder base = Some link →
     Str.contains_char "\" link = false) ∧
  (∀ guess_type sep self tree items item,
     VirtualScroll._collect_image_metadata guess_type sep self tree = inr items →
     item ∈ items →
     Str.contains_char "\" (im_src item) = false) ∧
  (∀ sep script_present fs base folder page_count link,
     (BookshelfScanner._ensure_optimal_reader sep script_present fs base folder
        page_count).2 = Some link →
     Str.contains_char "\" link = false) ∧
  (∀ slpath img, Str.contains_char "\" (Htmlc.reference slpath img) = false) ∧
  (∀ sep, sep = "/"%char ∨ sep = "\"%char →
     (∀ guess_type md tree elements src pg ch,
        FS.names_ok FS.proper_name tree = true →
        MangaHTMLGenerator.reader_elements guess_type sep md tree = inr elements →
        PageImage src pg ch ∈ elements →
        ∃ rel, rel ≠ [] ∧
               base_path md ++ rel
               ∈ MangaHTMLGenerator.all_images guess_type sep (base_path md) tree ∧
               src = Str.join "/" rel ∧ Emitted.segments src = rel ∧
               ".." ∉ Emitted.segments src) ∧
     (∀ guess_type self tree items item,
        FS.names_ok FS.proper_name tree = true →
        VirtualScroll._collect_image_metadata guess_type sep self tree = inr items →
        item ∈ items →
        ∃ rel, rel ≠ [] ∧
               base_path (metadata self) ++ rel
               ∈ MangaHTMLGenerator.all_images guess_type sep
                   (base_path (metadata self)) tree ∧
               im_src item = Str.join "/" rel ∧
               Emitted.segments (im_src item) = rel ∧
               ".." ∉ Emitted.segments (im_src item)) ∧
     (∀ base book n image,
        FS.names_ok FS.proper_name n = true →
        Forall (λ k, FS.proper_name k = true) book →
        ImageSearchEngine.find_first_image sep base (base ++ book) n = Some image →
        ∃ rel, rel ≠ [] ∧ image = Str.join "/" (book ++ rel) ∧
               Emitted.segments image = book ++ rel ∧
               ".." ∉ Emitted.segments image) ∧
     (∀ fs base book link,
        FS.names_ok FS.proper_name fs = true →
        Forall (λ k, FS.proper_name k = true) book →
        ReaderFileFinder.find_reader_file sep fs (base ++ book) base = Some link →
        ∃ file, link = Str.join "/" (book ++ [file]) ∧
                Emitted.segments link = book ++ [file] ∧
                ".." ∉ Emitted.segments link) ∧
     (∀ script_present fs base book page_count link,
        FS.names_ok FS.proper_name fs = true →
        Forall (λ k, FS.proper_name k = true) book →
        (BookshelfScanner._ensure_optimal_reader sep script_present fs base
           (base ++ book) page_count).2 = Some link →
        ∃ file, link = Str.join "/" (book ++ [file]) ∧
                Emitted.segments link = book ++ [file] ∧
                ".." ∉ Emitted.segments link)).
Proof.
  split; [|split; [|split; [|split; [|split; [|split]]]]].
  - intros guess_type sep md tree elements src pg ch He H.
    apply (reader_elements_src _ _ _ _ _ _ _ _ He) in H as (img & _ & ->).
    apply src_path_no_backslash.
  - intros sep base folder n image H.
    apply (find_first_image_names (λ _, true)) in H as (rel & _ & _ & ->);
      [apply src_path_no_backslash|apply names_ok_any].
  - intros sep fs folder base link H.
    apply (find_reader_file_names (λ _, true)) in H as (file & _ & ->);
      [apply src_path_no_backslash|apply names_ok_any|by apply Forall_forall].
  - intros guess_type sep self tree items item He H.
    apply (collect_image_metadata_src _ _ _ _ _ _ He) in H as (img & _ & ->).
    apply src_path_no_backslash.
  - intros sep script_present fs base folder page_count link H.
    apply ensure_optimal_reader_link in H as [->|H]; [apply src_path_no_backslash|].
    apply (find_reader_file_names (λ _, true)) in H as (file & _ & ->);
      [apply src_path_no_backslash|apply names_ok_any|by apply Forall_forall].
  - apply reference_no_backslash.
  - intros sep Hsep.
    assert (∀ fs base book link,
              FS.names_ok FS.proper_name fs = true →
              Forall (λ k, FS.proper_name k = true) book →
              ReaderFileFinder.find_reader_file sep fs (base ++ book) base = Some link →
              ∃ file, link = Str.join "/" (book ++ [file]) ∧
                      Emitted.segments link = book ++ [file] ∧
                      ".." ∉ Emitted.segments link) as Hreader.
    { intros fs base book link Hok Hbook H.
      apply (find_reader_file_names FS.proper_name) in H as (file & Hfile & ->);
        [|done|by repeat constructor].
      exists file. rewrite <- app_assoc.
      apply src_path_proper; [done|by destruct book|].
      apply Forall_app. split; [done|by constructor]. }
    split; [|split; [|split; [|split]]].
    + intros guess_type md tree elements src pg ch Hok He H.
      apply (reader_elements_src _ _ _ _ _ _ _ _ He) in H as (img & Himg & ->).
      destruct (all_images_names _ _ _ _ _ _ Hok Himg) as (rel & Hne & -> & Hrel).
      exists rel. split; [done|]. split; [done|].
      by apply src_path_proper.
    + intros guess_type self tree items item Hok He H.
      apply (collect_image_metadata_src _ _ _ _ _ _ He) in H as (img & Himg & ->).
      destruct (all_images_names _ _ _ _ _ _ Hok Himg) as (rel & Hne & -> & Hrel).
      exists rel. split; [done|]. split; [done|].
      by apply src_path_proper.
    + intros base book n image Hok Hbook H.
      apply (find_first_image_names FS.proper_name) in H as (rel & Hne & Hrel & ->);
        [|done].
      exists rel. split; [done|]. rewrite <- app_assoc.
      apply src_path_proper; [done|by destruct book|by apply Forall_app].
    + exact Hreader.
    + intros script_present fs base book page_count link Hok Hbook H.
      apply ensure_optimal_reader_link in H as [->|H]; [|by eapply Hreader].
      exists "index-mb-virtualscroll.html". rewrite <- app_assoc.
      apply src_path_proper; [done|by destruct book|].
      apply Forall_app. split; [done|by repeat constructor].
Qed.

(** ** Instances *)


Lemma is_valid_image_three_tiers_witness :
  let guess := λ _ : string, Some "image/x-notes" in
  ImageValidator.extension ["m"; "notes.TXT"] = "txt" ∧
  ImageValidator.is_valid_image guess "/" ["m"; "notes.TXT"] = false.
Proof.
  split; [reflexivity|].
  apply (proj1 (is_valid_image_three_tiers (λ _, Some "image/x-notes") "/"
                  ["m"; "notes.TXT"])).
  vm_compute. repeat constructor.
Defined.

Lemma find_reader_file_priority_witness :
  FS.exists_ shelf_tree ["lib"; "b1"; "index-mb-virtualscroll.html"] = false ∧
  FS.exists_ shelf_tree ["lib"; "b1"; "index-mb.html"] = true ∧
  ReaderFileFinder.find_reader_file "/" shelf_tree ["lib"; "b1"] ["lib"]
  = Some "b1/index-mb.html".
Proof.
  split; [reflexivity|]. split; [reflexivity|].
  apply (proj1 (proj2 (find_reader_file_priority "/" shelf_tree ["lib"] ["b1"]))
           ["index-mb-virtualscroll.html"] "index-mb.html"
           ["index.html"; "index-mobile.html"]);
    [reflexivity|repeat constructor|reflexivity].
Defined.

Lemma missing_root_rejected_before_output_witness :
  FS.exists_ shelf_tree (resolve example_env "nowhere") = false ∧
  ∃ message,
    MangaReaderGenerator.__init__ example_env shelf_tree "nowhere"
    = inl (FileNotFoundError message).
Proof.
  split; [reflexivity|].
  apply (proj1 (missing_root_rejected_before_output example_env shelf_tree)
           "nowhere" true "index.html" true).
  reflexivity.
Defined.

Lemma emitted_paths_normalized_witness :
  FS.names_ok FS.proper_name scenario_tree = true ∧
  let md := MangaAnalyzer.analyze_directory no_guess "/" ["m"] scenario_tree in
  let elements :=
    [PageImage "root.jpg" 1 1; ChapterMarker 2 "Ch1"; PageImage "ch1/a.png" 2 2;
     PageImage "ch1/b.png" 3 2; ChapterMarker 3 "Ch2"; PageImage "ch2/1.png" 4 3;
     PageImage "ch2/2.png" 5 3] in
  MangaHTMLGenerator.reader_elements no_guess "/" md scenario_tree = inr elements ∧
  PageImage "ch1/a.png" 2 2 ∈ elements ∧
  Str.contains_char "\" "ch1/a.png" = false ∧
  ∃ rel, rel ≠ [] ∧
         ["m"] ++ rel ∈ MangaHTMLGenerator.all_images no_guess "/" ["m"] scenario_tree ∧
         "ch1/a.png" = Str.join "/" rel ∧ Emitted.segments "ch1/a.png" = rel ∧
         ".." ∉ Emitted.segments "ch1/a.png".
Proof.
  split; [reflexivity|]. intros md elements.
  assert (MangaHTMLGenerator.reader_elements no_guess "/" md scenario_tree
          = inr elements) as He by reflexivity.
  assert (PageImage "ch1/a.png" 2 2 ∈ elements) as Hin by (do 2 right; left).
  split; [exact He|]. split; [exact Hin|]. split.
  - exact (proj1 emitted_paths_normalized no_guess "/"%char md scenario_tree
             elements _ _ _ He Hin).
  - exact (proj1 (proj2 (proj2 (proj2 (proj2 (proj2 (proj2
                    emitted_paths_normalized))))) "/"%char (or_introl eq_refl))
             no_guess md scenario_tree elements _ _ _ eq_refl He Hin).
Defined.

Lemma virtual_scroll_reader_is_a_copy_witness :
  FS.exists_ shelf_tree ["lib"; "b1"; "manga-reader-fix.html"] = false ∧
  FS.lookup shelf_tree ["lib"; "b1"; "index-mb.html"] = Some (File "MB") ∧
  FS.is_dir shelf_tree ["lib"; "b1"; "index-mb-virtualscroll.html"] = false ∧
  ∃ fs',
    ProgressiveReader.create_progressive_reader shelf_tree ["lib"; "b1"] = (fs', true) ∧
    ProgressiveReader.create_virtual_scroll_reader shelf_tree ["lib"; "b1"]
    = (fs', inr ["lib"; "b1"; "index-mb-virtualscroll.html"]) ∧
    FS.lookup fs' ["lib"; "b1"; "index-mb-virtualscroll.html"] = Some (File "MB") ∧
    FS.lookup fs' ["lib"; "b1"; "index-mb.html"] = Some (File "MB").
Proof.
  split; [reflexivity|]. split; [reflexivity|]. split; [reflexivity|].
  apply (proj1 (proj2 (virtual_scroll_reader_is_a_copy shelf_tree ["lib"; "b1"])) "MB");
    reflexivity.
Defined.

Lemma emission_loop_classifies_by_first_dot_witness :
  Exists (λ img, Str.contains_char "." img = false) ["C:\m\001.png"; "C:\m\README"] ∧
  Htmlc.emission_loop "C:/m" ["C:\m\001.png"; "C:\m\README"] [] [] = inl IndexError.
Proof.
  assert (Exists (λ img, Str.contains_char "." img = false)
            ["C:\m\001.png"; "C:\m\README"]) as H
    by (right; left; reflexivity).
  split; [exact H|].
  exact (proj1 (proj2 (proj2 (emission_loop_classifies_by_first_dot "C:/m")))
           _ [] [] H).
Defined.

(** * Further properties *)

(** ** The two image tests *)

(** X1.  The reader accepts every file that the bookshelf counts as a page, and
    more: [is_valid_image] of htmlcmb_v3.py holds exactly for the files
    that [_is_image] of htmlcs_v4.py accepts, for the files with the
    extension svg, and for the files without a blocked extension whose
    guessed type is an image type. *)
Theorem is_valid_image_extends_is_image
    (guess_type : string → option string) (sep : ascii) (file_path : path) :
  ImageValidator.is_valid_image guess_type sep file_path = true ↔
  (ImageSearchEngine._is_image file_path = true ∨
   ImageValidator.extension file_path = "svg" ∨
   ((ImageValidator.extension file_path ∉ ImageValidator.BLOCKED_EXTENSIONS) ∧
    ImageValidator.is_image_mime (guess_type (Path.str sep file_path)) = true)).
Proof.
  unfold ImageValidator.is_valid_image, ImageSearchEngine._is_image.
  set (e := ImageValidator.extension file_path).
  set (blocked :=
    ["html"; "json"; "js"; "py"; "ini"; "txt"; "rar"; "zip"; "7z";
     "gitignore"; "url"; "nomedia"; "exe"; "bat"; "cmd"; "sh"]).
  assert (e ∈ ImageValidator.BLOCKED_EXTENSIONS ↔ e ∈ blocked) as Hb
    by apply elem_of_list_to_set.
  assert (e ∈ ImageValidator.SUPPORTED_EXTENSIONS ↔
          e ∈ ["png"; "jpg"; "jpeg"; "gif"; "bmp"; "webp"; "avif"; "svg"]) as Hs
    by apply elem_of_list_to_set.
  assert (e ∈ ImageSearchEngine.SUPPORTED_EXTENSIONS ↔
          e ∈ ["png"; "jpg"; "jpeg"; "gif"; "bmp"; "webp"; "avif"]) as Hi
    by apply elem_of_list_to_set.
  rewrite bool_decide_eq_true, Hi.
  assert (e ∈ ["png"; "jpg"; "jpeg"; "gif"; "bmp"; "webp"; "avif"; "svg"] →
          e ∉ blocked) as Hdisjoint.
  { rewrite !elem_of_cons, elem_of_nil. intros H Hin.
    subst blocked. rewrite !elem_of_cons, elem_of_nil in Hin.
    repeat (destruct H as [->|H]; [repeat (destruct Hin as [Hin|Hin]; [discriminate|]); done|]).
    done. }
  destruct (decide (e ∈ blocked)) as [Hin|Hout].
  - rewrite bool_decide_eq_true_2 by (by apply Hb). split; [done|].
    intros [H|[H|[H _]]]; [| |by rewrite Hb in H].
    + exfalso. apply Hdisjoint in Hin; [done|]. rewrite !elem_of_cons in H.
      rewrite !elem_of_cons. intuition.
    + exfalso. apply Hdisjoint in Hin; [done|]. rewrite H, !elem_of_cons. intuition.
  - rewrite bool_decide_eq_false_2 by (by rewrite Hb).
    destruct (decide (e ∈ ["png"; "jpg"; "jpeg"; "gif"; "bmp"; "webp"; "avif"; "svg"]))
      as [Hsup|Hnot].
    + rewrite bool_decide_eq_true_2 by (by apply Hs). split; [intros _|done].
      rewrite !elem_of_cons, elem_of_nil in Hsup. rewrite !elem_of_cons. intuition.
    + rewrite bool_decide_eq_false_2 by (by rewrite Hs).
      destruct (ImageValidator.is_image_mime _).
      * split; [intros _|done]. right. right. split; [by rewrite Hb|done].
      * split; [done|]. intros [H|[H|[_ H]]]; [| |done].
        -- exfalso. apply Hnot. rewrite !elem_of_cons in H. rewrite !elem_of_cons.
           intuition.
        -- exfalso. apply Hnot. rewrite H, !elem_of_cons. intuition.
Qed.

(** ** The window of the virtual scroll *)

Lemma div_800_bounds (n : Z) : 800 * (n / 800) ≤ n < 800 * (n / 800) + 800.
Proof.
  pose proof (Z.mul_div_le n 800). pose proof (Z.mul_succ_div_gt n 800). lia.
Qed.

(** X2.  The range that [updateVisiblePages] renders, for a scroll position and
    a window height in whole pixels: every page of the collection whose
    slot of 800 pixels meets the window lies in the range, and the range
    holds at most [viewport_height / 800 + 9] pages, however many pages
    the collection has. *)
Theorem visible_range_covers_window (total_pages scroll_top viewport_height : Z) :
  0 ≤ scroll_top → 0 ≤ viewport_height →
  let range := VirtualScroll.visible_range total_pages scroll_top viewport_height in
  (∀ page, 1 ≤ page ≤ total_pages →
     (page - 1) * 800 < scroll_top + viewport_height → scroll_top < page * 800 →
     range.1 ≤ page ≤ range.2) ∧
  range.2 - range.1 + 1 ≤ viewport_height / 800 + 9.
Proof.
  intros Hs Hv. unfold VirtualScroll.visible_range. cbn [fst snd].
  pose proof (div_800_bounds scroll_top) as Ha.
  pose proof (div_800_bounds (- (scroll_top + viewport_height))) as Hb.
  pose proof (div_800_bounds viewport_height) as Hc.
  split; [intros page Hp H1 H2|]; lia.
Qed.

(** ** Page numbers of the reading area *)

Lemma counting_cons (first : Z) (count : nat) :
  counting first (S count) = first :: counting (first + 1) count.
Proof.
  unfold counting. cbn [seq fmap list_fmap]. f_equal; [lia|].
  rewrite <- seq_shift, <- list_fmap_compose. apply list_fmap_ext.
  intros _ i _. simpl. lia.
Qed.

Lemma counting_app (first : Z) (a b : nat) :
  counting first (a + b) = counting first a ++ counting (first + Z.of_nat a) b.
Proof.
  revert first. induction a as [|a IH]; intros first.
  - simpl. by replace (first + Z.of_nat 0) with first by lia.
  - cbn [Nat.add]. rewrite !counting_cons, IH. simpl. do 3 f_equal. lia.
Qed.

Lemma counting_lookup (first : Z) (count i : nat) (page : Z) :
  counting first count !! i = Some page → page = first + Z.of_nat i.
Proof.
  unfold counting. rewrite list_lookup_fmap. intros H.
  destruct (seq 0 count !! i) as [j|] eqn:E; [|done]. injection H as <-.
  apply lookup_seq in E as [-> _]. done.
Qed.

Lemma page_numbers_app (a b : list element) :
  page_numbers (a ++ b) = page_numbers a ++ page_numbers b.
Proof. apply omap_app. Qed.

Lemma chapter_pages_numbers (sep : ascii) (base : path) (n : Z) (images : list path)
    (page : Z) :
  page_numbers (MangaHTMLGenerator.chapter_pages sep base n images page).1
  = counting page (length images) ∧
  (MangaHTMLGenerator.chapter_pages sep base n images page).2
  = page + Z.of_nat (length images).
Proof.
  revert page. induction images as [|img images IH]; intros page.
  - simpl. split; [done|lia].
  - cbn [MangaHTMLGenerator.chapter_pages]. specialize (IH (page + 1)).
    destruct (MangaHTMLGenerator.chapter_pages sep base n images (page + 1))
      as [elements next]. destruct IH as [IH1 IH2]. cbn [fst snd] in *.
    split; [|cbn [length]; lia].
    cbn [length]. rewrite counting_cons, <- IH1. done.
Qed.

Lemma output_chapters_numbers (sep : ascii) (base : path) (m : gmap Z (list path))
    (chs : list Chapter) (page : Z) :
  ∃ count : nat,
    page_numbers (MangaHTMLGenerator.output_chapters sep base m chs page)
    = counting page count.
Proof.
  revert page. induction chs as [|c chs IH]; intros page.
  - by exists O.
  - cbn [MangaHTMLGenerator.output_chapters].
    destruct (m !! number c) as [images|]; [|apply IH].
    destruct (chapter_pages_numbers sep base (number c) images page) as [H1 H2].
    destruct (MangaHTMLGenerator.chapter_pages sep base (number c) images page)
      as [pages next]. cbn [fst snd] in *.
    destruct (IH next) as [count Hc]. exists (length images + count)%nat.
    rewrite !page_numbers_app, H1, Hc, counting_app, H2.
    by destruct (bool_decide _).
Qed.

Lemma counting_length (first : Z) (count : nat) : length (counting first count) = count.
Proof. unfold counting. by rewrite length_fmap, length_seq. Qed.

(** X3.  Whatever the metadata and the directory are,
    [_generate_reader_content] of htmlcmb_v3.py either raises the
    [ValueError] of a sort key or numbers the image elements of the
    reading area 1, 2, 3, ... in the order in which they are written: no
    page number is used twice and none is left out. *)
Theorem reader_pages_numbered_from_one
    (guess_type : string → option string) (sep : ascii) (md : MangaMetadata)
    (tree : node) :
  match MangaHTMLGenerator.reader_elements guess_type sep md tree with
  | inr elements =>
      let pages := page_numbers elements in
      pages = counting 1 (length pages) ∧ NoDup pages
  | inl e => ∃ message, e = ValueError message
  end.
Proof.
  unfold MangaHTMLGenerator.reader_elements.
  destruct (sort_chapters_outcome sep (base_path md)
              (MangaHTMLGenerator.chapter_order
                 (MangaHTMLGenerator._determine_image_chapter md)
                 (MangaHTMLGenerator.all_images guess_type sep (base_path md) tree))
              (MangaHTMLGenerator.group_by_chapter
                 (MangaHTMLGenerator._determine_image_chapter md)
                 (MangaHTMLGenerator.all_images guess_type sep (base_path md) tree)))
    as [(m' & -> & _)|(msg & -> & _)]; [|by eexists].
  change (inr m' ≫= ?f) with (f m'). cbv beta. unfold mret, result_ret. cbv zeta.
  destruct (output_chapters_numbers sep (base_path md) m'
              (sort_by_key Z.ltb number (chapters md)) 1) as [count ->].
  rewrite counting_length. split; [done|].
  unfold counting. apply NoDup_fmap_2; [|apply NoDup_seq].
  intros i j H. lia.
Qed.

Lemma chapter_metadata_indexed (sep : ascii) (base : path) (n : Z) (images : list path)
    (page : Z) :
  (VirtualScroll.chapter_metadata sep base n images page).2
  = page + Z.of_nat (length images) ∧
  length (VirtualScroll.chapter_metadata sep base n images page).1 = length images ∧
  ∀ (i : nat) item,
    (VirtualScroll.chapter_metadata sep base n images page).1 !! i = Some item →
    im_page item = page + Z.of_nat i ∧
    im_name item = "Page " +:+ Str.of_Z (im_page item).
Proof.
  revert page. induction images as [|img images IH]; intros page.
  - simpl. split; [lia|]. split; [done|]. intros i item H. done.
  - cbn [VirtualScroll.chapter_metadata]. specialize (IH (page + 1)).
    destruct (VirtualScroll.chapter_metadata sep base n images (page + 1))
      as [items next]. destruct IH as (IH1 & IH2 & IH3). cbn [fst snd] in *.
    split; [cbn [length]; lia|]. split; [cbn [length]; lia|].
    intros [|i] item H.
    + injection H as <-. simpl. split; [lia|done].
    + apply IH3 in H as [H1 H2]. split; [lia|done].
Qed.

Lemma collect_chapters_indexed (sep : ascii) (base : path) (m : gmap Z (list path))
    (chs : list Chapter) (page : Z) (i : nat) (item : ImageMetadata) :
  VirtualScroll.collect_chapters sep base m chs page !! i = Some item →
  im_page item = page + Z.of_nat i ∧
  im_name item = "Page " +:+ Str.of_Z (im_page item).
Proof.
  revert page i. induction chs as [|c chs IH]; intros page i; [done|].
  cbn [VirtualScroll.collect_chapters].
  destruct (m !! number c) as [images|]; [|apply IH].
  destruct (chapter_metadata_indexed sep base (number c) images page)
    as (H1 & H2 & H3).
  destruct (VirtualScroll.chapter_metadata sep base (number c) images page)
    as [items next]. cbn [fst snd] in *.
  intros H. apply lookup_app_Some in H as [H|[Hlen H]]; [by apply H3|].
  apply IH in H as [Hp Hn]. split; [lia|done].
Qed.

(** X4.  The records that htmlcmb_v3_virtualscroll.py writes into the page as
    [window.mangaImageData], when [_collect_image_metadata] returns them,
    are numbered by their position: the record that
    [renderPage(pageNum)] reads at the index [pageNum - 1] has the page
    number [pageNum] and the name made of it. *)
Theorem image_data_indexed_by_page
    (guess_type : string → option string) (sep : ascii)
    (self : VirtualScrollMangaGenerator) (tree : node) (pageNum : Z)
    (imageInfo : ImageMetadata) :
  1 ≤ pageNum →
  ∀ records,
    VirtualScroll._collect_image_metadata guess_type sep self tree = inr records →
    records !! Z.to_nat (pageNum - 1) = Some imageInfo →
    im_page imageInfo = pageNum ∧
    im_name imageInfo = "Page " +:+ Str.of_Z pageNum.
Proof.
  intros Hp records Hr H. unfold VirtualScroll._collect_image_metadata in Hr.
  destruct (MangaHTMLGenerator.sort_chapters _ _ _ _) as [|m']; [done|].
  injection Hr as <-.
  apply collect_chapters_indexed in H as [H1 H2].
  assert (im_page imageInfo = pageNum) as Heq by lia.
  split; [done|]. by rewrite H2, Heq.
Qed.

(** ** Chapter names *)

Lemma of_Z_digits (n : Z) : 0 ≤ n → Str.forallb Str.is_digit (Str.of_Z n) = true.
Proof.
  assert (∀ d, Str.forallb Str.is_digit (NilEmpty.string_of_uint d) = true) as Hu
    by (induction d; simpl; done).
  assert (∀ d, Str.forallb Str.is_digit (NilZero.string_of_uint d) = true) as Hz
    by (intros [| | | | | | | | | |]; try apply Hu; done).
  intros Hn. unfold Str.of_Z. destruct n as [|p|p]; [done| |lia].
  simpl. apply Hz.
Qed.

Lemma title_from_forallb (p : ascii → bool) (cased : bool) (s : string) :
  (∀ c, p c = true → p (Str.lower_char c) = true ∧ p (Str.upper_char c) = true) →
  Str.forallb p s = true → Str.forallb p (MangaAnalyzer.title_from cased s) = true.
Proof.
  intros Hp. revert cased. induction s as [|c s IH]; intros cased; [done|].
  cbn [Str.forallb MangaAnalyzer.title_from]. intros H.
  apply andb_true_iff in H as [Hc Hs]. destruct (Hp c Hc) as [Hl Hu].
  destruct (Str.is_lower c || Str.is_upper c); cbn [Str.forallb].
  - rewrite IH by done. by destruct cased; rewrite ?Hl, ?Hu.
  - by rewrite Hc, IH.
Qed.

Lemma case_keeps_other_characters (x c : ascii) :
  x = "_"%char ∨ x = "-"%char →
  negb (Ascii.eqb x c) = true →
  negb (Ascii.eqb x (Str.lower_char c)) = true ∧
  negb (Ascii.eqb x (Str.upper_char c)) = true.
Proof.
  intros [-> | ->]; destruct c as [[] [] [] [] [] [] [] []]; by vm_compute.
Qed.

Lemma replace_keeps_absent (c : ascii) (old new s : string) :
  Str.forallb (λ d, negb (Ascii.eqb c d)) new = true →
  Str.forallb (λ d, negb (Ascii.eqb c d)) s = true →
  Str.forallb (λ d, negb (Ascii.eqb c d)) (Str.replace old new s) = true.
Proof. intros Hn Hs. by apply replace_from_forallb. Qed.

(** X5.  The name that [_format_chapter_name] gives a chapter is never empty
    and holds neither an underscore nor a hyphen, for every folder name
    and every chapter number that is not negative. *)
Theorem chapter_name_without_separators (folder_name : string) (chapter_number : Z) :
  0 ≤ chapter_number →
  let chapter_name := MangaAnalyzer._format_chapter_name folder_name chapter_number in
  chapter_name ≠ "" ∧
  Str.contains_char "_" chapter_name = false ∧
  Str.contains_char "-" chapter_name = false.
Proof.
  intros Hn chapter_name. subst chapter_name.
  unfold MangaAnalyzer._format_chapter_name.
  set (name := Str.replace "-" " " (Str.replace "_" " " folder_name)).
  assert (Str.forallb (λ d, negb (Ascii.eqb "_" d)) name = true) as Hu.
  { subst name. apply replace_keeps_absent; [done|]. by apply replace_char_gone. }
  assert (Str.forallb (λ d, negb (Ascii.eqb "-" d)) name = true) as Hh.
  { subst name. by apply replace_char_gone. }
  assert (∀ x t, Str.forallb (λ d, negb (Ascii.eqb x d)) "Chapter " = true →
                 Str.forallb (λ d, negb (Ascii.eqb x d)) t = true →
                 Str.contains_char x ("Chapter " +:+ t) = false) as Hchapter.
  { intros x t H1 H2. rewrite contains_char_forallb, forallb_app, H1, H2. done. }
  assert (∀ x, x = "_"%char ∨ x = "-"%char →
               Str.forallb (λ d, negb (Ascii.eqb x d)) name = true →
               Str.contains_char x (MangaAnalyzer.title_case name) = false) as Htitle.
  { intros x Hx H. rewrite contains_char_forallb. apply negb_false_iff.
    apply title_from_forallb; [|done]. intros c. by apply case_keeps_other_characters. }
  assert (∀ x, x = "_"%char ∨ x = "-"%char →
               Str.forallb (λ d, negb (Ascii.eqb x d)) (Str.of_Z chapter_number) = true)
    as Hnumber.
  { intros x Hx. eapply forallb_impl; [|by apply of_Z_digits].
    intros c. destruct Hx as [-> | ->]; destruct c as [[] [] [] [] [] [] [] []]; done. }
  destruct (Str.isdigit name).
  { split; [done|]. split; by apply Hchapter. }
  destruct name as [|c name'] eqn:E.
  { split; [done|]. split; apply Hchapter; try done; apply Hnumber; by auto. }
  destruct (Str.is_digit c).
  { split; [done|]. split; by apply Hchapter. }
  split.
  - unfold MangaAnalyzer.title_case. cbn [MangaAnalyzer.title_from].
    by destruct (Str.is_lower c || Str.is_upper c).
  - split; apply Htitle; auto.
Qed.

(** ** Book titles *)

Lemma split_parts_without_separator (c : ascii) (s : string) :
  Forall (λ part, Str.forallb (λ d, negb (Ascii.eqb c d)) part = true) (Str.split c s).
Proof.
  induction s as [|d s IH]; cbn [Str.split]; [by repeat constructor|].
  destruct (Ascii.eqb c d) eqn:E; [by constructor|].
  destruct (Str.split c s) as [|w ws]; [by repeat constructor; simpl; rewrite E|].
  inversion IH as [|? ? Hw Hws]; subst. constructor; [|done].
  simpl. by rewrite E, Hw.
Qed.

Lemma lstrip_forallb (p : ascii → bool) (chars s : string) :
  Str.forallb p s = true → Str.forallb p (Str.lstrip chars s) = true.
Proof.
  induction s as [|d s IH]; [done|]. cbn [Str.lstrip].
  destruct (Str.contains_char d chars); [|done].
  simpl. intros H. apply andb_true_iff in H as [_ H]. by apply IH.
Qed.

Lemma rstrip_forallb (p : ascii → bool) (chars s : string) :
  Str.forallb p s = true → Str.forallb p (Str.rstrip chars s) = true.
Proof.
  induction s as [|d s IH]; [done|]. cbn [Str.rstrip Str.forallb].
  intros H. apply andb_true_iff in H as [Hd H]. specialize (IH H).
  destruct (Str.rstrip chars s).
  - destruct (Str.contains_char d chars); [done|]. simpl. by rewrite Hd.
  - cbn [Str.forallb] in *. by rewrite Hd, IH.
Qed.

Lemma last_Forall {A : Type} (P : A → Prop) (l : list A) (d : A) :
  Forall P l → P d → P (List.last l d).
Proof.
  intros H Hd. induction H as [|x l Hx Hl IH]; [done|]. by destruct l.
Qed.

(** X6.  The title that [_extract_title] gives a book is empty only for an
    empty folder name; and unless it is the folder name itself, which is
    what the script falls back to, it holds neither a dot nor an
    underscore. *)
Theorem extract_title_cleaned (folder_name : string) :
  let title := BookshelfScanner._extract_title folder_name in
  (folder_name ≠ "" → title ≠ "") ∧
  (title = folder_name ∨
   (Str.contains_char "." title = false ∧ Str.contains_char "_" title = false)).
Proof.
  intros title. subst title. unfold BookshelfScanner._extract_title.
  set (part := List.last (Str.split "." folder_name) "").
  set (cleaned := Str.strip Str.whitespace (Str.replace "_" " " part)).
  destruct (String.eqb cleaned "") eqn:E; [by split; [|left]|].
  split; [intros _; by apply String.eqb_neq|]. right.
  assert (Str.forallb (λ d, negb (Ascii.eqb "." d)) part = true) as Hpart.
  { subst part.
    apply (last_Forall (λ part, Str.forallb _ part = true)); [|done].
    apply split_parts_without_separator. }
  rewrite !contains_char_forallb. subst cleaned. unfold Str.strip.
  split; apply negb_false_iff, rstrip_forallb, lstrip_forallb.
  - by apply replace_keeps_absent.
  - by apply replace_char_gone.
Qed.

(** ** Covers and page counts of the shelf *)

Lemma count_images_Dir (folder : path) (es : list (string * node)) :
  BookshelfScanner.count_images folder (Dir es)
  = sum_over (λ e, BookshelfScanner.count_images (folder ++ [e.1]) e.2) es.
Proof.
  cbn [BookshelfScanner.count_images]. induction es as [|[k v] es IH]; [done|].
  simpl. by rewrite IH.
Qed.

Lemma sum_over_nonneg {A : Type} (f : A → Z) (l : list A) :
  Forall (λ x, 0 ≤ f x) l → 0 ≤ sum_over f l.
Proof.
  unfold sum_over. induction 1 as [|x l Hx _ IH]; simpl; [done|lia].
Qed.

Lemma sum_over_pos {A : Type} (f : A → Z) (l : list A) :
  Forall (λ x, 0 ≤ f x) l → (0 < sum_over f l ↔ ∃ x, x ∈ l ∧ 0 < f x).
Proof.
  induction 1 as [|x l Hx Hl IH].
  - split; [by unfold sum_over; simpl; lia|].
    intros (x & Hin & _). by apply elem_of_nil in Hin.
  - pose proof (sum_over_nonneg f l Hl) as Hn. unfold sum_over in *. simpl. split.
    + intros H. destruct (decide (0 < f x)) as [Hpos|Hzero].
      * exists x. split; [left|done].
      * destruct (proj1 IH ltac:(lia)) as (y & Hy & Hpos). exists y. split; [by right|done].
    + intros (y & Hy & Hpos). apply elem_of_cons in Hy as [->|Hy]; [lia|].
      assert (0 < foldr (λ x acc, f x + acc) 0 l) by (apply IH; by exists y). lia.
Qed.

Lemma count_images_nonneg (n : node) (folder : path) :
  0 ≤ BookshelfScanner.count_images folder n.
Proof.
  revert folder. induction n as [c|es IH] using node_induction; intros folder.
  - simpl. by destruct (ImageSearchEngine._is_image folder).
  - rewrite count_images_Dir. apply sum_over_nonneg.
    eapply Forall_impl; [exact IH|]. intros e He. apply He.
Qed.

Lemma replace_char_nonempty (c d : ascii) (s : string) :
  s ≠ "" → Str.replace (String c "") (String d "") s ≠ "".
Proof.
  destruct s as [|x s]; [done|]. intros _. unfold Str.replace.
  cbn [Str.replace_from]. by destruct (String.prefix _ _).
Qed.

Lemma src_path_nonempty (sep : ascii) (base book rel : path) :
  book ≠ [] → rel ≠ [] → Emitted.src_path sep base (base ++ book ++ rel) ≠ "".
Proof.
  intros Hb Hr. unfold Emitted.src_path. rewrite relative_path_below.
  apply replace_char_nonempty. unfold Path.str.
  destruct book as [|b book]; [done|]. destruct (book ++ rel) as [|x l] eqn:E.
  { apply app_eq_nil in E as [_ ->]. done. }
  cbn [app]. rewrite E.
  change (Str.join ?s (b :: x :: l)) with (b +:+ s +:+ Str.join s (x :: l)).
  destruct b; done.
Qed.

Lemma find_is_Some {A : Type} (p : A → bool) (l : list A) :
  is_Some (List.find p l) ↔ ∃ x, x ∈ l ∧ p x = true.
Proof.
  split.
  - intros [x Hx]. apply find_some in Hx as [Hin Hp]. exists x.
    split; [by apply list_elem_of_In|done].
  - intros (x & Hin & Hp). destruct (List.find p l) as [y|] eqn:E; [by eexists|].
    apply list_elem_of_In in Hin. by rewrite (find_none _ _ E x Hin) in Hp.
Qed.

Lemma find_first_image_found (sep : ascii) (base : path) (n : node) (book : path) :
  book ≠ [] →
  (∀ image, ImageSearchEngine.find_first_image sep base (base ++ book) n = Some image →
            image ≠ "") ∧
  (is_Some (ImageSearchEngine.find_first_image sep base (base ++ book) n) ↔
   FS.is_dir_node n = true ∧ 0 < BookshelfScanner.count_images (base ++ book) n).
Proof.
  intros Hbook.
  assert (∀ image, ImageSearchEngine.find_first_image sep base (base ++ book) n
                   = Some image → image ≠ "") as Hnonempty.
  { intros image H.
    destruct (find_first_image_names (λ _, true) sep base n (base ++ book) image
                (names_ok_any n) H) as (rel & Hrel & _ & ->).
    rewrite <- app_assoc. by apply src_path_nonempty. }
  split; [exact Hnonempty|]. clear Hnonempty.
  revert book Hbook. induction n as [c|es IH] using node_induction; intros book Hbook.
  { simpl. split; [by intros [? ?]|by intros [? _]]. }
  rewrite count_images_Dir, find_first_image_Dir. cbv zeta.
  set (folder := base ++ book).
  set (searched := List.map _ es).
  rewrite sum_over_pos
    by (apply Forall_forall; intros e _; apply count_images_nonneg).
  assert (∀ x, x ∈ searched ↔
            ∃ e, e ∈ es ∧
              x = (e.1, (e.2, ImageSearchEngine.find_first_image sep base
                                (folder ++ [e.1]) e.2))) as Hsearched.
  { intros x. subst searched. rewrite list_elem_of_In, in_map_iff. split.
    - intros (e & <- & He). exists e. by rewrite list_elem_of_In.
    - intros (e & He & ->). exists e. by rewrite <- list_elem_of_In. }
  rewrite Forall_forall in IH.
  assert (∀ e, e ∈ es → FS.is_dir_node e.2 = true →
            (is_Some (ImageSearchEngine.find_first_image sep base (folder ++ [e.1]) e.2)
             ↔ 0 < BookshelfScanner.count_images (folder ++ [e.1]) e.2)) as Hsub.
  { intros e He Hd. subst folder. rewrite <- app_assoc.
    rewrite (IH e He (book ++ [e.1])) by (by destruct book). tauto. }
  assert (∀ e image,
            ImageSearchEngine.find_first_image sep base (folder ++ [e.1]) e.2 = Some image →
            negb (String.eqb image "") = true) as Hsome.
  { intros e image H. apply negb_true_iff, String.eqb_neq.
    destruct (find_first_image_names (λ _, true) sep base e.2 (folder ++ [e.1]) image
                (names_ok_any _) H) as (rel & Hrel & _ & ->).
    subst folder. rewrite <- !app_assoc. apply src_path_nonempty; [done|].
    by destruct rel. }
  split.
  - intros Hfound. split; [done|].
    destruct (List.find _ (ImageSearchEngine.sorted_entries searched)) as [file|] eqn:Ef.
    + apply find_some in Ef as [Hin Hp]. apply list_elem_of_In in Hin.
      unfold ImageSearchEngine.sorted_entries in Hin. rewrite sort_perm in Hin.
      apply Hsearched in Hin as (e & He & ->). simpl in Hp.
      apply andb_true_iff in Hp as [Hf Hi]. exists e. split; [done|].
      destruct e as [k [c|es']]; [|done]. simpl in *. by rewrite Hi.
    + destruct (List.find _ (ImageSearchEngine.sorted_entries (List.filter _ searched)))
        as [subfolder|] eqn:Es; [|by destruct Hfound].
      apply find_some in Es as [Hin Hp]. apply list_elem_of_In in Hin.
      unfold ImageSearchEngine.sorted_entries in Hin. rewrite sort_perm in Hin.
      apply list_elem_of_In, filter_In in Hin as [Hin Hd]. apply list_elem_of_In in Hin.
      apply Hsearched in Hin as (e & He & ->). simpl in *.
      exists e. split; [done|]. by apply Hsub.
  - intros [_ (e & He & Hpos)].
    destruct (List.find _ (ImageSearchEngine.sorted_entries searched)) as [file|] eqn:Ef;
      [by eexists|].
    assert (FS.is_dir_node e.2 = true) as Hd.
    { destruct e as [k [c|es']] eqn:Ee; [|done]. exfalso. simpl in Hpos.
      destruct (ImageSearchEngine._is_image (folder ++ [k])) eqn:Hi; [|lia].
      assert ((k, (File c, ImageSearchEngine.find_first_image sep base
                             (folder ++ [k]) (File c)))
              ∈ ImageSearchEngine.sorted_entries searched) as Hin.
      { unfold ImageSearchEngine.sorted_entries. rewrite sort_perm.
        apply Hsearched. by exists (k, File c). }
      apply list_elem_of_In in Hin. pose proof (find_none _ _ Ef _ Hin) as Hp.
      simpl in Hp. by rewrite Hi in Hp. }
    apply (Hsub e He Hd) in Hpos as [image Himage].
    assert (is_Some (List.find
              (λ subfolder : string * (node * option string),
                 match subfolder.2.2 with
                 | Some image => negb (String.eqb image "")
                 | None => false
                 end)
              (ImageSearchEngine.sorted_entries
                 (List.filter (λ f, FS.is_dir_node f.2.1) searched)))) as [sub Hfind].
    { apply find_is_Some.
      exists (e.1, (e.2, ImageSearchEngine.find_first_image sep base (folder ++ [e.1]) e.2)).
      split.
      - unfold ImageSearchEngine.sorted_entries. rewrite sort_perm.
        apply list_elem_of_In, filter_In. split; [|done].
        apply list_elem_of_In, Hsearched. by exists e.
      - simpl. rewrite Himage. by eapply Hsome. }
    rewrite Hfind. apply find_some in Hfind as [Hin Hp].
    destruct (sub.2.2); [by eexists|done].
Qed.

Lemma find_first_image_truthy (sep : ascii) (base book : path) (n : node) :
  book ≠ [] →
  BookshelfScanner.truthy
    (ImageSearchEngine.find_first_image sep base (base ++ book) n)
  = bool_decide (0 < (BookshelfScanner._count_content (base ++ book) n).1).
Proof.
  intros Hbook. destruct (find_first_image_found sep base n book Hbook) as [Hne Hiff].
  assert ((BookshelfScanner._count_content (base ++ book) n).1
          = if FS.is_dir_node n then BookshelfScanner.count_images (base ++ book) n else 0)
    as -> by (by destruct n).
  destruct (ImageSearchEngine.find_first_image sep base (base ++ book) n) as [image|].
  - simpl. rewrite (proj2 (String.eqb_neq image "")) by (by apply Hne). simpl.
    destruct (proj1 Hiff ltac:(by eexists)) as [-> Hpos].
    by rewrite bool_decide_eq_true_2.
  - simpl. symmetry. apply bool_decide_eq_false_2. intros Hpos.
    destruct (FS.is_dir_node n) eqn:Hd; [|lia].
    by destruct (proj2 Hiff (conj eq_refl Hpos)).
Qed.

(** X7.  A book has a cover exactly when it has a page: for a book folder
    other than the base directory itself, [find_first_image] returns a
    reference, which is never the empty string, exactly when
    [_count_content] counts at least one image file below the folder. *)
Theorem cover_found_iff_pages (sep : ascii) (base book : path) (n : node) :
  book ≠ [] →
  BookshelfScanner.truthy
    (ImageSearchEngine.find_first_image sep base (base ++ book) n)
  = bool_decide (0 < (BookshelfScanner._count_content (base ++ book) n).1).
Proof. apply find_first_image_truthy. Qed.

(** ** The scan of the shelf *)

Lemma lookup_app (fs : node) (p q : path) :
  FS.lookup fs (p ++ q)
  = match FS.lookup fs p with Some n => FS.lookup n q | None => None end.
Proof.
  revert fs. induction p as [|k p IH]; intros fs; [done|].
  simpl. destruct fs as [c|es]; [done|]. destruct (FS.entry k es); [apply IH|done].
Qed.

Lemma exists_child (fs : node) (folder : path) (k : string) :
  FS.exists_ fs (folder ++ [k]) = true ↔
  ∃ es, FS.lookup fs folder = Some (Dir es) ∧ is_Some (FS.entry k es).
Proof.
  unfold FS.exists_. rewrite bool_decide_eq_true, lookup_app.
  destruct (FS.lookup fs folder) as [[c|es]|]; simpl.
  - split; [by intros [? ?]|by intros (? & ? & _)].
  - split.
    + intros H. exists es. split; [done|]. by destruct (FS.entry k es).
    + intros (es' & [= <-] & [v ->]). by eexists.
  - split; [by intros [? ?]|by intros (? & ? & _)].
Qed.

Lemma entry_is_Some (k : string) (es : list (string * node)) :
  is_Some (FS.entry k es) ↔ k ∈ es.*1.
Proof.
  induction es as [|[k' v] es IH]; simpl.
  - split; [by intros [? ?]|]. intros H. by apply elem_of_nil in H.
  - destruct (String.eqb_spec k' k) as [->|Hne].
    + split; [intros _; left|by eexists].
    + rewrite IH. split; [by right|]. intros H.
      apply elem_of_cons in H as [->|H]; done.
Qed.

Lemma name_snoc (folder : path) (k : string) : Path.name (folder ++ [k]) = k.
Proof. unfold Path.name. apply last_last. Qed.

Lemma suffix_snoc (folder : path) (k : string) :
  Path.suffix (folder ++ [k]) = Path.suffix [k].
Proof. unfold Path.suffix. by rewrite name_snoc. Qed.

(** A reader file that is found exists, and lies in the folder. *)
Lemma find_reader_file_exists (sep : ascii) (fs : node) (folder base : path)
    (link : string) :
  ReaderFileFinder.find_reader_file sep fs folder base = Some link →
  ∃ file, link = Emitted.src_path sep base (folder ++ [file]) ∧
          FS.exists_ fs (folder ++ [file]) = true.
Proof.
  unfold ReaderFileFinder.find_reader_file.
  destruct (List.find _ ReaderFileFinder.READER_PRIORITIES) as [file|] eqn:Ef.
  - intros [= <-]. apply find_some in Ef as [_ He]. by exists file.
  - unfold FS.listdir. destruct (FS.lookup fs folder) as [[c|es]|] eqn:El; try done.
    destruct (List.find _ (es.*1)) as [file|] eqn:Eh; [|done].
    intros [= <-]. apply find_some in Eh as [Hin _]. apply list_elem_of_In in Hin.
    exists file. split; [done|]. apply exists_child. exists es. split; [done|].
    by apply entry_is_Some.
Qed.

(** A folder that holds a file whose name ends in .html has a reader. *)
Lemma find_reader_file_html (sep : ascii) (fs : node) (folder base : path)
    (file : string) :
  FS.exists_ fs (folder ++ [file]) = true →
  Str.lower (Path.suffix [file]) = ".html" →
  is_Some (ReaderFileFinder.find_reader_file sep fs folder base).
Proof.
  intros He Hs. unfold ReaderFileFinder.find_reader_file.
  destruct (List.find _ ReaderFileFinder.READER_PRIORITIES); [by eexists|].
  apply exists_child in He as (es & El & Hk). unfold FS.listdir. rewrite El.
  assert (is_Some (List.find
            (λ file, String.eqb (Str.lower (Path.suffix (folder ++ [file]))) ".html")
            (es.*1))) as [found ->]; [|by eexists].
  apply find_is_Some. exists file. split; [by apply entry_is_Some|].
  by rewrite suffix_snoc, Hs.
Qed.

Lemma create_virtual_scroll_reader_spec (fs fs' : node) (folder : path)
    (r : result path) :
  ProgressiveReader.create_virtual_scroll_reader fs folder = (fs', r) →
  match r with
  | inl _ => fs' = fs
  | inr _ =>
      ∃ template,
        (template = "manga-reader-fix.html" ∨ template = "index-mb.html") ∧
        FS.exists_ fs (folder ++ [template]) = true ∧
        ProgressiveReader.copy2 fs (folder ++ [template])
          (folder ++ ["index-mb-virtualscroll.html"]) = Some fs'
  end.
Proof.
  unfold ProgressiveReader.create_virtual_scroll_reader, ProgressiveReader.run_script,
    ProgressiveReader.create_progressive_reader.
  destruct (negb (FS.exists_ fs folder)); [by intros [= <- <-]|].
  destruct (FS.exists_ fs (folder ++ ["manga-reader-fix.html"])) eqn:E1.
  - destruct (ProgressiveReader.copy2 _ _ _) as [fs1|] eqn:Ec; intros [= <- <-]; [|done].
    exists "manga-reader-fix.html". by auto.
  - destruct (FS.exists_ fs (folder ++ ["index-mb.html"])) eqn:E2;
      [|by intros [= <- <-]].
    destruct (ProgressiveReader.copy2 _ _ _) as [fs1|] eqn:Ec; intros [= <- <-]; [|done].
    exists "index-mb.html". by auto.
Qed.

Lemma exists_not_dir (fs : node) (p : path) :
  FS.exists_ fs p = false → FS.is_dir fs p = false.
Proof.
  unfold FS.exists_, FS.is_dir. intros H. apply bool_decide_eq_false in H.
  destruct (FS.lookup fs p) as [[c|es]|]; try done. exfalso. apply H. by eexists.
Qed.

(** The scanner returns a link exactly when the folder had a reader file
    before, and the link names a file that exists afterwards. *)
Lemma ensure_optimal_reader_spec (sep : ascii) (script_present : bool) (fs : node)
    (base folder : path) (page_count : Z) :
  let result :=
    BookshelfScanner._ensure_optimal_reader sep script_present fs base folder
      page_count in
  (is_Some result.2 ↔ is_Some (ReaderFileFinder.find_reader_file sep fs folder base)) ∧
  (∀ link, result.2 = Some link →
     ∃ file, link = Emitted.src_path sep base (folder ++ [file]) ∧
             FS.exists_ result.1 (folder ++ [file]) = true) ∧
  (result.1 = fs ∨
   ∃ content,
     FS.exists_ fs (folder ++ ["index-mb-virtualscroll.html"]) = false ∧
     FS.write fs (folder ++ ["index-mb-virtualscroll.html"]) content = Some result.1).
Proof.
  intros result. subst result. unfold BookshelfScanner._ensure_optimal_reader.
  set (virtual := folder ++ ["index-mb-virtualscroll.html"]).
  assert (FS.exists_ fs virtual = true →
          is_Some (ReaderFileFinder.find_reader_file sep fs folder base)) as Hvirtual.
  { intros He. by apply (find_reader_file_html sep fs folder base _ He). }
  assert (∀ b : bool,
    let r := if b && FS.exists_ fs virtual
             then (fs, Some (Emitted.src_path sep base virtual))
             else (fs, ReaderFileFinder.find_reader_file sep fs folder base) in
    (is_Some r.2 ↔ is_Some (ReaderFileFinder.find_reader_file sep fs folder base)) ∧
    (∀ link, r.2 = Some link →
       ∃ file, link = Emitted.src_path sep base (folder ++ [file]) ∧
               FS.exists_ r.1 (folder ++ [file]) = true) ∧
    (r.1 = fs ∨
     ∃ content, FS.exists_ fs virtual = false ∧
                FS.write fs virtual content = Some r.1)) as Hfall.
  { intros b. destruct (b && FS.exists_ fs virtual) eqn:E; cbn [fst snd].
    - apply andb_true_iff in E as [_ E]. split; [|split; [|by left]].
      + split; [intros _; by apply Hvirtual|by eexists].
      + intros link [= <-]. by exists "index-mb-virtualscroll.html".
    - split; [done|]. split; [|by left]. apply find_reader_file_exists. }
  destruct (bool_decide (page_count > 5000) && negb (FS.exists_ fs virtual)) eqn:En;
    [|apply Hfall].
  destruct script_present; [|apply Hfall].
  apply andb_true_iff in En as [Hn He]. apply negb_true_iff in He.
  destruct (ProgressiveReader.create_virtual_scroll_reader fs folder) as [fs' r] eqn:Ec.
  pose proof (create_virtual_scroll_reader_spec fs fs' folder r Ec) as Hc.
  destruct r as [e|p].
  - subst fs'. apply Hfall.
  - destruct Hc as (template & Ht & Hex & Hcopy). cbn [fst snd].
    unfold ProgressiveReader.copy2 in Hcopy.
    destruct (FS.lookup fs (folder ++ [template])) as [[content|es]|]; try done.
    fold virtual in Hcopy. rewrite (exists_not_dir fs virtual He) in Hcopy.
    split; [|split].
    + split; [intros _|by eexists].
      apply (find_reader_file_html sep fs folder base template Hex).
      by destruct Ht as [-> | ->].
    + intros link [= <-]. exists "index-mb-virtualscroll.html". split; [done|].
      unfold FS.exists_. apply bool_decide_eq_true. fold virtual.
      rewrite (lookup_write fs fs' virtual content Hcopy). by eexists.
    + right. by exists content.
Qed.

Lemma set_entry_absent (k : string) (v : node) (es : list (string * node)) :
  FS.entry k es = None → FS.set_entry k v es = es ++ [(k, v)].
Proof.
  induction es as [|[k' v'] es IH]; simpl; [done|].
  destruct (String.eqb k' k); [done|]. intros H. by rewrite IH.
Qed.

(** Writing a new file adds one entry at the end of its directory. *)
Lemma lookup_write_parent (n n' : node) (p : path) (k content : string) :
  FS.write n (p ++ [k]) content = Some n' →
  FS.exists_ n (p ++ [k]) = false →
  ∃ es, FS.lookup n p = Some (Dir es) ∧
        FS.lookup n' p = Some (Dir (es ++ [(k, File content)])).
Proof.
  revert n n'. induction p as [|a p IH]; intros n n' Hw He.
  - simpl in Hw. destruct n as [c|es]; [done|].
    destruct (FS.entry k es) as [v|] eqn:E.
    + exfalso. unfold FS.exists_ in He. apply bool_decide_eq_false in He. apply He.
      simpl. rewrite E. by eexists.
    + injection Hw as <-. exists es. split; [done|]. simpl.
      by rewrite set_entry_absent.
  - cbn [app FS.write] in Hw. destruct n as [c|es]; [done|].
    destruct (FS.entry a es) as [v|] eqn:E.
    + destruct (FS.write v (p ++ [k]) content) as [v'|] eqn:W; [|done].
      injection Hw as <-.
      destruct (IH v v' W) as (es' & H1 & H2).
      { unfold FS.exists_ in *. cbn [app FS.lookup] in He. by rewrite E in He. }
      exists es'. simpl. by rewrite E, entry_set_entry.
    + by destruct p.
Qed.

Lemma sum_over_app {A : Type} (f : A → Z) (a b : list A) :
  sum_over f (a ++ b) = sum_over f a + sum_over f b.
Proof.
  unfold sum_over. induction a as [|x a IH]; simpl; [done|]. rewrite IH. lia.
Qed.

Lemma virtual_scroll_name_no_image (folder : path) :
  ImageSearchEngine._is_image (folder ++ ["index-mb-virtualscroll.html"]) = false.
Proof.
  unfold ImageSearchEngine._is_image, ImageValidator.extension.
  by rewrite suffix_snoc.
Qed.

(** Writing a file removes nothing. *)
Lemma write_keeps_existing (n n' : node) (p q : path) (content : string) :
  FS.write n p content = Some n' →
  FS.exists_ n q = true → FS.exists_ n' q = true.
Proof.
  unfold FS.exists_. rewrite !bool_decide_eq_true.
  revert n n' q. induction p as [|k p IH]; intros n n' q Hw Hq.
  - simpl in Hw. destruct n as [c|es]; [|done]. injection Hw as <-.
    destruct q; [by eexists|]. by destruct Hq.
  - simpl in Hw. destruct n as [c|es]; [done|].
    destruct q as [|k' q]; [by eexists|]. simpl in *.
    destruct (decide (k = k')) as [<-|Hne].
    + destruct (FS.entry k es) as [v|] eqn:E.
      * destruct (FS.write v p content) as [v'|] eqn:W; [|done]. injection Hw as <-.
        rewrite entry_set_entry. by apply (IH v).
      * by destruct Hq.
    + destruct (FS.entry k es) as [v|] eqn:E.
      * destruct (FS.write v p content) as [v'|] eqn:W; [|done]. injection Hw as <-.
        by rewrite entry_set_entry_ne.
      * destruct p; [|done]. injection Hw as <-. by rewrite entry_set_entry_ne.
Qed.

(** What [_analyze_book_folder] returns for a folder other than the base
    directory. *)
Lemma analyze_book_folder_spec (sep : ascii) (script_present : bool) (fs : node)
    (base book : path) :
  book ≠ [] →
  let folder := base ++ book in
  let result := BookshelfScanner._analyze_book_folder sep script_present fs base folder in
  (is_Some result.2 ↔ is_Some (ReaderFileFinder.find_reader_file sep fs folder base)) ∧
  (∀ q, FS.exists_ fs q = true → FS.exists_ result.1 q = true) ∧
  ∀ b, result.2 = Some b →
    BookItem.folder_path b = folder ∧
    (∃ file, BookItem.reader_link b = Emitted.src_path sep base (folder ++ [file]) ∧
             FS.exists_ result.1 (folder ++ [file]) = true) ∧
    BookItem.reader_link b ≠ "" ∧
    BookshelfScanner.truthy (BookItem.cover_image b)
    = bool_decide (0 < BookItem.page_count b).
Proof.
  intros Hbook folder result. subst result.
  unfold BookshelfScanner._analyze_book_folder.
  set (counts := match FS.lookup fs folder with
                 | Some n => BookshelfScanner._count_content folder n
                 | None => (0, 0)
                 end).
  destruct counts as [page_count subfolder_count] eqn:Ecounts.
  destruct (ensure_optimal_reader_spec sep script_present fs base folder page_count)
    as (Hsome & Hlink & Hfs).
  destruct (BookshelfScanner._ensure_optimal_reader sep script_present fs base folder
              page_count) as [fs' reader_link]. cbn [fst snd] in *.
  assert (∀ link, reader_link = Some link → link ≠ "") as Hnonempty.
  { intros link H. destruct (Hlink link H) as (file & -> & _).
    subst folder. rewrite <- app_assoc. by apply src_path_nonempty. }
  assert (∀ q, FS.exists_ fs q = true → FS.exists_ fs' q = true) as Hmono.
  { destruct Hfs as [->|(content & _ & Hw)]; [done|].
    intros q. by apply (write_keeps_existing fs fs' _ q content Hw). }
  destruct reader_link as [link|]; cbn [fst snd].
  2: { split; [|done]. rewrite <- Hsome. done. }
  rewrite (proj2 (String.eqb_neq link "")) by (by apply Hnonempty).
  cbn [fst snd]. split.
  { rewrite <- Hsome. split; intros _; by eexists. }
  split; [exact Hmono|].
  intros b [= <-]. cbn. split; [done|]. split; [by apply Hlink|].
  split; [by apply Hnonempty|].
  assert (page_count = counts.1) as -> by (by rewrite Ecounts). subst counts.
  destruct Hfs as [->|(content & He & Hw)].
  - destruct (FS.lookup fs folder) as [n|]; [|done].
    by apply find_first_image_truthy.
  - destruct (lookup_write_parent fs fs' folder _ content Hw He) as (es & H1 & H2).
    rewrite H1, H2. subst folder. rewrite find_first_image_truthy by done.
    apply bool_decide_ext.
    cbn [BookshelfScanner._count_content fst]. rewrite !count_images_Dir, sum_over_app.
    unfold sum_over at 2. cbn [foldr fst snd BookshelfScanner.count_images].
    rewrite (virtual_scroll_name_no_image (base ++ book)). by rewrite !Z.add_0_r.
Qed.

Lemma with_cover_app (a b : list BookItem.t) :
  with_cover (a ++ b) = with_cover a ++ with_cover b.
Proof. unfold with_cover. apply List.filter_app. Qed.

Lemma scan_sequential_fold (sep : ascii) (script_present : bool) (base : path)
    (subdirs : list path) (fs : node) (books : list BookItem.t)
    (metrics : option PerformanceMetrics) :
  Forall (λ folder, ∃ book, book ≠ [] ∧ folder = base ++ book) subdirs →
  let result :=
    foldl (λ '(fs, books, metrics) folder,
             match BookshelfScanner._analyze_book_folder sep script_present fs base
                     folder with
             | (fs, Some book) =>
                 (fs, books ++ [book], BookshelfScanner.count_book book <$> metrics)
             | (fs, None) => (fs, books, metrics)
             end)
          (fs, books, metrics) subdirs in
  (∀ q, FS.exists_ fs q = true → FS.exists_ result.1.1 q = true) ∧
  ∃ new,
    result.1.2 = books ++ new ∧
    (BookItem.folder_path <$> new) `sublist_of` subdirs ∧
    Forall (λ b, (∃ file,
                    BookItem.reader_link b
                    = Emitted.src_path sep base (BookItem.folder_path b ++ [file]) ∧
                    FS.exists_ result.1.1 (BookItem.folder_path b ++ [file]) = true) ∧
                 BookItem.reader_link b ≠ "" ∧
                 BookshelfScanner.truthy (BookItem.cover_image b)
                 = bool_decide (0 < BookItem.page_count b)) new ∧
    result.2
    = (λ m, {| total_books := total_books m;
               books_with_images :=
                 books_with_images m + MangaAnalyzer.len (with_cover new);
               books_without_images :=
                 books_without_images m
                 + (MangaAnalyzer.len new - MangaAnalyzer.len (with_cover new));
               total_images_found :=
                 total_images_found m + sum_over BookItem.page_count new |})
      <$> metrics.
Proof.
  revert fs books metrics. induction subdirs as [|folder subdirs IH];
    intros fs books metrics Hsub result; subst result.
  - split; [done|]. exists []. cbn [foldl fst snd]. rewrite app_nil_r. split; [done|].
    split; [done|]. split; [done|]. destruct metrics as [[a b c d]|]; [|done].
    unfold MangaAnalyzer.len, sum_over, with_cover. simpl. do 2 f_equal; lia.
  - inversion Hsub as [|? ? (book & Hbook & ->) Hrest]; subst. cbn [foldl].
    destruct (analyze_book_folder_spec sep script_present fs base book Hbook)
      as (_ & Hmono & Hspec).
    destruct (BookshelfScanner._analyze_book_folder sep script_present fs base
                (base ++ book)) as [fs' [b|]]; cbn [fst snd] in Hspec, Hmono.
    + destruct (IH fs' (books ++ [b]) (BookshelfScanner.count_book b <$> metrics) Hrest)
        as (Hmono' & new & H1 & H2 & H3 & H4).
      split; [by auto|].
      destruct (Hspec b eq_refl) as (Hf & (file & Hfile & Hexists) & Hl & Hc).
      exists (b :: new). rewrite H1, <- app_assoc. split; [done|].
      split; [cbn [fmap list_fmap]; rewrite Hf; by constructor|].
      split.
      { constructor; [|done]. split; [|done]. exists file. rewrite Hf.
        split; [done|]. by apply Hmono'. }
      rewrite H4.
      destruct metrics as [[t w wo ti]|]; [|done].
      unfold with_cover, MangaAnalyzer.len, sum_over, BookshelfScanner.count_book.
      cbn [fmap option_fmap option_map List.filter foldr total_books books_with_images
           books_without_images total_images_found].
      destruct (BookshelfScanner.truthy (BookItem.cover_image b));
        cbn [length]; do 2 f_equal; lia.
    + destruct (IH fs' books metrics Hrest) as (Hmono' & new & H1 & H2 & H3 & H4).
      split; [by auto|].
      exists new. split; [done|]. split; [by constructor|]. done.
Qed.

(** X8.  What [scan_books] returns.  The books are sub-directories of the base
    directory, in the order of the listing and none twice; every book has
    a link, which names a file of its folder that exists when the scan
    ends, and it has a cover exactly when it has pages.  The counters,
    when they are kept, agree with the list of books: the number of
    sub-directories, the books with a cover, the other books, and the sum
    of the page counts. *)
Theorem scan_books_consistent (sep : ascii) (script_present : bool)
    (config : GenerationConfig) (fs : node) :
  let result := Bookshelf.scan_books sep script_present config fs in
  let books := result.1.2 in
  let subdirs :=
    BookshelfScanner.subdirs fs (config_base_path config)
      (default [] (FS.listdir fs (config_base_path config))) in
  (BookItem.folder_path <$> books) `sublist_of` subdirs ∧
  Forall (λ b, (∃ file,
                  BookItem.reader_link b
                  = Emitted.src_path sep (config_base_path config)
                      (BookItem.folder_path b ++ [file]) ∧
                  FS.exists_ result.1.1 (BookItem.folder_path b ++ [file]) = true) ∧
               BookItem.reader_link b ≠ "" ∧
               BookshelfScanner.truthy (BookItem.cover_image b)
               = bool_decide (0 < BookItem.page_count b)) books ∧
  result.2
  = (if enable_metrics config
     then Some {| total_books := MangaAnalyzer.len subdirs;
                  books_with_images := MangaAnalyzer.len (with_cover books);
                  books_without_images :=
                    MangaAnalyzer.len books - MangaAnalyzer.len (with_cover books);
                  total_images_found := sum_over BookItem.page_count books |}
     else None).
Proof.
  intros result books subdirs. subst result books subdirs.
  unfold Bookshelf.scan_books.
  destruct (FS.listdir fs (config_base_path config)) as [folder_names|]; cbn [default].
  - unfold BookshelfScanner._scan_sequential.
    set (subdirs := BookshelfScanner.subdirs fs (config_base_path config) folder_names).
    assert (Forall (λ folder, ∃ book, book ≠ [] ∧ folder = config_base_path config ++ book)
              subdirs) as Hsub.
    { apply Forall_forall. intros folder Hin. subst subdirs.
      unfold BookshelfScanner.subdirs in Hin.
      apply list_elem_of_In, filter_In in Hin as [Hin _].
      apply in_map_iff in Hin as (k & <- & _). by exists [k]. }
    destruct (scan_sequential_fold sep script_present (config_base_path config) subdirs
                fs []
                ((λ metrics,
                    {| total_books := MangaAnalyzer.len subdirs;
                       books_with_images := books_with_images metrics;
                       books_without_images := books_without_images metrics;
                       total_images_found := total_images_found metrics |})
                 <$> (if enable_metrics config
                      then Some (mkPerformanceMetrics 0 0 0 0) else None)) Hsub)
      as (_ & new & H1 & H2 & H3 & H4).
    rewrite H1, H4. cbn [app]. split; [done|]. split; [done|].
    destruct (enable_metrics config); [|done]. cbn. do 2 f_equal; lia.
  - cbn [fst snd fmap list_fmap]. split; [by apply sublist_nil_l|].
    split; [done|]. destruct (enable_metrics config); [|done].
    unfold BookshelfScanner.subdirs. done.
Qed.

(** X9.  [book_listed_iff_reader]: a sub-directory of the shelf becomes a book
    exactly when [find_reader_file] finds a reader file in it before the
    scan reaches it, and then the link of the book names a file of the
    folder that exists afterwards, though it may be a copy that the scan
    has made. *)
Theorem book_listed_iff_reader (sep : ascii) (script_present : bool) (fs : node)
    (base book : path) :
  book ≠ [] →
  let folder := base ++ book in
  let result := BookshelfScanner._analyze_book_folder sep script_present fs base folder in
  (is_Some result.2 ↔ is_Some (ReaderFileFinder.find_reader_file sep fs folder base)) ∧
  ∀ b, result.2 = Some b →
    ∃ file, BookItem.reader_link b = Emitted.src_path sep base (folder ++ [file]) ∧
            FS.exists_ result.1 (folder ++ [file]) = true.
Proof.
  intros Hbook folder result.
  destruct (analyze_book_folder_spec sep script_present fs base book Hbook)
    as (H1 & _ & H2).
  split; [exact H1|]. intros b Hb. by destruct (H2 b Hb) as (_ & H & _).
Qed.

(** ** The page list of create_progressive_reader.py *)

(** The sort of the file names: a rearranged list when every name has a
    key, and a [ValueError] otherwise. *)
Lemma sort_names_outcome (l : list string) :
  (forallb has_progressive_key l = true ∧
   ∃ l', ProgressiveReader.sort_names l = inr l' ∧ l' ≡ₚ l) ∨
  (forallb has_progressive_key l = false ∧
   ∃ m, ProgressiveReader.sort_names l = inl (ValueError m)).
Proof.
  unfold ProgressiveReader.sort_names.
  destruct (sort_with_outcome NaturalSort.progressive_sort_key
              progressive_sort_key_alternates
              (λ x, pieces_outcome Str.lower (NaturalSort.re_split_digits x)) l)
    as [(Hall & l' & Hs & Hp & _)|(Hex & Hm)]; [left|right].
  - split; [|by exists l']. apply forallb_forall. intros x Hx%list_elem_of_In.
    rewrite Forall_forall in Hall. destruct (Hall x Hx) as [k Hk].
    unfold has_progressive_key. by rewrite Hk.
  - split; [|done]. apply Exists_exists in Hex as (x & Hx & m & Hm').
    destruct (forallb has_progressive_key l) eqn:E; [|done].
    rewrite forallb_forall in E. specialize (E x (proj1 (list_elem_of_In _ _) Hx)).
    unfold has_progressive_key in E. by rewrite Hm' in E.
Qed.

Lemma numbered_snoc (images : list PageRecord) (src name : string) :
  numbered images →
  numbered (images ++ [ {| pr_page := MangaAnalyzer.len images + 1;
                           pr_src := src;
                           pr_name := name;
                           pr_chapter := MangaAnalyzer.len images / 100 + 1 |} ]).
Proof.
  intros H i r Hi. apply lookup_app_Some in Hi as [Hi|[Hlen Hi]]; [by apply H|].
  destruct (i - length images)%nat as [|j] eqn:E; [|done].
  injection Hi as <-. cbn. unfold MangaAnalyzer.len.
  replace (Z.of_nat (length images)) with (Z.of_nat i) by lia. done.
Qed.

Lemma scan_files_fold (sep : ascii) (folder root : path) (files : list string)
    (images : list PageRecord) :
  is_Some (Path.relative_to root folder) →
  numbered images →
  ∃ images',
    foldl (λ (state : option (list PageRecord * Z)) file,
             match state with
             | Some (images, total_pages) =>
                 match Path.relative_to (root ++ [file]) folder with
                 | Some relative_path =>
                     Some (images ++
                             [ {| pr_page := total_pages + 1;
                                  pr_src := Str.replace "\" "/"
                                              (Path.str sep relative_path);
                                  pr_name := file;
                                  pr_chapter := MangaAnalyzer.len images / 100 + 1 |} ],
                           total_pages + 1)
                 | None => None
                 end
             | None => None
             end)
          (Some (images, MangaAnalyzer.len images)) files
    = Some (images', MangaAnalyzer.len images') ∧
    numbered images' ∧
    MangaAnalyzer.len images' = MangaAnalyzer.len images + MangaAnalyzer.len files.
Proof.
  intros Hrel. revert images. induction files as [|file files IH]; intros images Hn.
  - exists images. cbn. unfold MangaAnalyzer.len. simpl. split; [done|].
    split; [done|lia].
  - cbn [foldl].
    assert (is_Some (Path.relative_to (root ++ [file]) folder)) as [rel ->].
    { clear -Hrel. revert root Hrel. induction folder as [|f folder IH]; intros root Hrel.
      - destruct root; by eexists.
      - destruct root as [|r root]; [by destruct Hrel|]. simpl in *.
        destruct (String.eqb f r); [by apply IH|by destruct Hrel]. }
    set (r := {| pr_page := MangaAnalyzer.len images + 1;
                 pr_src := Str.replace "\" "/" (Path.str sep rel);
                 pr_name := file;
                 pr_chapter := MangaAnalyzer.len images / 100 + 1 |}).
    assert (MangaAnalyzer.len images + 1 = MangaAnalyzer.len (images ++ [r])) as Hlen.
    { unfold MangaAnalyzer.len. rewrite length_app. simpl. lia. }
    rewrite Hlen.
    destruct (IH (images ++ [r])) as (images' & H1 & H2 & H3).
    { by apply numbered_snoc. }
    exists images'. split; [done|]. split; [done|].
    rewrite H3, <- Hlen. unfold MangaAnalyzer.len. simpl. lia.
Qed.

Lemma scan_raised (sep : ascii) (folder : path)
    (visited : list (path * list string * list string)) :
  foldl (λ (state : option (list PageRecord * Z)) '(root, _, files),
           match state with
           | Some state => ProgressiveReader.scan_root sep folder state root files
           | None => None
           end)
        None visited
  = None.
Proof. induction visited as [|[[root dirs] files] visited IH]; [done|]. apply IH. Qed.

Lemma get_manga_images_fold (sep : ascii) (folder : path)
    (visited : list (path * list string * list string)) (images : list PageRecord) :
  Forall (λ t, is_Some (Path.relative_to t.1.1 folder)) visited →
  numbered images →
  if forallb has_progressive_key (image_names visited)
  then
    ∃ images',
      foldl (λ (state : option (list PageRecord * Z)) '(root, _, files),
               match state with
               | Some state => ProgressiveReader.scan_root sep folder state root files
               | None => None
               end)
            (Some (images, MangaAnalyzer.len images)) visited
      = Some (images', MangaAnalyzer.len images') ∧
      numbered images' ∧
      MangaAnalyzer.len images'
      = MangaAnalyzer.len images
        + sum_over (λ t, MangaAnalyzer.len
                           (List.filter
                              (λ file, bool_decide (Str.lower (Path.suffix [file])
                                                    ∈ ProgressiveReader.image_extensions))
                              t.2))
                   visited
  else
    foldl (λ (state : option (list PageRecord * Z)) '(root, _, files),
             match state with
             | Some state => ProgressiveReader.scan_root sep folder state root files
             | None => None
             end)
          (Some (images, MangaAnalyzer.len images)) visited
    = None.
Proof.
  intros Hv. revert images. induction Hv as [|[[root dirs] files] visited Hr _ IH];
    intros images Hn.
  - exists images. unfold sum_over. simpl. split; [done|]. split; [done|lia].
  - unfold image_names. cbn [List.flat_map snd]. fold (image_names visited).
    rewrite List.forallb_app. cbn [foldl]. unfold ProgressiveReader.scan_root at 2 4.
    set (image_files := List.filter _ files).
    destruct (sort_names_outcome image_files) as [(-> & sorted & -> & Hp)|(-> & m & ->)].
    + cbn [andb].
      destruct (scan_files_fold sep folder root sorted images Hr Hn)
        as (images1 & -> & Hn1 & Hlen1).
      specialize (IH images1 Hn1).
      destruct (forallb has_progressive_key (image_names visited)); [|done].
      destruct IH as (images' & H1 & H2 & H3).
      exists images'. split; [done|]. split; [done|].
      rewrite H3, Hlen1. unfold sum_over. cbn [foldr snd]. fold image_files.
      apply Permutation_length in Hp. unfold MangaAnalyzer.len. rewrite Hp. lia.
    + cbn [andb]. apply scan_raised.
Qed.

Lemma walk_relative (n : node) (folder : path) :
  Forall (λ t, is_Some (Path.relative_to t.1.1 folder)) (FS.walk folder n).
Proof.
  apply Forall_forall. intros [[root dirs] files] Hin.
  assert (root ∈ (FS.walk folder n).*1.*1) as Hroot.
  { apply list_elem_of_fmap. exists (root, dirs). split; [done|].
    apply list_elem_of_fmap. by exists (root, dirs, files). }
  apply walk_below in Hroot as [rel ->]. simpl.
  pose proof (relative_to_app folder rel []) as H. rewrite app_nil_r in H.
  rewrite H. destruct rel; by eexists.
Qed.

(** X10.  The list that [get_manga_images] returns is numbered by position:
    the record at index [i] has the page number [i + 1] and the chapter
    number [i // 100 + 1], and the total returned with the list is its
    length. *)
Theorem manga_images_numbered (sep : ascii) (folder : path) (tree : node) :
  let result := ProgressiveReader.get_manga_images sep folder tree in
  result.2 = MangaAnalyzer.len result.1 ∧ numbered result.1.
Proof.
  intros result. subst result. unfold ProgressiveReader.get_manga_images.
  pose proof (get_manga_images_fold sep folder (FS.walk folder tree) []
                (walk_relative tree folder)) as H.
  destruct (forallb has_progressive_key (image_names (FS.walk folder tree))).
  - destruct H as (images & H & Hn & _); [by intros i r Hi|].
    change (MangaAnalyzer.len []) with 0 in H. by rewrite H.
  - change (MangaAnalyzer.len []) with 0 in H. rewrite H by (by intros i r Hi).
    split; [done|by intros i r Hi].
Qed.

Lemma rfind_None (c : ascii) (s : string) :
  Str.rfind c s = None → Str.contains_char c s = false.
Proof.
  unfold Str.contains_char. induction s as [|d s IH]; [done|]. simpl.
  destruct (Str.rfind c s); [done|]. destruct (Ascii.eqb c d); [done|].
  intros _. by apply IH.
Qed.

Lemma rfind_drop (c : ascii) (s : string) (i : nat) :
  Str.rfind c s = Some i →
  ∃ rest, Str.drop i s = String c rest ∧ Str.contains_char c rest = false.
Proof.
  revert i. induction s as [|d s IH]; intros i; [done|]. simpl.
  destruct (Str.rfind c s) as [j|] eqn:E.
  - intros [= <-]. simpl. by apply IH.
  - destruct (Ascii.eqb_spec c d) as [<-|_]; [|done]. intros [= <-].
    exists s. split; [done|]. by apply rfind_None.
Qed.

(** A suffix is empty or a dot followed by characters other than the
    dot. *)
Lemma suffix_shape (p : path) :
  Path.suffix p = "" ∨
  ∃ rest, Path.suffix p = String "." rest ∧ Str.contains_char "." rest = false.
Proof.
  unfold Path.suffix. destruct (Str.rfind "." (Path.name p)) as [i|] eqn:E; [|by left].
  destruct (_ && _); [|by left]. right. exact (rfind_drop _ _ _ E).
Qed.

Lemma lower_keeps_dots (s : string) :
  Str.contains_char "." (Str.lower s) = Str.contains_char "." s.
Proof.
  unfold Str.contains_char, Str.lower. induction s as [|d s IH]; [done|].
  simpl. rewrite IH. f_equal. by destruct d as [[] [] [] [] [] [] [] []].
Qed.

Lemma lstrip_absent (c : ascii) (s : string) :
  Str.contains_char c s = false → Str.lstrip (String c "") s = s.
Proof.
  destruct s as [|d s]; [done|]. unfold Str.contains_char. simpl.
  intros H. apply orb_false_iff in H as [H _]. rewrite Ascii.eqb_sym in H.
  unfold Str.contains_char. simpl. by rewrite H.
Qed.

(** [get_manga_images] and [_is_image] accept the same files. *)
Lemma image_extension_is_image (root : path) (file : string) :
  bool_decide (Str.lower (Path.suffix [file]) ∈ ProgressiveReader.image_extensions)
  = ImageSearchEngine._is_image (root ++ [file]).
Proof.
  unfold ImageSearchEngine._is_image, ImageValidator.extension.
  rewrite suffix_snoc. destruct (suffix_shape [file]) as [->|(rest & -> & Hrest)];
    [by vm_compute|].
  change (Str.lower (String "." rest)) with (String "." (Str.lower rest)).
  cbn [Str.lstrip Str.contains_char Str.existsb Ascii.eqb Bool.eqb orb andb].
  rewrite lstrip_absent by (by rewrite lower_keeps_dots).
  apply bool_decide_ext.
  unfold ProgressiveReader.image_extensions, ImageSearchEngine.SUPPORTED_EXTENSIONS.
  rewrite !elem_of_list_to_set, !elem_of_cons, !elem_of_nil.
  split; intros H;
    repeat (destruct H as [H|H];
            [try injection H as H; rewrite H;
             by repeat first [left; reflexivity|right]|]);
    destruct H.
Qed.

Lemma sum_over_flat_map {A B : Type} (g : B → Z) (h : A → list B) (l : list A) :
  sum_over g (List.flat_map h l) = sum_over (λ x, sum_over g (h x)) l.
Proof.
  induction l as [|x l IH]; [done|]. cbn [List.flat_map].
  rewrite sum_over_app, IH. done.
Qed.

(** The image files that the walk meets are those that [_count_content]
    counts. *)
Lemma walk_count (n : node) (root : path) :
  sum_over (λ t, MangaAnalyzer.len
                   (List.filter
                      (λ file, bool_decide (Str.lower (Path.suffix [file])
                                            ∈ ProgressiveReader.image_extensions))
                      t.2))
           (FS.walk root n)
  = (BookshelfScanner._count_content root n).1.
Proof.
  revert root. induction n as [c|es IH] using node_induction; intros root; [done|].
  cbn [BookshelfScanner._count_content fst].
  rewrite walk_Dir, count_images_Dir. unfold sum_over at 1. cbn [foldr snd].
  fold (sum_over (λ t : path * list string * list string,
                    MangaAnalyzer.len
                      (List.filter
                         (λ file, bool_decide (Str.lower (Path.suffix [file])
                                               ∈ ProgressiveReader.image_extensions))
                         t.2))
                 (List.flat_map (λ e, FS.walk (root ++ [e.1]) e.2) es)).
  rewrite sum_over_flat_map.
  induction IH as [|[k v] es Hv _ IHes]; [done|].
  rewrite filter_cons. unfold sum_over in *. cbn [foldr fst snd] in *.
  rewrite <- IHes. clear IHes. rewrite (Hv (root ++ [k])).
  destruct v as [c|es']; cbn [FS.is_file_node BookshelfScanner._count_content fst
                               BookshelfScanner.count_images].
  - rewrite decide_True by done. cbn [fmap list_fmap fst List.filter].
    rewrite (image_extension_is_image root k).
    destruct (ImageSearchEngine._is_image (root ++ [k]));
      unfold MangaAnalyzer.len; cbn [length]; lia.
  - rewrite decide_False by done. fold (BookshelfScanner.count_images (root ++ [k]) (Dir es')).
    lia.
Qed.

(** X11.  The progressive reader and the bookshelf count the same pages,
    unless a sort key raises: when every image file name below the folder
    has a key, the total that [get_manga_images] returns for the folder
    is the page count that [_count_content] gives it; when the key of one
    of them raises, as for a name that begins with a superscript two,
    [get_manga_images] returns the empty list and the total 0, whatever
    [_count_content] counts. *)
Theorem manga_images_total_is_page_count (sep : ascii) (folder : path) (tree : node) :
  let result := ProgressiveReader.get_manga_images sep folder tree in
  if forallb has_progressive_key (image_names (FS.walk folder tree))
  then result.2 = (BookshelfScanner._count_content folder tree).1
  else result = ([], 0).
Proof.
  intros result. subst result. unfold ProgressiveReader.get_manga_images.
  pose proof (get_manga_images_fold sep folder (FS.walk folder tree) []
                (walk_relative tree folder)) as H.
  destruct (forallb has_progressive_key (image_names (FS.walk folder tree))).
  - destruct H as (images & H & _ & Hlen); [by intros i r Hi|].
    change (MangaAnalyzer.len []) with 0 in H. rewrite H. cbn [default from_option id snd].
    rewrite Hlen, walk_count. done.
  - change (MangaAnalyzer.len []) with 0 in H. by rewrite H by (by intros i r Hi).
Qed.

(** ** The scan of htmlc.py *)

Lemma contains_char_app (c : ascii) (a b : string) :
  Str.contains_char c (a +:+ b) = Str.contains_char c a || Str.contains_char c b.
Proof.
  unfold Str.contains_char. induction a as [|d a IH]; [done|].
  change (String d a +:+ b) with (String d (a +:+ b)). simpl.
  by rewrite IH, orb_assoc.
Qed.

Lemma getAllFiles_dotted (h : Htmlc.host) (fs : node) (fpath : string)
    (foldersArray filesArray foldersArray' filesArray' : list string) :
  Str.contains_char "." fpath = true →
  Forall (λ p, Str.contains_char "." p = true) foldersArray →
  Forall (λ p, Str.contains_char "." p = true) filesArray →
  Htmlc.getAllFiles h fs fpath foldersArray filesArray
  = Some (foldersArray', filesArray') →
  Forall (λ p, Str.contains_char "." p = true) foldersArray' ∧
  Forall (λ p, Str.contains_char "." p = true) filesArray'.
Proof.
  intros Hp Hfolders Hfiles. unfold Htmlc.getAllFiles.
  destruct (Htmlc.listdir h fs fpath) as [files|]; [|done].
  intros [= H].
  assert (Forall (λ p, Str.contains_char "." p = true) (List.tl foldersArray)) as Htl
    by (destruct Hfolders; [constructor|done]).
  revert H. generalize (List.tl foldersArray) filesArray Htl Hfiles.
  clear Hfolders Hfiles Htl foldersArray filesArray.
  induction files as [|file files IH]; intros folders found Hfolders Hfound; simpl.
  - by intros [= <- <-].
  - destruct (Htmlc.isdir h fs _); apply IH; try done;
      (apply Forall_app; split; [done|]); constructor; try done;
      by rewrite contains_char_app, Hp.
Qed.

Lemma all_files_dotted (h : Htmlc.host) (turns : nat) (fs : node)
    (foldersArray filesArray found : list string) :
  Forall (λ p, Str.contains_char "." p = true) foldersArray →
  Forall (λ p, Str.contains_char "." p = true) filesArray →
  Htmlc.all_files h turns fs foldersArray filesArray = Some found →
  Forall (λ p, Str.contains_char "." p = true) found.
Proof.
  revert foldersArray filesArray. induction turns as [|turns IH];
    intros foldersArray filesArray Hfolders Hfiles; simpl.
  - destruct foldersArray; [by intros [= <-]|done].
  - destruct foldersArray as [|fpath rest]; [by intros [= <-]|].
    destruct (Htmlc.getAllFiles h fs fpath (fpath :: rest) filesArray)
      as [[folders' files']|] eqn:E; [|done].
    assert (Str.contains_char "." fpath = true) as Hp by (by inversion Hfolders).
    destruct (getAllFiles_dotted h fs fpath (fpath :: rest) filesArray folders' files'
                Hp Hfolders Hfiles E) as [Hf1 Hf2].
    by apply IH.
Qed.

(** X12.  When the typed path holds a dot, as in a folder name with a dot or in
    a path that begins with a dot, the script never ends with an
    exception of the loop that writes the image elements, on either kind
    of host: every scanned path begins with the typed path, and so has a
    part after its first dot. *)
Theorem dotted_path_never_raises (h : Htmlc.host) (turns : nat) (fs : node)
    (path : string) :
  Str.contains_char "." path = true →
  ∀ e, Htmlc.run h turns fs path ≠ Some (inl e).
Proof.
  intros Hp e. unfold Htmlc.run.
  destruct (Htmlc.all_files h turns fs [path] []) as [found|] eqn:E; [|done].
  apply all_files_dotted in E; [|by repeat constructor|constructor].
  destruct (emission_loop_returns (Htmlc.toLeftSlash path) found [] [] E)
    as (written & printed & ->). done.
Qed.

(** ** The page ranges of the chapters *)

Lemma tiles_bounds (s e : Z) (chs : list Chapter) (c : Chapter) :
  tiles s chs e → c ∈ chs → s ≤ start_page c ∧ start_page c ≤ end_page c ∧ end_page c < e.
Proof.
  induction 1 as [|s e c0 chs Hs Hc He Ht IH]; intros Hin; [by apply elem_of_nil in Hin|].
  pose proof (tiles_le _ _ _ Ht). apply elem_of_cons in Hin as [->|Hin]; [lia|].
  destruct (IH Hin) as (? & ? & ?). lia.
Qed.

Lemma analyze_manga_total (base : path) (folders images : list path) :
  total_pages (MangaAnalyzer.analyze_manga base folders images)
  = MangaAnalyzer.len images ∧
  base_path (MangaAnalyzer.analyze_manga base folders images) = base.
Proof.
  unfold MangaAnalyzer.analyze_manga.
  destruct (List.filter _ images);
    by destruct (MangaAnalyzer.subdirectory_chapters _ _ _ _ _ _).
Qed.

(** ** The order of the scanned paths *)

Lemma path_lt_irrefl (p : path) : Order.path_lt p p = false.
Proof.
  induction p as [|a p IH]; [done|]. simpl. by rewrite String.eqb_refl.
Qed.

Lemma path_lt_trans (p q r : path) :
  Order.path_lt p q = true → Order.path_lt q r = true → Order.path_lt p r = true.
Proof.
  revert q r. induction p as [|a p IH]; intros [|b q] [|c r]; simpl; try done.
  unfold Order.str_lt.
  destruct (String.eqb_spec a b) as [->|Hab], (String.eqb_spec b c) as [->|Hbc].
  - apply IH.
  - done.
  - rewrite (proj2 (String.eqb_neq a c)) by done. done.
  - intros H1 H2. pose proof (str_ltb_trans _ _ _ H1 H2) as H3.
    destruct (String.eqb_spec a c) as [->|_]; [|done].
    by rewrite str_ltb_irrefl in H3.
Qed.

Lemma path_lt_total (p q : path) :
  Order.path_lt p q = true ∨ p = q ∨ Order.path_lt q p = true.
Proof.
  revert q. induction p as [|a p IH]; intros [|b q]; simpl; auto.
  unfold Order.str_lt. destruct (String.eqb_spec a b) as [->|Hab].
  - rewrite String.eqb_refl. destruct (IH q) as [H|[->|H]]; auto.
  - rewrite (proj2 (String.eqb_neq b a)) by done.
    destruct (str_trichotomy a b) as [H|[H|H]]; auto.
Qed.

Lemma path_lt_prefix (base : path) (k r : string) (rel : path) :
  Order.path_lt (base ++ [k]) (base ++ k :: r :: rel) = true.
Proof.
  induction base as [|b base IH]; simpl; by rewrite String.eqb_refl.
Qed.

Section SortedFacts.
Context {A : Type} (lt : A → A → bool).
Hypothesis lt_irrefl : ∀ x, lt x x = false.
Hypothesis lt_trans : ∀ x y z, lt x y = true → lt y z = true → lt x z = true.
Hypothesis lt_total : ∀ x y, lt x y = true ∨ x = y ∨ lt y x = true.

Lemma insert_sorted_sorted (x : A) (l : list A) :
  StronglySorted (λ a b, lt b a = false) l →
  StronglySorted (λ a b, lt b a = false) (insert_sorted lt x l).
Proof.
  induction 1 as [|y l Hl IH Hy]; simpl; [by repeat constructor|].
  destruct (lt y x) eqn:E.
  - constructor; [done|]. rewrite insert_sorted_perm. constructor; [|done].
    destruct (lt x y) eqn:E'; [|done].
    pose proof (lt_trans _ _ _ E E') as H. by rewrite lt_irrefl in H.
  - constructor; [by constructor|]. constructor; [done|].
    eapply Forall_impl; [exact Hy|]. intros z Hz. simpl in Hz.
    destruct (lt z x) eqn:E'; [|done]. exfalso.
    destruct (lt_total y x) as [H|[->|H]].
    + by rewrite H in E.
    + by rewrite E' in Hz.
    + pose proof (lt_trans _ _ _ E' H) as H'. by rewrite H' in Hz.
Qed.

(** The sort puts the list in order. *)
Lemma sort_sorted (l : list A) :
  StronglySorted (λ a b, lt b a = false) (sort lt l).
Proof.
  induction l as [|x l IH]; simpl; [constructor|]. by apply insert_sorted_sorted.
Qed.

End SortedFacts.

(** In an ordered list the search finds an element before which no other
    element with the property can stand. *)
Lemma find_sorted {A : Type} (R : A → A → Prop) (P : A → bool) (l : list A) (t : A) :
  StronglySorted R l → t ∈ l → P t = true →
  (∀ f, f ∈ l → P f = true → f = t ∨ ¬ R f t) →
  List.find P l = Some t.
Proof.
  induction 1 as [|x l Hl IH Hx]; intros Ht HP Hall; [by apply elem_of_nil in Ht|].
  simpl. destruct (P x) eqn:E.
  - destruct (Hall x ltac:(left) E) as [->|Hn]; [done|].
    apply elem_of_cons in Ht as [->|Ht]; [done|].
    rewrite Forall_forall in Hx. by destruct (Hn (Hx t Ht)).
  - apply elem_of_cons in Ht as [->|Ht]; [congruence|].
    apply IH; [done|done|]. intros f Hf. apply Hall. by right.
Qed.

Lemma walk_child_root (es es' : list (string * node)) (root : path) (k : string) :
  (k, Dir es') ∈ es →
  root ++ [k] ∈ (List.flat_map (λ e, FS.walk (root ++ [e.1]) e.2) es).*1.*1.
Proof.
  induction es as [|[k0 v0] es IH]; intros Hin; [by apply elem_of_nil in Hin|].
  simpl. rewrite !fmap_app. apply elem_of_app.
  apply elem_of_cons in Hin as [[= <- <-]|Hin]; [left|right; by apply IH].
  rewrite walk_Dir, !fmap_cons. left.
Qed.

(** What [scan_directory] returns: the folders in order, each below a
    folder of the base directory that is on the list as well, and the
    images, each in the base directory or in or below such a folder. *)
Lemma scan_structure (guess_type : string → option string) (sep : ascii)
    (base : path) (tree : node) :
  let scan := FileSystemScanner.scan_directory guess_type sep base tree in
  StronglySorted (λ a b, Order.path_lt b a = false) scan.1 ∧
  (∀ f, f ∈ scan.1 → ∃ k rel, f = base ++ k :: rel ∧ base ++ [k] ∈ scan.1) ∧
  (∀ img, img ∈ scan.2 →
     ∃ rel file, img = base ++ rel ++ [file] ∧
       (rel = [] ∨ ∃ k rel', rel = k :: rel' ∧ base ++ [k] ∈ scan.1)) ∧
  scan.2 ≡ₚ MangaHTMLGenerator.all_images guess_type sep base tree.
Proof.
  intros scan. subst scan. unfold FileSystemScanner.scan_directory. cbn [fst snd].
  split; [apply sort_sorted; [apply path_lt_irrefl|apply path_lt_trans|apply path_lt_total]|].
  assert (∀ f, f ∈ sort Order.path_lt
                     (List.filter (λ r, negb (bool_decide (r = base)))
                        ((FS.walk base tree).*1.*1))
               ↔ ∃ k es es' rel, tree = Dir es ∧ (k, Dir es') ∈ es ∧ f = base ++ k :: rel ∧
                   f ∈ (List.flat_map (λ e, FS.walk (base ++ [e.1]) e.2) es).*1.*1)
    as Hfolders.
  { intros f. rewrite sort_perm, list_elem_of_In, filter_In, <- list_elem_of_In.
    rewrite negb_true_iff, bool_decide_eq_false.
    destruct tree as [c|es].
    - simpl. split; [intros [H _]; by apply elem_of_nil in H|].
      by intros (? & ? & ? & ? & ? & _).
    - rewrite walk_Dir, !fmap_cons. cbn [fst]. rewrite elem_of_cons. split.
      + intros [[->|H] Hne]; [done|].
        destruct (walk_children _ _ _ H) as (k & es' & rel & Hk & ->).
        by exists k, es, es', rel.
      + intros (k & es0 & es' & rel & [= <-] & Hk & -> & H).
        split; [by right|]. apply app_cons_ne_self. }
  assert (∀ k es es', tree = Dir es → (k, Dir es') ∈ es →
            base ++ [k] ∈ sort Order.path_lt
                             (List.filter (λ r, negb (bool_decide (r = base)))
                                ((FS.walk base tree).*1.*1))) as Htop.
  { intros k es es' -> Hk. apply Hfolders. exists k, es, es', [].
    split; [done|]. split; [done|]. split; [done|]. by eapply walk_child_root. }
  split; [|split].
  - intros f Hf. apply Hfolders in Hf as (k & es & es' & rel & Ht & Hk & -> & _).
    exists k, rel. split; [done|]. by eapply Htop.
  - intros img Himg. rewrite sort_perm in Himg. apply list_elem_of_In in Himg.
    apply in_flat_map in Himg as ([[r ds] files] & Hr & Himg).
    unfold FileSystemScanner._batch_validate_images in Himg.
    apply filter_In in Himg as [Himg _]. apply in_map_iff in Himg as (file & <- & _).
    apply list_elem_of_In in Hr. unfold Path.join.
    destruct tree as [c|es]; [by apply elem_of_nil in Hr|].
    rewrite walk_Dir in Hr. apply elem_of_cons in Hr as [[= -> _ _]|Hr].
    + exists [], file. split; [done|by left].
    + assert (r ∈ (List.flat_map (λ e, FS.walk (base ++ [e.1]) e.2) es).*1.*1) as Hr'.
      { apply list_elem_of_fmap. exists (r, ds). split; [done|].
        apply list_elem_of_fmap. by exists (r, ds, files). }
      apply walk_children in Hr' as (k & es' & rel & Hk & ->).
      exists (k :: rel), file. rewrite <- app_assoc. split; [done|]. right.
      exists k, rel. split; [done|]. by eapply Htop.
  - rewrite sort_perm. done.
Qed.

(** The first listed folder above an image that does not lie in the base
    directory itself is the folder of the base directory that the image
    lies in or below. *)
Lemma first_folder_top (folders : list path) (base : path) (k file : string)
    (rel : path) :
  StronglySorted (λ a b, Order.path_lt b a = false) folders →
  (∀ f, f ∈ folders → ∃ k rel, f = base ++ k :: rel) →
  base ++ [k] ∈ folders →
  MangaAnalyzer.first_folder folders (base ++ (k :: rel) ++ [file]) = Some (base ++ [k]).
Proof.
  intros Hsorted Hshape Htop. unfold MangaAnalyzer.first_folder.
  apply (find_sorted _ _ _ _ Hsorted Htop).
  - apply bool_decide_eq_true.
    pose proof (relative_to_app base (k :: rel ++ [file]) [k]) as H.
    cbn [app] in *. rewrite H. simpl. rewrite String.eqb_refl.
    destruct (rel ++ [file]); by eexists.
  - intros f Hf HP. apply bool_decide_eq_true in HP.
    destruct (Hshape f Hf) as (k2 & rel2 & ->).
    pose proof (relative_to_app base (k :: rel ++ [file]) (k2 :: rel2)) as H.
    cbn [app] in *. rewrite H in HP. simpl in HP.
    destruct (String.eqb_spec k2 k) as [->|_]; [|by destruct HP].
    destruct rel2 as [|r rel2]; [by left|]. right.
    by rewrite path_lt_prefix.
Qed.

(** ** The reading area and the metadata *)

Lemma subdirectory_chapters_counts (m : gmap path (list path)) (r : bool)
    (folders : list path) (i : Z) (chs : list Chapter) (cur : Z) :
  ∃ new,
    (MangaAnalyzer.subdirectory_chapters m r i folders chs cur).1 = chs ++ new ∧
    Forall (λ ch, ∃ j : nat,
              folders !! j = Some (folder_path ch) ∧
              number ch = i + folder_number r j ∧
              page_count ch = MangaAnalyzer.len (default [] (m !! folder_path ch))) new.
Proof.
  revert i chs cur. induction folders as [|f folders IH]; intros i chs cur.
  - exists []. simpl. by rewrite app_nil_r.
  - simpl. destruct (default [] (m !! f)) as [|img imgs] eqn:E.
    + destruct (IH (i + 1) chs cur) as (new & Hres & Hall).
      exists new. split; [done|].
      eapply Forall_impl; [exact Hall|]. intros ch (j & Hj & Hn & Hc).
      exists (S j). unfold folder_number in *. split; [done|]. split; [lia|done].
    + match goal with
      | |- context [MangaAnalyzer.subdirectory_chapters m r (i + 1) folders
                      (chs ++ [?c]) ?p] =>
          destruct (IH (i + 1) (chs ++ [c]) p) as (new & Hres & Hall);
          exists (c :: new)
      end.
      split; [by rewrite Hres, <- app_assoc|]. constructor.
      * exists 0%nat. simpl. unfold folder_number. rewrite E.
        split; [done|]. split; [destruct r; lia|done].
      * eapply Forall_impl; [exact Hall|]. intros ch (j & Hj & Hn & Hc).
        exists (S j). unfold folder_number in *. split; [done|]. split; [lia|done].
Qed.

(** The chapters of [analyze_manga], one by one: the root chapter with
    the images of the base directory, or the chapter of a listed folder
    with the images that the folder has received. *)
Lemma analyze_manga_chapters (base : path) (folders images : list path) (ch : Chapter) :
  ch ∈ chapters (MangaAnalyzer.analyze_manga base folders images) →
  (has_root_images base images = true ∧ number ch = 1 ∧ folder_path ch = base ∧
   page_count ch
   = MangaAnalyzer.len
       (List.filter (λ img, bool_decide (Path.parent img = base)) images)) ∨
  (∃ i : nat,
     folders !! i = Some (folder_path ch) ∧
     number ch = folder_number (has_root_images base images) i ∧
     page_count ch
     = MangaAnalyzer.len
         (List.filter
            (λ img, bool_decide (MangaAnalyzer.first_folder folders img
                                 = Some (folder_path ch))) images)).
Proof.
  rewrite has_root_images_spec. unfold MangaAnalyzer.analyze_manga.
  set (m := MangaAnalyzer._group_images_by_chapter folders images).
  set (root := List.filter _ images).
  assert (∀ c (j : nat), folders !! j = Some (folder_path c) →
            page_count c = MangaAnalyzer.len (default [] (m !! folder_path c)) →
            page_count c
            = MangaAnalyzer.len
                (List.filter
                   (λ img, bool_decide (MangaAnalyzer.first_folder folders img
                                        = Some (folder_path c))) images)) as Hcount.
  { intros c j Hj ->. subst m. rewrite group_lookup; [done|].
    by eapply list_elem_of_lookup_2. }
  destruct root as [|r0 root'] eqn:Er.
  - destruct (subdirectory_chapters_counts m false folders 0 [] 1) as (new & Hres & Hall).
    destruct (MangaAnalyzer.subdirectory_chapters m false 0 folders [] 1) as [chs cur].
    simpl in *. subst chs. intros Hin. right. rewrite Forall_forall in Hall.
    destruct (Hall ch Hin) as (j & Hj & Hn & Hc). exists j.
    split; [done|]. split; [lia|by eapply Hcount].
  - match goal with
    | |- context [MangaAnalyzer.subdirectory_chapters m true 0 folders [?c] ?p] =>
        destruct (subdirectory_chapters_counts m true folders 0 [c] p)
          as (new & Hres & Hall);
        destruct (MangaAnalyzer.subdirectory_chapters m true 0 folders [c] p)
          as [chs cur]
    end.
    simpl in *. subst chs. rewrite Forall_forall in Hall. intros Hin.
    apply elem_of_cons in Hin as [->|Hin]; [by left|]. right.
    destruct (Hall ch Hin) as (j & Hj & Hn & Hc). exists j.
    split; [done|]. split; [lia|by eapply Hcount].
Qed.

(** The search for the closest chapter folder above an image, when one
    chapter is at the distance [d] and every other chapter above the image
    is farther or has the same number. *)
Lemma best_match_fold (img : path) (n : Z) (d : nat) (chs : list Chapter)
    (acc : option (Z * nat)) :
  (∀ c r, c ∈ chs → Path.relative_to img (folder_path c) = Some r →
          (number c = n ∧ length r = d) ∨ (d < length r)%nat) →
  (acc = Some (n, d) ∨
   ((acc = None ∨ ∃ n' d', acc = Some (n', d') ∧ (d < d')%nat) ∧
    ∃ c r, c ∈ chs ∧ Path.relative_to img (folder_path c) = Some r ∧
           number c = n ∧ length r = d)) →
  foldl (λ (best : option (Z * nat)) chapter,
           match Path.relative_to img (folder_path chapter) with
           | Some relative_path =>
               let depth := length relative_path in
               match best with
               | Some (_, best_match_depth) =>
                   if (depth <? best_match_depth)%nat
                   then Some (number chapter, depth) else best
               | None => Some (number chapter, depth)
               end
           | None => best
           end) acc chs
  = Some (n, d).
Proof.
  revert acc. induction chs as [|c chs IH]; intros acc Hall Hacc.
  - destruct Hacc as [->|[_ (c & r & Hin & _)]]; [done|by apply elem_of_nil in Hin].
  - cbn [foldl]. apply IH; [intros c' r Hin; apply Hall; by right|].
    destruct (Path.relative_to img (folder_path c)) as [r|] eqn:Er.
    + destruct (Hall c r ltac:(left) Er) as [[Hn Hd]|Hd].
      * left. cbv zeta. rewrite Hd, Hn.
        destruct Hacc as [->|[[->|(n' & d' & -> & Hlt)] _]].
        -- by rewrite Nat.ltb_irrefl.
        -- done.
        -- by rewrite (proj2 (Nat.ltb_lt d d')).
      * assert (∀ c' r', c' ∈ c :: chs →
                  Path.relative_to img (folder_path c') = Some r' →
                  number c' = n → length r' = d → c' ∈ chs) as Htail.
        { intros c' r' Hin Hr' _ Hd'. apply elem_of_cons in Hin as [->|Hin]; [|done].
          rewrite Er in Hr'. injection Hr' as <-. lia. }
        cbv zeta. destruct Hacc as [->|[Hbad (c' & r' & Hin & Hr' & Hn' & Hd')]].
        -- left. by rewrite (proj2 (Nat.ltb_ge (length r) d)) by lia.
        -- right. split.
           ++ right. destruct Hbad as [->|(n' & d' & -> & Hlt)]; [by eauto|].
              destruct (length r <? d')%nat; by eauto.
           ++ exists c', r'. split; [by eapply Htail|done].
    + destruct Hacc as [->|[Hbad (c' & r' & Hin & Hr' & Hn' & Hd')]]; [by left|].
      right. split; [done|]. exists c', r'. split; [|done].
      apply elem_of_cons in Hin as [->|Hin]; [congruence|done].
Qed.

Section ReaderAgreement.
Variables (base : path) (folders images : list path).
Hypothesis Hsorted : StronglySorted (λ a b, Order.path_lt b a = false) folders.
Hypothesis Hfolders :
  ∀ f, f ∈ folders → ∃ k rel, f = base ++ k :: rel ∧ base ++ [k] ∈ folders.
Hypothesis Himages :
  ∀ img, img ∈ images →
    ∃ rel file, img = base ++ rel ++ [file] ∧
      (rel = [] ∨ ∃ k rel', rel = k :: rel' ∧ base ++ [k] ∈ folders).
Hypothesis Hshape : scan_shape base folders images.

Lemma parent_snoc (p : path) (file : string) : Path.parent (p ++ [file]) = p.
Proof. apply (parent_join p file). Qed.

(** An image lies in the base directory and below no listed folder, or
    in or below a folder of the base directory, which is the first listed
    folder above it. *)
Lemma image_cases (img : path) :
  img ∈ images →
  (Path.parent img = base ∧ MangaAnalyzer.first_folder folders img = None) ∨
  (∃ k rel file (i : nat),
     img = base ++ (k :: rel) ++ [file] ∧
     Path.parent img = base ++ k :: rel ∧
     folders !! i = Some (base ++ [k]) ∧
     MangaAnalyzer.first_folder folders img = Some (base ++ [k])).
Proof.
  intros Hin. destruct (Himages img Hin) as (rel & file & -> & [->|(k & rel' & -> & Ht)]).
  - left. cbn [app]. rewrite parent_snoc. split; [done|].
    destruct Hshape as [_ Hall]. rewrite Forall_forall in Hall.
    destruct (Hall _ Hin) as [[_ Hnone]|[Hne _]].
    + by apply first_folder_None.
    + cbn [app] in Hne. by rewrite parent_snoc in Hne.
  - right. apply list_elem_of_lookup_1 in Ht as Hi. destruct Hi as [i Hi].
    exists k, rel', file, i. split; [done|].
    split; [by rewrite app_assoc, parent_snoc|]. split; [done|].
    apply first_folder_top; [done| |done].
    intros f Hf. destruct (Hfolders f Hf) as (k2 & rel2 & -> & _). by eauto.
Qed.

(** The folder of a chapter is the base directory or a folder of the
    base directory. *)
Lemma chapter_cases (c : Chapter) :
  c ∈ chapters (MangaAnalyzer.analyze_manga base folders images) →
  (has_root_images base images = true ∧ number c = 1 ∧ folder_path c = base ∧
   page_count c
   = MangaAnalyzer.len
       (List.filter (λ img, bool_decide (Path.parent img = base)) images)) ∨
  (∃ (i : nat) k,
     folders !! i = Some (base ++ [k]) ∧ folder_path c = base ++ [k] ∧
     number c = folder_number (has_root_images base images) i ∧
     page_count c
     = MangaAnalyzer.len
         (List.filter
            (λ img, bool_decide (MangaAnalyzer.first_folder folders img
                                 = Some (base ++ [k]))) images)).
Proof.
  intros Hc. destruct (analyze_manga_chapters base folders images c Hc)
    as [H|(i & Hi & Hn & Hp)]; [by left|]. right.
  destruct (analyze_manga_numbers base folders images) as (_ & Hall & _).
  destruct (Hall c Hc) as [(_ & _ & Hb)|(j & _ & _ & Hr)].
  - exfalso. apply list_elem_of_lookup_2 in Hi. rewrite Hb in Hi.
    destruct (Hfolders base Hi) as (k & rel & Heq & _).
    symmetry in Heq. by apply app_cons_ne_self in Heq.
  - unfold receives_images in Hr. apply existsb_exists in Hr as (img & Hin & Hf).
    apply bool_decide_eq_true in Hf. apply list_elem_of_In in Hin.
    destruct (image_cases img Hin) as [[_ Hnone]|(k & rel & file & j' & _ & _ & _ & Htop)];
      [congruence|].
    rewrite Htop in Hf. injection Hf as Hf. exists i, k. by rewrite <- Hf in *.
Qed.

Lemma folder_index_unique (i j : nat) (f : path) :
  folders !! i = Some f → folders !! j = Some f → i = j.
Proof. destruct Hshape as [Hnd _]. by apply NoDup_lookup. Qed.

(** An image of the base directory is in chapter 1. *)
Lemma determine_root (img : path) :
  img ∈ images → Path.parent img = base →
  MangaHTMLGenerator._determine_image_chapter
    (MangaAnalyzer.analyze_manga base folders images) img = 1.
Proof.
  intros Hin Hp.
  destruct (analyze_manga_numbers base folders images) as (_ & _ & Hroot & _).
  destruct Hroot as (c & Hhead & Hn & Hf).
  { unfold has_root_images. apply existsb_exists. exists img.
    split; [by apply list_elem_of_In|by apply bool_decide_eq_true]. }
  unfold MangaHTMLGenerator._determine_image_chapter.
  destruct (chapters (MangaAnalyzer.analyze_manga base folders images)) as [|c0 chs];
    [done|]. injection Hhead as ->. cbn [List.find].
  by rewrite bool_decide_eq_true_2 by congruence.
Qed.

(** An image in or below a folder of the base directory is in the
    chapter of that folder. *)
Lemma determine_folder (img : path) (k file : string) (rel : path) (i : nat) :
  img ∈ images → img = base ++ (k :: rel) ++ [file] →
  folders !! i = Some (base ++ [k]) →
  MangaHTMLGenerator._determine_image_chapter
    (MangaAnalyzer.analyze_manga base folders images) img
  = folder_number (has_root_images base images) i.
Proof.
  intros Hin Himg Hi.
  assert (MangaAnalyzer.first_folder folders img = Some (base ++ [k])) as Hfirst.
  { destruct (image_cases img Hin) as [[Hp _]|(k' & rel' & file' & j & Heq & _ & _ & H)].
    - exfalso. rewrite Himg, app_assoc, parent_snoc in Hp.
      by apply app_cons_ne_self in Hp.
    - rewrite Himg in Heq. apply app_inv_head in Heq. by injection Heq as <- _. }
  assert (Path.parent img = base ++ k :: rel) as Hparent
    by (by rewrite Himg, app_assoc, parent_snoc).
  destruct (analyze_manga_numbers base folders images) as (_ & _ & _ & Hconv).
  destruct (Hconv i _ Hi) as (ct & Hct & Hft & Hnt).
  { unfold receives_images. apply existsb_exists. exists img.
    split; [by apply list_elem_of_In|by apply bool_decide_eq_true]. }
  assert (∀ c, c ∈ chapters (MangaAnalyzer.analyze_manga base folders images) →
            folder_path c = base ++ [k] →
            number c = folder_number (has_root_images base images) i) as Hnumber.
  { intros c Hc Hf. destruct (chapter_cases c Hc) as [(_ & _ & Hb & _)|(j & k' & Hj & Hf' & Hn & _)].
    - exfalso. rewrite Hb in Hf. symmetry in Hf. by apply app_cons_ne_self in Hf.
    - rewrite <- Hf', Hf in Hj. by rewrite (folder_index_unique _ _ _ Hi Hj). }
  unfold MangaHTMLGenerator._determine_image_chapter. rewrite Hparent.
  destruct (List.find _ _) as [c|] eqn:Efind.
  - apply find_some in Efind as [Hc Hf]. apply list_elem_of_In in Hc.
    apply bool_decide_eq_true in Hf.
    destruct (chapter_cases c Hc) as [(_ & _ & Hb & _)|(j & k' & Hj & Hf' & Hn & _)].
    + exfalso. rewrite Hb in Hf. symmetry in Hf. by apply app_cons_ne_self in Hf.
    + rewrite Hf' in Hf. apply app_inv_head in Hf. injection Hf as -> <-.
      by apply Hnumber.
  - rewrite (best_match_fold img (folder_number (has_root_images base images) i)
               (length (rel ++ [file]))); [done| |].
    + intros c r Hc Hr.
      destruct (chapter_cases c Hc) as [(_ & _ & Hb & _)|(j & k' & Hj & Hf' & Hn & _)].
      * right. rewrite Hb, Himg in Hr.
        pose proof (relative_to_app base ((k :: rel) ++ [file]) []) as H.
        rewrite app_nil_r in H. rewrite H in Hr. cbn in Hr. injection Hr as <-.
        cbn [length]. lia.
      * rewrite Hf', Himg in Hr.
        pose proof (relative_to_app base ((k :: rel) ++ [file]) [k']) as H.
        rewrite H in Hr. cbn in Hr.
        destruct (String.eqb k' k) eqn:Ek; [|done].
        apply String.eqb_eq in Ek. subst k'. left.
        split; [by apply Hnumber|].
        destruct (rel ++ [file]); by injection Hr as <-.
    + right. split; [by left|]. exists ct, (rel ++ [file]). split; [done|].
      rewrite Hft, Himg.
      pose proof (relative_to_app base ((k :: rel) ++ [file]) [k]) as H.
      rewrite H. cbn. rewrite String.eqb_refl. split; [|done].
      by destruct (rel ++ [file]).
Qed.

End ReaderAgreement.

Lemma group_by_chapter_fold (determine : path → Z) (images : list path)
    (m : gmap Z (list path)) (n : Z) :
  foldl (λ chapter_images image_path,
           let chapter_num := determine image_path in
           <[chapter_num := default [] (chapter_images !! chapter_num) ++ [image_path]]>
             chapter_images) m images !! n
  = match List.filter (λ img, bool_decide (determine img = n)) images with
    | [] => m !! n
    | l => Some (default [] (m !! n) ++ l)
    end.
Proof.
  revert m. induction images as [|img images IH]; intros m; [done|].
  cbn [foldl List.filter]. rewrite IH. cbv zeta.
  destruct (decide (determine img = n)) as [<-|Hne].
  - rewrite bool_decide_eq_true_2 by done. rewrite lookup_insert_eq.
    destruct (List.filter _ images); [done|]. simpl. by rewrite <- app_assoc.
  - rewrite bool_decide_eq_false_2 by done. by rewrite lookup_insert_ne.
Qed.

(** The images that the reading area groups under a chapter number. *)
Lemma group_by_chapter_lookup (determine : path → Z) (images : list path) (n : Z) :
  MangaHTMLGenerator.group_by_chapter determine images !! n
  = match List.filter (λ img, bool_decide (determine img = n)) images with
    | [] => None
    | l => Some l
    end.
Proof.
  unfold MangaHTMLGenerator.group_by_chapter. rewrite group_by_chapter_fold.
  by rewrite lookup_empty.
Qed.

(** Sorting the chapters by number leaves a list with increasing numbers
    as it is. *)
Lemma sort_by_number_sorted (chs : list Chapter) :
  StronglySorted Z.lt (number <$> chs) → sort_by_key Z.ltb number chs = chs.
Proof.
  rewrite sort_by_key_unfold. induction chs as [|c chs IH]; [done|].
  rewrite fmap_cons. intros Hs. apply StronglySorted_inv in Hs as [Hs Hc].
  cbn [sort]. rewrite IH by done. destruct chs as [|c' chs]; [done|].
  cbn [insert_sorted]. rewrite fmap_cons in Hc. apply Forall_cons in Hc as [Hlt _].
  by rewrite (proj2 (Z.ltb_ge (number c') (number c))) by lia.
Qed.

Lemma sources_app (a b : list element) : sources (a ++ b) = sources a ++ sources b.
Proof. apply omap_app. Qed.

Lemma chapter_pages_spec (sep : ascii) (base : path) (n : Z) (images : list path)
    (page : Z) :
  sources (MangaHTMLGenerator.chapter_pages sep base n images page).1
  = Emitted.src_path sep base <$> images ∧
  ∀ src pg ch,
    PageImage src pg ch ∈ (MangaHTMLGenerator.chapter_pages sep base n images page).1 →
    ch = n ∧ page ≤ pg < page + Z.of_nat (length images).
Proof.
  revert page. induction images as [|img images IH]; intros page.
  - split; [done|]. intros src pg ch H. by apply elem_of_nil in H.
  - cbn [MangaHTMLGenerator.chapter_pages]. specialize (IH (page + 1)).
    destruct (MangaHTMLGenerator.chapter_pages sep base n images (page + 1))
      as [elements next]. destruct IH as [IH1 IH2]. cbn [fst snd] in *.
    split; [by rewrite fmap_cons, <- IH1|].
    intros src pg ch H. apply elem_of_cons in H as [[= -> -> ->]|H].
    + split; [done|]. cbn [length]. lia.
    + destruct (IH2 _ _ _ H) as [-> Hr]. split; [done|]. cbn [length]. lia.
Qed.

(** The output loop over chapters that tile the pages from [s] on, each
    chapter number holding as many images as its chapter has pages. *)
Lemma output_chapters_tiles (sep : ascii) (base : path) (cm : gmap Z (list path))
    (chs : list Chapter) (s e : Z) :
  tiles s chs e →
  Forall (λ c, ∃ l, cm !! number c = Some l ∧ MangaAnalyzer.len l = page_count c) chs →
  page_numbers (MangaHTMLGenerator.output_chapters sep base cm chs s)
  = counting s (Z.to_nat (e - s)) ∧
  (∀ src page ch,
     PageImage src page ch ∈ MangaHTMLGenerator.output_chapters sep base cm chs s →
     ∃ c, c ∈ chs ∧ number c = ch ∧ start_page c ≤ page ≤ end_page c) ∧
  sources (MangaHTMLGenerator.output_chapters sep base cm chs s)
  = Emitted.src_path sep base
    <$> concat ((λ c, default [] (cm !! number c)) <$> chs).
Proof.
  induction 1 as [s|s e c chs Hs Hc He Ht IH]; intros Hall.
  - replace (s - s) with 0 by lia. split; [done|]. split; [|done].
    intros src page ch H. by apply elem_of_nil in H.
  - apply Forall_cons in Hall as [(l & Hl & Hlen) Hall].
    destruct (IH Hall) as (IH1 & IH2 & IH3).
    cbn [MangaHTMLGenerator.output_chapters]. rewrite Hl.
    destruct (chapter_pages_numbers sep base (number c) l s) as [Hp1 Hp2].
    destruct (chapter_pages_spec sep base (number c) l s) as [Hs1 Hs2].
    destruct (MangaHTMLGenerator.chapter_pages sep base (number c) l s)
      as [pages next]. cbn [fst snd] in *.
    assert (next = s + page_count c) as Hnext
      by (rewrite <- Hlen; unfold MangaAnalyzer.len; lia).
    rewrite Hnext.
    set (marker := if bool_decide (number c > 1)
                   then [ChapterMarker (number c) (name c)] else []).
    assert (page_numbers marker = [] ∧ sources marker = []) as [Hm1 Hm2]
      by (subst marker; by destruct (bool_decide _)).
    pose proof (tiles_le _ _ _ Ht) as Hle.
    split; [|split].
    + rewrite !page_numbers_app, Hm1, Hp1, IH1. cbn [app].
      replace (Z.to_nat (e - s))
        with (length l + Z.to_nat (e - (s + page_count c)))%nat
        by (unfold MangaAnalyzer.len in Hlen; lia).
      rewrite counting_app. do 2 f_equal. unfold MangaAnalyzer.len in Hlen. lia.
    + intros src page ch H. apply elem_of_app in H as [H|H].
      { subst marker. destruct (bool_decide _); [|by apply elem_of_nil in H].
        by apply list_elem_of_singleton in H. }
      apply elem_of_app in H as [H|H].
      * destruct (Hs2 _ _ _ H) as [-> Hr]. exists c. split; [left|].
        split; [done|]. unfold MangaAnalyzer.len in Hlen. lia.
      * destruct (IH2 _ _ _ H) as (c' & Hin & Hn & Hr). exists c'.
        split; [by right|done].
    + rewrite !sources_app, Hm2, Hs1, IH3. cbn [app fmap list_fmap concat].
      rewrite Hl. simpl. by rewrite fmap_app.
Qed.

Lemma list_filter_perm {A : Type} (p : A → bool) (l l' : list A) :
  l ≡ₚ l' → List.filter p l ≡ₚ List.filter p l'.
Proof.
  induction 1 as [|x l l' _ IH|x y l|l1 l2 l3 _ IH1 _ IH2]; simpl.
  - done.
  - destruct (p x); [by constructor|done].
  - destruct (p x), (p y); try done. apply Permutation_swap.
  - by rewrite IH1.
Qed.

Lemma list_filter_split {A : Type} (p : A → bool) (l : list A) :
  List.filter p l ++ List.filter (λ x, negb (p x)) l ≡ₚ l.
Proof.
  induction l as [|x l IH]; [done|]. simpl. destruct (p x); simpl.
  - by constructor.
  - rewrite <- Permutation_middle. by constructor.
Qed.

Lemma list_filter_implied {A : Type} (p q : A → bool) (l : list A) :
  (∀ x, p x = true → q x = true) →
  List.filter p (List.filter q l) = List.filter p l.
Proof.
  intros H. induction l as [|x l IH]; [done|]. simpl.
  destruct (q x) eqn:Eq; simpl; rewrite IH; [done|].
  destruct (p x) eqn:Ep; [|done]. by rewrite (H x Ep) in Eq.
Qed.

(** Grouping by a key and putting the groups one after the other
    rearranges the list, when every key is on the list of keys once. *)
Lemma partition_by_key {A : Type} (key : A → Z) (keys : list Z) (l : list A) :
  NoDup keys → (∀ x, x ∈ l → key x ∈ keys) →
  concat ((λ k, List.filter (λ x, bool_decide (key x = k)) l) <$> keys) ≡ₚ l.
Proof.
  intros Hnd. revert l. induction Hnd as [|k keys Hk Hnd IH]; intros l Hall.
  - destruct l as [|x l]; [done|]. specialize (Hall x ltac:(left)).
    by apply elem_of_nil in Hall.
  - rewrite fmap_cons. cbn [concat].
    etransitivity; [|apply (list_filter_split (λ x, bool_decide (key x = k)) l)].
    apply Permutation_app_head.
    set (rest := List.filter (λ x, negb (bool_decide (key x = k))) l).
    rewrite <- (IH rest).
    + assert ((λ k', List.filter (λ x, bool_decide (key x = k')) l) <$> keys
              = (λ k', List.filter (λ x, bool_decide (key x = k')) rest) <$> keys) as ->;
        [|done].
      apply list_fmap_ext. intros i k' Hi. subst rest. symmetry.
      apply list_filter_implied. intros x Hx. apply bool_decide_eq_true in Hx.
      apply negb_true_iff, bool_decide_eq_false. intros Hx'.
      apply Hk. rewrite <- Hx', Hx. by eapply list_elem_of_lookup_2.
    + intros x Hx. subst rest. apply list_elem_of_In, filter_In in Hx as [Hx Hne].
      apply negb_true_iff, bool_decide_eq_false in Hne.
      apply list_elem_of_In, Hall, elem_of_cons in Hx as [Hx|Hx]; done.
Qed.

Lemma chapter_order_elem (determine : path → Z) (all : list path) (img : path) :
  img ∈ all → determine img ∈ MangaHTMLGenerator.chapter_order determine all.
Proof.
  unfold MangaHTMLGenerator.chapter_order.
  assert (∀ (seen : list Z) n,
            n ∈ seen ∨ (∃ img, img ∈ all ∧ determine img = n) →
            n ∈ foldl (λ seen image_path,
                         let chapter_num := determine image_path in
                         if bool_decide (chapter_num ∈ seen) then seen
                         else seen ++ [chapter_num]) seen all) as H.
  { induction all as [|x all IH]; intros seen n.
    - intros [H|(i & Hi & _)]; [done|by apply elem_of_nil in Hi].
    - cbn [foldl]. intros [H|(i & Hi & Hn)]; apply IH.
      + left. destruct (bool_decide _); [done|]. apply elem_of_app. by left.
      + apply elem_of_cons in Hi as [->|Hi]; [|right; by exists i].
        left. cbv zeta. rewrite Hn.
        destruct (bool_decide (n ∈ seen)) eqn:E;
          [by apply bool_decide_eq_true in E|].
        apply elem_of_app. right. left. }
  intros Hin. apply H. right. by exists img.
Qed.

Lemma forallb_false {A : Type} (f : A → bool) (l : list A) :
  forallb f l = false → ∃ x, x ∈ l ∧ f x = false.
Proof.
  induction l as [|x l IH]; [done|]. simpl. destruct (f x) eqn:E.
  - intros (y & Hy & Hf)%IH. exists y. split; [by right|done].
  - intros _. exists x. split; [left|done].
Qed.

(** Sorting the groups of images: every group is rearranged, when every
    image has a key, and the loop ends with a [ValueError] otherwise. *)
Lemma sort_groups_outcome (sep : ascii) (base : path) (determine : path → Z)
    (all : list path) :
  if forallb (sortable sep base) all
  then ∃ m',
         MangaHTMLGenerator.sort_chapters sep base
           (MangaHTMLGenerator.chapter_order determine all)
           (MangaHTMLGenerator.group_by_chapter determine all) = inr m' ∧
         ∀ n, option_Forall2 Permutation
                (m' !! n) (MangaHTMLGenerator.group_by_chapter determine all !! n)
  else ∃ message,
         MangaHTMLGenerator.sort_chapters sep base
           (MangaHTMLGenerator.chapter_order determine all)
           (MangaHTMLGenerator.group_by_chapter determine all)
         = inl (ValueError message).
Proof.
  destruct (forallb (sortable sep base) all) eqn:E;
    destruct (sort_chapters_outcome sep base
                (MangaHTMLGenerator.chapter_order determine all)
                (MangaHTMLGenerator.group_by_chapter determine all))
      as [(m' & Hs & Hp & Hkeys)|(msg & Hs & n & l & p & Hn & Hl & Hin & Hp)].
  - by exists m'.
  - exfalso. rewrite forallb_forall in E.
    pose proof (group_by_chapter_elem determine all n l p Hl Hin) as Hall.
    apply list_elem_of_In in Hall. rewrite (E p Hall) in Hp. done.
  - exfalso. apply forallb_false in E as (p & Hin & Hkey).
    pose proof (chapter_order_elem determine all p Hin) as Hn.
    pose proof (group_by_chapter_lookup determine all (determine p)) as Hl.
    assert (p ∈ List.filter (λ img, bool_decide (determine img = determine p)) all)
      as Hf.
    { apply list_elem_of_In, filter_In.
      split; [by apply list_elem_of_In|by apply bool_decide_eq_true]. }
    destruct (List.filter _ all) as [|x l] eqn:Ef; [by apply elem_of_nil in Hf|].
    specialize (Hkeys _ _ Hn Hl). rewrite Forall_forall in Hkeys.
    rewrite (Hkeys p Hf) in Hkey. done.
  - by exists msg.
Qed.

(** X14.  The reading area follows the metadata.  For every directory tree
    (with unique names in each directory) and the metadata that the
    analysis of the tree gives: when every image of the tree has a sort
    key, the reading area of htmlcmb_v3.py holds the pages 1, ...,
    [total_pages] in this order, every page is marked with the number of
    a chapter in whose page range it lies, and every image of the tree is
    referred to by exactly one page; when the key of an image raises,
    [_generate_reader_content] raises the [ValueError] and there is no
    reading area. *)
Theorem reading_area_follows_metadata
    (guess_type : string → option string) (sep : ascii) (base : path) (tree : node) :
  FS.wf tree = true →
  let md := MangaAnalyzer.analyze_directory guess_type sep base tree in
  let all_images := MangaHTMLGenerator.all_images guess_type sep base tree in
  if forallb (sortable sep base) all_images
  then
    ∃ elements,
      MangaHTMLGenerator.reader_elements guess_type sep md tree = inr elements ∧
      page_numbers elements = counting 1 (Z.to_nat (total_pages md)) ∧
      (∀ src page ch, PageImage src page ch ∈ elements →
         ∃ c, c ∈ chapters md ∧ number c = ch ∧ start_page c ≤ page ≤ end_page c) ∧
      sources elements ≡ₚ Emitted.src_path sep base <$> all_images
  else
    ∃ message,
      MangaHTMLGenerator.reader_elements guess_type sep md tree
      = inl (ValueError message).
Proof.
  intros Hwf md all_images. subst md all_images.
  unfold MangaAnalyzer.analyze_directory.
  pose proof (scan_directory_shape guess_type sep base tree Hwf) as Hshape.
  destruct (scan_structure guess_type sep base tree) as (Hsorted & Hfolders & Himages & Hperm).
  destruct (FileSystemScanner.scan_directory guess_type sep base tree)
    as [folders images]. cbn [fst snd] in *.
  pose proof (analyze_manga_tiles base folders images Hshape) as Ht.
  destruct (analyze_manga_numbers base folders images) as (Hnumbers & _ & Hroot & Hconv).
  destruct (analyze_manga_total base folders images) as [Htotal Hbase].
  unfold MangaHTMLGenerator.reader_elements. rewrite Hbase, Htotal.
  set (md := MangaAnalyzer.analyze_manga base folders images) in *.
  set (all := MangaHTMLGenerator.all_images guess_type sep base tree) in *.
  set (determine := MangaHTMLGenerator._determine_image_chapter md).
  rewrite (sort_by_number_sorted _ Hnumbers).
  pose proof (sort_groups_outcome sep base determine all) as Hsort.
  destruct (forallb (sortable sep base) all);
    [|destruct Hsort as [message ->]; by exists message].
  destruct Hsort as (cm & -> & Hgroups).
  change (inr cm ≫= ?f) with (f cm). cbv beta. unfold mret, result_ret.
  eexists. split; [reflexivity|].
  assert (NoDup (number <$> chapters md)) as Hnd.
  { clear -Hnumbers. induction Hnumbers as [|n l Hl IH Hall]; [constructor|].
    constructor; [|done]. intros Hin. rewrite Forall_forall in Hall.
    specialize (Hall n Hin). lia. }
  (* the chapter number of every image *)
  assert (∀ img, img ∈ images →
            (Path.parent img = base ∧ determine img = 1 ∧
             MangaAnalyzer.first_folder folders img = None ∧
             has_root_images base images = true) ∨
            (∃ (i : nat) k,
               folders !! i = Some (base ++ [k]) ∧
               Path.parent img ≠ base ∧
               determine img = folder_number (has_root_images base images) i ∧
               MangaAnalyzer.first_folder folders img = Some (base ++ [k])))
    as Hdetermine.
  { intros img Hin.
    destruct (image_cases base folders images Hsorted Hfolders Himages Hshape img Hin)
      as [[Hp Hnone]|(k & rel & file & i & Himg & Hp & Hi & Hfirst)].
    - left. split; [done|]. split; [by apply determine_root|]. split; [done|].
      unfold has_root_images. apply existsb_exists. exists img.
      split; [by apply list_elem_of_In|by apply bool_decide_eq_true].
    - right. exists i, k. split; [done|].
      split; [rewrite Hp; apply app_cons_ne_self|]. split; [|done].
      by apply (determine_folder base folders images Hsorted Hfolders Himages Hshape
                  img k file rel i). }
  (* the images of every chapter *)
  assert (∀ c, c ∈ chapters md →
            MangaAnalyzer.len
              (List.filter (λ img, bool_decide (determine img = number c)) images)
            = page_count c) as Hgroup.
  { intros c Hc.
    destruct (chapter_cases base folders images Hsorted Hfolders Himages Hshape c Hc)
      as [(Hr & Hn & _ & ->)|(i & k & Hi & _ & Hn & ->)]; f_equal;
      apply filter_ext_in; intros img Hin; apply list_elem_of_In in Hin;
      apply bool_decide_ext; rewrite Hn.
    - destruct (Hdetermine img Hin) as [(Hp & Hd & _)|(j & k & _ & Hp & Hd & _)].
      + by rewrite Hd.
      + rewrite Hd, Hr. unfold folder_number. split; [lia|done].
    - destruct (Hdetermine img Hin)
        as [(Hp & Hd & Hnone & Hr)|(j & k' & Hj & Hp & Hd & Hfirst)].
      + rewrite Hd, Hnone, Hr. unfold folder_number. split; [lia|done].
      + rewrite Hd, Hfirst. unfold folder_number. split.
        * intros Heq. assert (j = i) as -> by (destruct (has_root_images _ _); lia).
          congruence.
        * intros [= Heq]. rewrite Heq in Hj.
          destruct Hshape as [Hnodup _].
          by rewrite (NoDup_lookup _ _ _ _ Hnodup Hi Hj). }
  assert (Forall (λ c, ∃ l, cm !! number c = Some l ∧
                         MangaAnalyzer.len l = page_count c ∧
                         l ≡ₚ List.filter (λ img, bool_decide (determine img = number c))
                                all) (chapters md)) as Hcm.
  { apply Forall_forall. intros c Hc. pose proof (Hgroups (number c)) as Hcm.
    rewrite group_by_chapter_lookup in Hcm.
    pose proof (Hgroup c Hc) as Hlen.
    assert (MangaAnalyzer.len
              (List.filter (λ img, bool_decide (determine img = number c)) all)
            = page_count c) as Hlen'.
    { rewrite <- Hlen. unfold MangaAnalyzer.len. f_equal.
      apply Permutation_length, list_filter_perm. by symmetry. }
    destruct (tiles_bounds _ _ _ c Ht Hc) as (_ & Hle & _).
    pose proof (tiles_Forall _ _ _ Ht) as Hpc. rewrite Forall_forall in Hpc.
    specialize (Hpc c Hc). cbn beta in Hpc.
    destruct (List.filter _ all) as [|img l] eqn:Ef.
    - unfold MangaAnalyzer.len in Hlen'. simpl in Hlen'. lia.
    - destruct (cm !! number c) as [sorted|] eqn:Ecm; [|by inversion Hcm].
      assert (sorted ≡ₚ img :: l) as Hsorted' by (by inversion Hcm).
      exists sorted. split; [done|]. split; [|done].
      rewrite <- Hlen'. unfold MangaAnalyzer.len. f_equal.
      by apply Permutation_length. }
  destruct (output_chapters_tiles sep base cm (chapters md) 1
              (1 + MangaAnalyzer.len images) Ht) as (H1 & H2 & H3).
  { eapply Forall_impl; [exact Hcm|]. intros c (l & Hl & Hlen & _). by exists l. }
  split; [|split].
  - rewrite H1. f_equal. lia.
  - exact H2.
  - rewrite H3. apply fmap_Permutation.
    transitivity (concat ((λ n, List.filter (λ img, bool_decide (determine img = n)) all)
                          <$> (number <$> chapters md))).
    + rewrite <- list_fmap_compose. clear -Hcm.
      induction Hcm as [|c chs (l & Hl & _ & Hp) _ IH]; [done|].
      rewrite !fmap_cons. cbn [concat]. rewrite Hl. simpl.
      by apply Permutation_app.
    + apply partition_by_key; [done|]. intros img Hin.
      rewrite <- Hperm in Hin.
      destruct (Hdetermine img Hin) as [(_ & Hd & _ & Hr)|(i & k & Hi & _ & Hd & Hfirst)].
      * destruct (Hroot Hr) as (c & Hhead & Hn & _). fold determine. rewrite Hd, <- Hn.
        apply list_elem_of_fmap. exists c. split; [done|].
        destruct (chapters md); [done|]. injection Hhead as ->. left.
      * destruct (Hconv i _ Hi) as (c & Hc & _ & Hn).
        { unfold receives_images. apply existsb_exists. exists img.
          split; [by apply list_elem_of_In|by apply bool_decide_eq_true]. }
        fold determine. rewrite Hd, <- Hn. apply list_elem_of_fmap. by exists c.
Qed.

(** ** The records of the virtual-scroll reader *)

Lemma prefix_app_same (a t u : string) :
  String.prefix (a +:+ t) (a +:+ u) = String.prefix t u.
Proof.
  induction a as [|c a IH]; [done|].
  change (String c a +:+ ?x) with (String c (a +:+ x)). simpl.
  destruct (ascii_dec c c); [exact IH|done].
Qed.

Lemma join_prefix (s : string) (p q : path) :
  String.prefix (Str.join s p) (Str.join s (p ++ q)) = true.
Proof.
  induction p as [|a p IH]; [apply prefix_empty|].
  destruct p as [|b p].
  - cbn [app Str.join]. destruct q as [|c q].
    + rewrite <- (str_app_nil_r a) at 2. rewrite <- (str_app_nil_r a) at 1.
      by rewrite prefix_app_same.
    + rewrite <- (str_app_nil_r a) at 1. rewrite prefix_app_same. apply prefix_empty.
  - change (Str.join s (a :: b :: p)) with (a +:+ s +:+ Str.join s (b :: p)).
    change (Str.join s ((a :: b :: p) ++ q))
      with (a +:+ s +:+ Str.join s ((b :: p) ++ q)).
    by rewrite !prefix_app_same.
Qed.

Lemma contains_prefix (needle haystack : string) :
  String.prefix needle haystack = true → VirtualScroll.contains needle haystack = true.
Proof.
  intros H. destruct haystack as [|c rest].
  - change (VirtualScroll.contains needle "") with (String.prefix needle "" || false).
    by rewrite H.
  - change (VirtualScroll.contains needle (String c rest))
      with (String.prefix needle (String c rest) || VirtualScroll.contains needle rest).
    by rewrite H.
Qed.

Lemma collect_chapters_sources (sep : ascii) (base : path) (cm : gmap Z (list path))
    (chs : list Chapter) (page : Z) :
  im_src <$> VirtualScroll.collect_chapters sep base cm chs page
  = Emitted.src_path sep base
    <$> concat ((λ c, default [] (cm !! number c)) <$> chs).
Proof.
  revert page. induction chs as [|c chs IH]; intros page; [done|].
  cbn [VirtualScroll.collect_chapters]. rewrite fmap_cons. cbn [concat].
  destruct (cm !! number c) as [images|]; [|apply IH].
  assert (∀ page, im_src <$> (VirtualScroll.chapter_metadata sep base (number c)
                               images page).1
                  = Emitted.src_path sep base <$> images) as Himages.
  { clear. induction images as [|img images IHi]; intros page; [done|].
    cbn [VirtualScroll.chapter_metadata]. specialize (IHi (page + 1)).
    destruct (VirtualScroll.chapter_metadata sep base (number c) images (page + 1)).
    cbn [fst] in *. by rewrite !fmap_cons, IHi. }
  specialize (Himages page).
  destruct (VirtualScroll.chapter_metadata sep base (number c) images page)
    as [items next]. cbn [fst] in Himages. simpl.
  by rewrite !fmap_app, Himages, IH.
Qed.

Lemma collect_chapters_chapter (sep : ascii) (base : path) (cm : gmap Z (list path))
    (chs : list Chapter) (page : Z) (item : ImageMetadata) :
  item ∈ VirtualScroll.collect_chapters sep base cm chs page →
  ∃ l, cm !! im_chapter item = Some l ∧ l ≠ [].
Proof.
  revert page. induction chs as [|c chs IH]; intros page; simpl.
  - intros H. by apply elem_of_nil in H.
  - destruct (cm !! number c) as [images|] eqn:E; [|apply IH].
    assert (∀ page, item ∈ (VirtualScroll.chapter_metadata sep base (number c)
                              images page).1 →
                    im_chapter item = number c ∧ images ≠ []) as Himages.
    { clear. induction images as [|img images IHi]; intros page; simpl.
      - intros H. by apply elem_of_nil in H.
      - specialize (IHi (page + 1)).
        destruct (VirtualScroll.chapter_metadata sep base (number c) images (page + 1)).
        simpl in *. intros H. apply elem_of_cons in H as [->|H]; [done|].
        split; [by apply IHi|done]. }
    specialize (Himages page).
    destruct (VirtualScroll.chapter_metadata sep base (number c) images page)
      as [items next]. simpl in *.
    intros H. apply elem_of_app in H as [H|H]; [|by eapply IH].
    destruct (Himages H) as [-> Hne]. by exists images.
Qed.

(** X15.  The records of the virtual-scroll reader are complete.  For every
    directory tree and the metadata that the analysis of the tree gives:
    when every image of the tree has a sort key, the list written into
    the page as [window.mangaImageData] has one record for every image of
    the tree and [total_pages] records in all, so that [renderPage] finds
    a record for every page; the records carry the number of the first
    chapter whose folder, as a string, occurs in the string of the image,
    which for a tree with an image in its base directory is the number 1
    for every record.  When the key of an image raises,
    [_collect_image_metadata] raises the [ValueError]. *)
Theorem image_data_complete
    (guess_type : string → option string) (sep : ascii) (base : path) (tree : node)
    (use_virtual_scroll : option bool) :
  let md := MangaAnalyzer.analyze_directory guess_type sep base tree in
  let self := VirtualScroll.__init__ md use_virtual_scroll in
  let all_images := MangaHTMLGenerator.all_images guess_type sep base tree in
  if forallb (sortable sep base) all_images
  then
    ∃ records,
      VirtualScroll._collect_image_metadata guess_type sep self tree = inr records ∧
      im_src <$> records ≡ₚ Emitted.src_path sep base <$> all_images ∧
      MangaAnalyzer.len records = total_pages md ∧
      (has_root_images base
         (FileSystemScanner.scan_directory guess_type sep base tree).2 = true →
       Forall (λ record, im_chapter record = 1) records)
  else
    ∃ message,
      VirtualScroll._collect_image_metadata guess_type sep self tree
      = inl (ValueError message).
Proof.
  intros md self all_images. subst md self all_images.
  unfold MangaAnalyzer.analyze_directory.
  destruct (scan_structure guess_type sep base tree)
    as (Hsorted & Hfolders & Himages & Hperm).
  destruct (FileSystemScanner.scan_directory guess_type sep base tree)
    as [folders images]. cbn [fst snd] in *.
  destruct (analyze_manga_numbers base folders images) as (Hnumbers & _ & Hroot & Hconv).
  destruct (analyze_manga_total base folders images) as [Htotal Hbase].
  unfold VirtualScroll._collect_image_metadata, VirtualScroll.__init__.
  cbn [metadata]. rewrite Hbase, Htotal.
  set (md := MangaAnalyzer.analyze_manga base folders images) in *.
  set (self := {| metadata := md; use_virtual_scroll := _ |}).
  set (all := MangaHTMLGenerator.all_images guess_type sep base tree) in *.
  set (determine := VirtualScroll._determine_image_chapter sep self).
  rewrite (sort_by_number_sorted _ Hnumbers).
  pose proof (sort_groups_outcome sep base determine all) as Hsort.
  destruct (forallb (sortable sep base) all);
    [|destruct Hsort as [message ->]; by exists message].
  destruct Hsort as (cm & -> & Hgroups).
  change (inr cm ≫= ?f) with (f cm). cbv beta. unfold mret, result_ret.
  eexists. split; [reflexivity|].
  assert (NoDup (number <$> chapters md)) as Hnd.
  { clear -Hnumbers. induction Hnumbers as [|n l Hl IH Hall]; [constructor|].
    constructor; [|done]. intros Hin. rewrite Forall_forall in Hall.
    specialize (Hall n Hin). lia. }
  assert (∀ c rel, folder_path c ++ rel = folder_path c ++ rel →
            VirtualScroll.contains (Path.str sep (folder_path c))
              (Path.str sep (folder_path c ++ rel)) = true) as Hcontains.
  { intros c rel _. apply contains_prefix, join_prefix. }
  assert (∀ img, img ∈ images → determine img ∈ number <$> chapters md) as Hdet.
  { intros img Hin. subst determine. unfold VirtualScroll._determine_image_chapter.
    unfold self. cbn [metadata].
    assert (∃ c rel, c ∈ chapters md ∧ img = folder_path c ++ rel) as (c & rel & Hc & ->).
    { destruct (Himages img Hin) as (rel & file & -> & [->|(k & rel' & -> & Ht)]).
      - destruct Hroot as (c & Hhead & _ & Hf).
        { unfold has_root_images. apply existsb_exists. exists (base ++ [] ++ [file]).
          split; [by apply list_elem_of_In|]. apply bool_decide_eq_true.
          apply (parent_join base file). }
        exists c, [file]. split; [|by rewrite Hf].
        destruct (chapters md); [done|]. injection Hhead as ->. left.
      - destruct (MangaAnalyzer.first_folder folders (base ++ (k :: rel') ++ [file]))
          as [f|] eqn:Ef.
        + apply list_elem_of_lookup_1 in Ht as Hi. clear Hi.
          pose proof Ef as Ef'. apply first_folder_Some in Ef' as [Hf [r Hr]].
          apply list_elem_of_lookup_1 in Hf as [i Hi].
          destruct (Hconv i f Hi) as (c & Hc & Hfc & _).
          { unfold receives_images. apply existsb_exists.
            exists (base ++ (k :: rel') ++ [file]).
            split; [by apply list_elem_of_In|by apply bool_decide_eq_true]. }
          exists c, r. split; [done|]. rewrite Hfc. clear -Hr.
          revert Hr. generalize (base ++ (k :: rel') ++ [file]). intros p.
          revert p. induction f as [|a f IH]; intros p Hr.
          * destruct p; by injection Hr as <-.
          * destruct p as [|b p]; [done|]. simpl in Hr.
            destruct (String.eqb_spec a b) as [->|_]; [|done].
            simpl. f_equal. by apply IH.
        + exfalso. rewrite first_folder_None in Ef. specialize (Ef _ Ht).
          pose proof (relative_to_app base ((k :: rel') ++ [file]) [k]) as H.
          rewrite H in Ef. simpl in Ef. rewrite String.eqb_refl in Ef.
          by destruct (rel' ++ [file]). }
    destruct (List.find _ (chapters md)) as [found|] eqn:Efind.
    - apply find_some in Efind as [Hfound _]. apply list_elem_of_In in Hfound.
      apply list_elem_of_fmap. by exists found.
    - apply list_elem_of_In in Hc. pose proof (find_none _ _ Efind c Hc) as Hno.
      cbn beta in Hno. by rewrite Hcontains in Hno. }
  assert (concat ((λ c, default [] (cm !! number c)) <$> chapters md) ≡ₚ all) as Hall.
  { transitivity (concat ((λ n, List.filter (λ img, bool_decide (determine img = n)) all)
                          <$> (number <$> chapters md))).
    - rewrite <- list_fmap_compose. generalize (chapters md). intros chs.
      induction chs as [|c chs IH]; [done|]. rewrite !fmap_cons. cbn [concat].
      apply Permutation_app; [|exact IH]. cbn [compose].
      pose proof (Hgroups (number c)) as Hc. rewrite group_by_chapter_lookup in Hc.
      destruct (List.filter _ all) as [|img l].
      + destruct (cm !! number c); [by inversion Hc|done].
      + destruct (cm !! number c) as [sorted|]; by inversion Hc.
    - apply partition_by_key; [done|]. intros img Hin. apply Hdet.
      by rewrite Hperm. }
  split; [|split].
  - rewrite collect_chapters_sources. by apply fmap_Permutation.
  - unfold MangaAnalyzer.len. f_equal.
    rewrite <- (length_fmap im_src), collect_chapters_sources, length_fmap.
    rewrite Hall, <- Hperm. done.
  - intros Hr. apply Forall_forall. intros record Hin.
    apply collect_chapters_chapter in Hin as (l & Hl & Hne).
    pose proof (Hgroups (im_chapter record)) as Hg.
    rewrite Hl, group_by_chapter_lookup in Hg.
    destruct (List.filter _ all) as [|img l'] eqn:Ef; [by inversion Hg|].
    assert (img ∈ List.filter (λ img, bool_decide (determine img = im_chapter record)) all)
      as Himg by (rewrite Ef; left).
    apply list_elem_of_In, filter_In in Himg as [Himg Hd].
    apply bool_decide_eq_true in Hd. rewrite <- Hd. clear Hd.
    apply list_elem_of_In in Himg. rewrite <- Hperm in Himg.
    destruct (Himages img Himg) as (rel & file & -> & _).
    destruct (Hroot Hr) as (c & Hhead & Hn & Hf).
    subst determine. unfold VirtualScroll._determine_image_chapter.
    unfold self. cbn [metadata].
    destruct (chapters md) as [|c0 chs]; [done|]. injection Hhead as ->.
    cbn [List.find]. rewrite <- Hf.
    rewrite (Hcontains c (rel ++ [file]) eq_refl). done.
Qed.

(** ** Writing the reader *)

(** Writing a file leaves every other file as it is. *)
Lemma write_keeps_files (n n' : node) (w p : path) (content c : string) :
  FS.write n w content = Some n' →
  FS.lookup n p = Some (File c) → p ≠ w →
  FS.lookup n' p = Some (File c).
Proof.
  revert n n' p. induction w as [|k w IH]; intros n n' p Hw Hp Hne.
  - simpl in Hw. destruct n as [c0|es]; [|done]. destruct p; [done|done].
  - simpl in Hw. destruct n as [c0|es]; [done|].
    destruct p as [|k' p]; [done|]. simpl in *.
    destruct (decide (k = k')) as [<-|Hk].
    + destruct (FS.entry k es) as [v|] eqn:E; [|done].
      destruct (FS.write v w content) as [v'|] eqn:W; [|done]. injection Hw as <-.
      rewrite entry_set_entry. apply (IH v); [done|done|congruence].
    + destruct (FS.entry k es) as [v|] eqn:E.
      * destruct (FS.write v w content) as [v'|] eqn:W; [|done]. injection Hw as <-.
        by rewrite entry_set_entry_ne.
      * destruct w; [|done]. injection Hw as <-. by rewrite entry_set_entry_ne.
Qed.





Lemma generate_keeps_files (env : environment) (fs : node) (self : path)
    (p : path) (c : string) :
  FS.lookup fs p = Some (File c) → Path.name p ≠ "index-mb.html" →
  FS.lookup (MangaReaderGenerator.generate env fs self "index-mb.html").1 p
  = Some (File c).
Proof.
  intros Hp Hname. unfold MangaReaderGenerator.generate.
  destruct (FS.lookup fs self) as [tree|]; [|done].
  destruct (FileSystemScanner.scan_directory _ _ _ _) as [folders images].
  unfold MangaHTMLGenerator.generate_html.
  destruct (MangaHTMLGenerator._build_html_content _ _ _) as [e|html_content]; [done|].
  destruct (FS.write fs _ _) as [fs'|] eqn:Hw; [|done]. cbn [fst].
  apply (write_keeps_files fs fs' _ p _ c Hw Hp).
  intros ->. by rewrite name_snoc in Hname.
Qed.

(** X17.  The generator only ever writes files called index-mb.html: whatever
    lines are typed, a file of another name that existed before [main]
    ran exists afterwards with the same content. *)
Theorem main_keeps_other_files (env : environment) (inputs : list string) (fs : node)
    (printed : list string) (p : path) (c : string) :
  FS.lookup fs p = Some (File c) → Path.name p ≠ "index-mb.html" →
  FS.lookup (MangaReaderGenerator.main env inputs fs printed).1 p = Some (File c).
Proof.
  intros Hp Hname. revert fs printed Hp.
  induction inputs as [|line rest IH]; intros fs printed Hp; [done|].
  cbn [MangaReaderGenerator.main].
  destruct (String.eqb (Str.strip Str.whitespace line) ""); [done|].
  destruct (MangaReaderGenerator.__init__ env fs _) as [e|generator]; [by apply IH|].
  pose proof (generate_keeps_files env fs generator p c Hp Hname) as Hg.
  destruct (MangaReaderGenerator.generate env fs generator "index-mb.html")
    as [fs' [e|output_path]]; by apply IH.
Qed.

(** ** The scan of htmlc.py is complete *)

Lemma split_app_separator (c : ascii) (a b : string) :
  Str.split c (a +:+ String c b) = Str.split c a ++ Str.split c b.
Proof.
  induction a as [|d a IH].
  - change ("" +:+ String c b) with (String c b). simpl. by rewrite Ascii.eqb_refl.
  - change (String d a +:+ String c b) with (String d (a +:+ String c b)).
    cbn [Str.split]. rewrite IH. destruct (Ascii.eqb c d); [done|].
    pose proof (split_nonempty c a) as Hne.
    by destruct (Str.split c a).
Qed.

Lemma locate_child (fs : node) (typed k : string) :
  FS.proper_name k = true →
  Htmlc.locate Htmlc.Windows fs (typed +:+ "\" +:+ k)
  = (λ p, p ++ [k]) <$> Htmlc.locate Htmlc.Windows fs typed.
Proof.
  intros Hk. unfold Htmlc.locate, Htmlc.parts.
  change (typed +:+ "\" +:+ k) with (typed +:+ String "\" k).
  rewrite split_app_separator, flat_map_app, foldl_app.
  destruct (proper_name_spec k Hk) as (_ & Hslash & Hback).
  rewrite (split_no_separator "\" k Hback). cbn [List.flat_map].
  rewrite (split_no_separator "/" k Hslash). cbn [app foldl].
  destruct (foldl _ _ _) as [p|]; [|done]. cbn [Htmlc.step].
  unfold FS.proper_name in Hk.
  destruct (String.eqb k ""), (String.eqb k "."), (String.eqb k ".."); done.
Qed.

Lemma dirs_Dir (es : list (string * node)) :
  dirs (Dir es) = S (list_sum (List.map (λ e, dirs e.2) es)).
Proof.
  cbn [dirs]. f_equal. induction es as [|[k v] es IH]; [done|]. simpl. by rewrite IH.
Qed.

Lemma files_below_Dir (p : path) (es : list (string * node)) :
  files_below p (Dir es)
  = List.map (Path.join p) ((filter (λ e, FS.is_file_node e.2 = true) es).*1)
    ++ List.flat_map (λ e, files_below (p ++ [e.1]) e.2) es.
Proof.
  unfold files_below. rewrite walk_Dir. cbn [List.flat_map]. f_equal.
  induction es as [|[k v] es IH]; [done|]. cbn [List.flat_map].
  by rewrite flat_map_app, IH.
Qed.

Lemma entry_unique (es : list (string * node)) (k : string) (v : node) :
  NoDup (es.*1) → (k, v) ∈ es → FS.entry k es = Some v.
Proof.
  intros Hnd Hin. destruct (FS.entry k es) as [v'|] eqn:E.
  - apply entry_elem in E. by rewrite (unique_entry es k v v' Hnd Hin E).
  - exfalso. assert (is_Some (FS.entry k es)) as [? ?]; [|congruence].
    apply entry_is_Some. apply list_elem_of_fmap. by exists (k, v).
Qed.

(** One call of [getAllFiles] on a directory: the sub-directories join
    the queue and the other entries join the files, in the order of the
    listing. *)
Lemma getAllFiles_spec (fs : node) (fpath : string) (p : path)
    (es : list (string * node)) (rest filesArray : list string) :
  Htmlc.locate Htmlc.Windows fs fpath = Some p →
  FS.lookup fs p = Some (Dir es) →
  NoDup (es.*1) → FS.names_ok FS.proper_name (Dir es) = true →
  Htmlc.getAllFiles Htmlc.Windows fs fpath (fpath :: rest) filesArray
  = Some (rest ++ ((λ e, fpath +:+ "\" +:+ e.1)
                   <$> List.filter (λ e, FS.is_dir_node e.2) es),
          filesArray ++ ((λ e, fpath +:+ "\" +:+ e.1)
                         <$> List.filter (λ e, FS.is_file_node e.2) es)).
Proof.
  intros Hloc Hlook Hnd Hok. unfold Htmlc.getAllFiles, Htmlc.listdir, FS.listdir.
  rewrite Hloc, Hlook. cbn [List.tl]. f_equal.
  assert (∀ e, e ∈ es →
            Htmlc.isdir Htmlc.Windows fs (fpath +:+ "\" +:+ e.1)
            = FS.is_dir_node e.2) as Hdir.
  { intros [k v] Hin. cbn [fst snd].
    destruct (names_ok_entry FS.proper_name es k v Hok Hin) as [Hk _].
    unfold Htmlc.isdir. rewrite locate_child, Hloc by done. simpl. unfold FS.is_dir.
    rewrite lookup_app, Hlook. simpl. rewrite (entry_unique es k v Hnd Hin).
    by destruct v. }
  clear Hloc Hlook Hnd Hok. revert rest filesArray Hdir.
  induction es as [|[k v] es IH]; intros rest filesArray Hdir.
  - simpl. by rewrite !app_nil_r.
  - cbn [fmap list_fmap foldl fst].
    pose proof (Hdir (k, v) ltac:(left)) as Hkv. cbn [fst snd] in Hkv. rewrite Hkv.
    cbn [List.filter snd].
    destruct v as [c|es']; cbn [FS.is_dir_node FS.is_file_node].
    + rewrite IH by (intros e He; apply Hdir; by right).
      cbn [fmap list_fmap fst]. by rewrite <- app_assoc.
    + rewrite IH by (intros e He; apply Hdir; by right).
      cbn [fmap list_fmap fst]. by rewrite <- app_assoc.
Qed.

Lemma list_filter_stdpp {A : Type} (p : A → bool) (l : list A) :
  filter (λ x, p x = true) l = List.filter p l.
Proof.
  induction l as [|x l IH]; [done|]. rewrite filter_cons. simpl.
  destruct (p x) eqn:E; [rewrite decide_True by done|rewrite decide_False by done];
    by rewrite IH.
Qed.

Lemma child_node (fs : node) (fpath : string) (p : path) (es : list (string * node))
    (k : string) (v : node) :
  Htmlc.locate Htmlc.Windows fs fpath = Some p →
  FS.lookup fs p = Some (Dir es) →
  NoDup (es.*1) → FS.names_ok FS.proper_name (Dir es) = true → (k, v) ∈ es →
  Htmlc.locate Htmlc.Windows fs (fpath +:+ "\" +:+ k) = Some (p ++ [k]) ∧
  FS.lookup fs (p ++ [k]) = Some v ∧
  FS.names_ok FS.proper_name v = true.
Proof.
  intros Hloc Hlook Hnd Hok Hin.
  destruct (names_ok_entry FS.proper_name es k v Hok Hin) as [Hk Hv].
  rewrite locate_child, Hloc by done. split; [done|]. split; [|done].
  rewrite lookup_app, Hlook. simpl. by rewrite (entry_unique es k v Hnd Hin).
Qed.

(** The loop of the scan on a queue of directories: with a turn for
    every directory at or below the queued ones, it ends, and what it adds
    to the files are the files at or below the queued directories. *)
Lemma all_files_queue (fs : node) (fuel : nat) (queue found : list string) :
  Forall (λ f, ∃ p es, Htmlc.locate Htmlc.Windows fs f = Some p ∧
                       FS.lookup fs p = Some (Dir es) ∧
                       FS.wf (Dir es) = true ∧
                       FS.names_ok FS.proper_name (Dir es) = true) queue →
  (list_sum (List.map (λ f, dirs (node_at fs f)) queue) ≤ fuel)%nat →
  ∃ more,
    Htmlc.all_files Htmlc.Windows fuel fs queue found = Some (found ++ more) ∧
    Htmlc.locate Htmlc.Windows fs <$> more
    ≡ₚ Some <$> List.flat_map (λ f, files_below (place_at fs f) (node_at fs f)) queue.
Proof.
  revert queue found. induction fuel as [|fuel IH]; intros queue found Hq Hw.
  - destruct queue as [|f rest]; [exists []; by rewrite app_nil_r|]. exfalso.
    apply Forall_cons in Hq as [(p & es & Hloc & Hlook & _) _].
    assert (node_at fs f = Dir es) as Hnode
      by (unfold node_at, place_at; rewrite Hloc; simpl; by rewrite Hlook).
    cbn [List.map list_sum] in Hw. rewrite Hnode in Hw. simpl in Hw. lia.
  - destruct queue as [|f rest]; [exists []; by rewrite app_nil_r|].
    apply Forall_cons in Hq as [(p & es & Hloc & Hlook & Hwf & Hok) Hrest].
    rewrite wf_Dir in Hwf. apply andb_true_iff in Hwf as [Hnd Hwfs].
    apply bool_decide_eq_true in Hnd.
    cbn [Htmlc.all_files].
    rewrite (getAllFiles_spec fs f p es rest found Hloc Hlook Hnd Hok).
    assert (place_at fs f = p) as Hplace by (unfold place_at; by rewrite Hloc).
    assert (node_at fs f = Dir es) as Hnode_f
      by (unfold node_at; by rewrite Hplace, Hlook).
    set (newdirs := (λ e : string * node, f +:+ "\" +:+ e.1)
                    <$> List.filter (λ e, FS.is_dir_node e.2) es).
    set (newfiles := (λ e : string * node, f +:+ "\" +:+ e.1)
                     <$> List.filter (λ e, FS.is_file_node e.2) es).
    assert (∀ e, e ∈ es →
              Htmlc.locate Htmlc.Windows fs (f +:+ "\" +:+ e.1) = Some (p ++ [e.1]) ∧
              place_at fs (f +:+ "\" +:+ e.1) = p ++ [e.1] ∧
              node_at fs (f +:+ "\" +:+ e.1) = e.2 ∧
              FS.lookup fs (p ++ [e.1]) = Some e.2 ∧
              FS.names_ok FS.proper_name e.2 = true ∧ FS.wf e.2 = true) as Hchild.
    { intros [k v] Hin. cbn [fst snd].
      destruct (child_node fs f p es k v Hloc Hlook Hnd Hok Hin) as (H1 & H2 & H3).
      assert (place_at fs (f +:+ "\" +:+ k) = p ++ [k]) as Hpl
        by (unfold place_at; by rewrite H1).
      split; [done|]. split; [done|].
      split; [unfold node_at; by rewrite Hpl, H2|]. split; [done|].
      split; [done|]. rewrite forallb_forall in Hwfs.
      apply (Hwfs (k, v)). by apply list_elem_of_In. }
    destruct (IH (rest ++ newdirs) (found ++ newfiles)) as (more & Hrun & Hperm).
    + apply Forall_app. split; [done|]. subst newdirs. apply Forall_fmap, Forall_forall.
      intros e He. apply list_elem_of_In, filter_In in He as [He Hd].
      apply list_elem_of_In in He.
      destruct (Hchild e He) as (Hl1 & _ & _ & Hl & Hn & Hw').
      cbn [compose]. destruct e as [k [c|es']]; [done|]. by exists (p ++ [k]), es'.
    + cbn [List.map list_sum] in Hw. rewrite Hnode_f, dirs_Dir in Hw.
      rewrite List.map_app, list_sum_app.
      change (list_sum (?x :: ?l)) with (x + list_sum l)%nat in Hw.
      assert (list_sum (List.map (λ f0, dirs (node_at fs f0)) newdirs)
              = list_sum (List.map (λ e, dirs e.2) es)) as ->; [|lia].
      subst newdirs. clear -Hchild. induction es as [|e es IHes]; [done|].
      cbn [List.filter List.map list_sum].
      assert (∀ e', e' ∈ es →
                Htmlc.locate Htmlc.Windows fs (f +:+ "\" +:+ e'.1)
                = Some (p ++ [e'.1]) ∧
                place_at fs (f +:+ "\" +:+ e'.1) = p ++ [e'.1] ∧
                node_at fs (f +:+ "\" +:+ e'.1) = e'.2 ∧
                FS.lookup fs (p ++ [e'.1]) = Some e'.2 ∧
                FS.names_ok FS.proper_name e'.2 = true ∧ FS.wf e'.2 = true) as Htail
        by (intros e' He'; apply Hchild; by right).
      specialize (IHes Htail). destruct (Hchild e ltac:(left)) as (_ & _ & Hnode & _).
      destruct e as [k [c|es']]; cbn [FS.is_dir_node snd fst] in *.
      * change (list_sum (?x :: ?l)) with (x + list_sum l)%nat.
        cbn [dirs Nat.add]. exact IHes.
      * cbn [fmap list_fmap List.map fst snd].
        change (list_sum (?x :: ?l)) with (x + list_sum l)%nat.
        by rewrite Hnode, IHes.
    + exists (newfiles ++ more). split; [by rewrite Hrun, <- app_assoc|].
      rewrite fmap_app, Hperm. cbn [List.flat_map]. rewrite flat_map_app.
      rewrite Hnode_f, Hplace, files_below_Dir, !fmap_app.
      assert (Htmlc.locate Htmlc.Windows fs <$> newfiles
              = Some <$> List.map (Path.join p)
                           ((filter (λ e, FS.is_file_node e.2 = true) es).*1)) as ->.
      { rewrite (list_filter_stdpp (λ e, FS.is_file_node e.2)). subst newfiles.
        clear -Hchild. induction es as [|e es IHes]; [done|].
        assert (∀ e', e' ∈ es →
                  Htmlc.locate Htmlc.Windows fs (f +:+ "\" +:+ e'.1)
                  = Some (p ++ [e'.1]) ∧
                  place_at fs (f +:+ "\" +:+ e'.1) = p ++ [e'.1] ∧
                  node_at fs (f +:+ "\" +:+ e'.1) = e'.2 ∧
                  FS.lookup fs (p ++ [e'.1]) = Some e'.2 ∧
                  FS.names_ok FS.proper_name e'.2 = true ∧ FS.wf e'.2 = true) as Htail
          by (intros e' He'; apply Hchild; by right).
        specialize (IHes Htail). destruct (Hchild e ltac:(left)) as (Hc & _).
        cbn [List.filter]. destruct (FS.is_file_node e.2); [|exact IHes].
        cbn [fmap list_fmap List.map]. rewrite Hc. f_equal. exact IHes. }
      assert (List.flat_map (λ f0, files_below (place_at fs f0) (node_at fs f0)) newdirs
              = List.flat_map (λ e, files_below (p ++ [e.1]) e.2) es) as ->.
      { subst newdirs. clear -Hchild. induction es as [|e es IHes]; [done|].
        assert (∀ e', e' ∈ es →
                  Htmlc.locate Htmlc.Windows fs (f +:+ "\" +:+ e'.1)
                  = Some (p ++ [e'.1]) ∧
                  place_at fs (f +:+ "\" +:+ e'.1) = p ++ [e'.1] ∧
                  node_at fs (f +:+ "\" +:+ e'.1) = e'.2 ∧
                  FS.lookup fs (p ++ [e'.1]) = Some e'.2 ∧
                  FS.names_ok FS.proper_name e'.2 = true ∧ FS.wf e'.2 = true) as Htail
          by (intros e' He'; apply Hchild; by right).
        specialize (IHes Htail).
        destruct (Hchild e ltac:(left)) as (_ & Hc & Hnode & _).
        cbn [List.filter List.flat_map].
        destruct e as [k [c|es']]; cbn [FS.is_dir_node snd fst] in *.
        - exact IHes.
        - cbn [fmap list_fmap List.flat_map fst]. by rewrite Hc, Hnode, IHes. }
      rewrite <- !app_assoc. apply Permutation_app_head. apply Permutation_app_comm.
Qed.

(** X18.  The scan of htmlc.py ends and is complete on a host of the
    backslash.  When the typed path names a directory below which the
    names are unique in each directory and hold no separator, the loop
    [while len(foldersArray)] ends after one call of [getAllFiles] for
    every directory at or below the typed one, and the files that it has
    gathered are the files at any depth below the typed directory, each
    once. *)
Theorem htmlc_scan_complete (fs : node) (path : string) (place : list string)
    (tree : node) :
  Htmlc.locate Htmlc.Windows fs path = Some place →
  FS.lookup fs place = Some tree →
  FS.is_dir_node tree = true → FS.wf tree = true →
  FS.names_ok FS.proper_name tree = true →
  ∃ filesArray,
    Htmlc.all_files Htmlc.Windows (dirs tree) fs [path] [] = Some filesArray ∧
    Htmlc.locate Htmlc.Windows fs <$> filesArray ≡ₚ Some <$> files_below place tree.
Proof.
  intros Hloc Hlook Hdir Hwf Hok. destruct tree as [c|es]; [done|].
  assert (place_at fs path = place) as Hplace by (unfold place_at; by rewrite Hloc).
  assert (node_at fs path = Dir es) as Hnode
    by (unfold node_at; by rewrite Hplace, Hlook).
  destruct (all_files_queue fs (dirs (Dir es)) [path] []) as (more & Hrun & Hperm).
  - constructor; [|constructor]. by exists place, es.
  - cbn [List.map list_sum]. rewrite Hnode. simpl. lia.
  - exists more. split; [exact Hrun|]. rewrite Hperm. cbn [List.flat_map].
    by rewrite Hnode, Hplace, app_nil_r.
Qed.

(** On a host of the slash the backslash that [getAllFiles] puts between
    a directory and an entry is a character of a name: no such path is a
    directory, the scan does not go below the typed directory, and its
    sub-directories are gathered as files. *)
Example htmlc_scan_on_slash_host :
  Htmlc.all_files Htmlc.Posix 3 shelf_tree ["lib/b1"] []
  = Some ["lib/b1\x.txt"; "lib/b1\v2"; "lib/b1\v1"; "lib/b1\index.html";
          "lib/b1\index-mb.html"].
Proof. reflexivity. Qed.

(** A folder that holds a.png and an image whose name begins with the
    superscript two: the bookshelf counts two pages, the progressive
    reader returns nothing, the reader generator raises and writes
    nothing. *)
Example superscript_name_raises :
  let two := String (ascii_of_nat 178) "" in
  let message := "invalid literal for int() with base 10: '" +:+ two +:+ "'" in
  let fs := Dir [("m", superscript_tree)] in
  (BookshelfScanner._count_content ["m"] superscript_tree).1 = 2 ∧
  ProgressiveReader.get_manga_images "/" ["m"] superscript_tree = ([], 0) ∧
  MangaHTMLGenerator.reader_elements no_guess "/"
    (MangaAnalyzer.analyze_directory no_guess "/" ["m"] superscript_tree)
    superscript_tree = inl (ValueError message) ∧
  MangaReaderGenerator.generate example_env fs ["m"] "index-mb.html"
  = (fs, inl (ValueError message)) ∧
  MangaReaderGenerator.main example_env ["m"; ""] fs []
  = (fs, ["Unexpected error occurred. Check the log for details.";
          MangaReaderGenerator.rule; "Goodbye!"]).
Proof. repeat split; reflexivity. Qed.

(** ** Instances of the further properties *)

Lemma visible_range_covers_window_witness :
  0 ≤ 1600 ∧ 0 ≤ 900 ∧
  (∀ page, 1 ≤ page ≤ 2000 → (page - 1) * 800 < 1600 + 900 → 1600 < page * 800 →
     (VirtualScroll.visible_range 2000 1600 900).1 ≤ page
     ≤ (VirtualScroll.visible_range 2000 1600 900).2) ∧
  (VirtualScroll.visible_range 2000 1600 900).2
  - (VirtualScroll.visible_range 2000 1600 900).1 + 1 ≤ 900 / 800 + 9.
Proof.
  split; [lia|]. split; [lia|].
  apply (visible_range_covers_window 2000 1600 900); lia.
Defined.

Lemma image_data_indexed_by_page_witness :
  let md := MangaAnalyzer.analyze_directory no_guess "/" ["m"] scenario_tree in
  let self := VirtualScroll.__init__ md None in
  let imageInfo :=
    {| im_page := 2; im_src := "ch1/b.png"; im_chapter := 1; im_name := "Page 2" |} in
  let records :=
    [ {| im_page := 1; im_src := "ch1/a.png"; im_chapter := 1; im_name := "Page 1" |};
      imageInfo;
      {| im_page := 3; im_src := "ch2/1.png"; im_chapter := 1; im_name := "Page 3" |};
      {| im_page := 4; im_src := "ch2/2.png"; im_chapter := 1; im_name := "Page 4" |};
      {| im_page := 5; im_src := "root.jpg"; im_chapter := 1; im_name := "Page 5" |} ] in
  1 ≤ 2 ∧
  VirtualScroll._collect_image_metadata no_guess "/" self scenario_tree = inr records ∧
  records !! Z.to_nat (2 - 1) = Some imageInfo ∧
  im_page imageInfo = 2 ∧ im_name imageInfo = "Page " +:+ Str.of_Z 2.
Proof.
  intros md self imageInfo records.
  assert (VirtualScroll._collect_image_metadata no_guess "/" self scenario_tree
          = inr records) as Hr by reflexivity.
  assert (records !! Z.to_nat (2 - 1) = Some imageInfo) as H by reflexivity.
  split; [lia|]. split; [exact Hr|]. split; [exact H|].
  apply (image_data_indexed_by_page no_guess "/" self scenario_tree 2 imageInfo
           ltac:(lia) records Hr H).
Defined.

Lemma chapter_name_without_separators_witness :
  0 ≤ 3 ∧
  MangaAnalyzer._format_chapter_name "side_story-a" 3 ≠ "" ∧
  Str.contains_char "_" (MangaAnalyzer._format_chapter_name "side_story-a" 3) = false ∧
  Str.contains_char "-" (MangaAnalyzer._format_chapter_name "side_story-a" 3) = false.
Proof.
  split; [lia|]. apply (chapter_name_without_separators "side_story-a" 3). lia.
Defined.

Lemma cover_found_iff_pages_witness :
  ["b1"] ≠ [] ∧
  BookshelfScanner.truthy
    (ImageSearchEngine.find_first_image "/" ["lib"] (["lib"] ++ ["b1"])
       (Dir [("x.txt", File ""); ("v2", Dir [("2.png", File "")])]))
  = bool_decide
      (0 < (BookshelfScanner._count_content (["lib"] ++ ["b1"])
              (Dir [("x.txt", File ""); ("v2", Dir [("2.png", File "")])])).1).
Proof.
  split; [discriminate|].
  apply (cover_found_iff_pages "/" ["lib"] ["b1"]). discriminate.
Defined.

Lemma book_listed_iff_reader_witness :
  ["b2"] ≠ [] ∧
  (is_Some (BookshelfScanner._analyze_book_folder "/" true shelf_tree ["lib"]
              (["lib"] ++ ["b2"])).2 ↔
   is_Some (ReaderFileFinder.find_reader_file "/" shelf_tree (["lib"] ++ ["b2"]) ["lib"])) ∧
  ∀ b, (BookshelfScanner._analyze_book_folder "/" true shelf_tree ["lib"]
          (["lib"] ++ ["b2"])).2 = Some b →
    ∃ file,
      BookItem.reader_link b = Emitted.src_path "/" ["lib"] ((["lib"] ++ ["b2"]) ++ [file]) ∧
      FS.exists_ (BookshelfScanner._analyze_book_folder "/" true shelf_tree ["lib"]
                    (["lib"] ++ ["b2"])).1 ((["lib"] ++ ["b2"]) ++ [file]) = true.
Proof.
  split; [discriminate|].
  apply (book_listed_iff_reader "/" true shelf_tree ["lib"] ["b2"]). discriminate.
Defined.

Lemma dotted_path_never_raises_witness :
  let fs :=
    Dir [("C:", Dir [("my.manga", Dir [("a.png", File ""); ("README", File "")])])] in
  Str.contains_char "." "C:\my.manga" = true ∧
  ∀ e, Htmlc.run Htmlc.Windows 10 fs "C:\my.manga" ≠ Some (inl e).
Proof.
  intros fs. split; [reflexivity|].
  apply (dotted_path_never_raises Htmlc.Windows 10 fs "C:\my.manga"). reflexivity.
Defined.

Lemma reading_area_follows_metadata_witness :
  FS.wf scenario_tree = true ∧
  let md := MangaAnalyzer.analyze_directory no_guess "/" ["m"] scenario_tree in
  let all_images := MangaHTMLGenerator.all_images no_guess "/" ["m"] scenario_tree in
  forallb (sortable "/" ["m"]) all_images = true ∧
  ∃ elements,
    MangaHTMLGenerator.reader_elements no_guess "/" md scenario_tree = inr elements ∧
    page_numbers elements = counting 1 (Z.to_nat (total_pages md)) ∧
    (∀ src page ch, PageImage src page ch ∈ elements →
       ∃ c, c ∈ chapters md ∧ number c = ch ∧ start_page c ≤ page ≤ end_page c) ∧
    sources elements ≡ₚ Emitted.src_path "/" ["m"] <$> all_images.
Proof.
  split; [reflexivity|]. intros md all_images.
  assert (forallb (sortable "/" ["m"]) all_images = true) as Hkeys by reflexivity.
  split; [exact Hkeys|].
  pose proof (reading_area_follows_metadata no_guess "/" ["m"] scenario_tree eq_refl)
    as H.
  cbv zeta in H. fold all_images in H. rewrite Hkeys in H. exact H.
Defined.

Lemma image_data_complete_witness :
  let md := MangaAnalyzer.analyze_directory no_guess "/" ["m"] superscript_tree in
  forallb (sortable "/" ["m"])
    (MangaHTMLGenerator.all_images no_guess "/" ["m"] superscript_tree) = false ∧
  ∃ message,
    VirtualScroll._collect_image_metadata no_guess "/"
      (VirtualScroll.__init__ md None) superscript_tree
    = inl (ValueError message).
Proof.
  intros md.
  assert (forallb (sortable "/" ["m"])
            (MangaHTMLGenerator.all_images no_guess "/" ["m"] superscript_tree)
          = false) as Hkeys by reflexivity.
  split; [exact Hkeys|].
  pose proof (image_data_complete no_guess "/" ["m"] superscript_tree None) as H.
  cbv zeta in H. rewrite Hkeys in H. exact H.
Defined.


Lemma main_keeps_other_files_witness :
  FS.lookup shelf_tree ["lib"; "b1"; "index.html"] = Some (File "R") ∧
  Path.name ["lib"; "b1"; "index.html"] ≠ "index-mb.html" ∧
  FS.lookup (MangaReaderGenerator.main example_env ["lib/b1"; "lib/b3"; ""]
               shelf_tree []).1 ["lib"; "b1"; "index.html"]
  = Some (File "R").
Proof.
  split; [reflexivity|]. split; [discriminate|].
  apply (main_keeps_other_files example_env ["lib/b1"; "lib/b3"; ""] shelf_tree []
           ["lib"; "b1"; "index.html"] "R"); [reflexivity|discriminate].
Defined.

Lemma htmlc_scan_complete_witness :
  let tree :=
    Dir [("x.txt", File ""); ("v2", Dir [("2.png", File "")]);
         ("v1", Dir [("10.jpg", File "")]);
         ("index.html", File "R"); ("index-mb.html", File "MB")] in
  Htmlc.locate Htmlc.Windows shelf_tree ".\lib\b1" = Some ["lib"; "b1"] ∧
  FS.lookup shelf_tree ["lib"; "b1"] = Some tree ∧
  FS.is_dir_node tree = true ∧ FS.wf tree = true ∧
  FS.names_ok FS.proper_name tree = true ∧
  ∃ filesArray,
    Htmlc.all_files Htmlc.Windows (dirs tree) shelf_tree [".\lib\b1"] []
    = Some filesArray ∧
    Htmlc.locate Htmlc.Windows shelf_tree <$> filesArray
    ≡ₚ Some <$> files_below ["lib"; "b1"] tree.
Proof.
  intros tree.
  split; [reflexivity|]. split; [reflexivity|]. split; [reflexivity|].
  split; [reflexivity|]. split; [reflexivity|].
  apply (htmlc_scan_complete shelf_tree ".\lib\b1" ["lib"; "b1"] tree); reflexivity.
Defined.
